(** * opspec: annotation grammar and static verifier

    A shallow embedding of [src/spec-parser.ts], [src/ast-utils.ts],
    [src/verifier.ts] and the JSON shape of [dist/reporter.js], followed by
    the properties proved about them.

    Conventions of the embedding:
    - a JavaScript string is a Rocq [string]; its characters are the code
      units U+0000..U+00FF (the Latin-1 range);
    - the TypeScript syntax tree is an inductive type [Node] carrying, for
      every node, the start offset ([getStart]) and the source text
      ([getText]) that the analysed code reads from it;
    - a JavaScript [Map] is an association list in insertion order;
    - object identity ([===] on spec objects) is an explicit [oid] field. *)

From Stdlib Require Import String Ascii List Bool Arith PeanoNat Lia.
Import ListNotations.
Open Scope list_scope.
Open Scope string_scope.
Open Scope nat_scope.

(* ================================================================== *)
(** ** JavaScript string primitives *)
(* ================================================================== *)

Module Text.

Definition code (c : ascii) : nat := nat_of_ascii c.

(** [\s], which is also the set removed by [String.prototype.trim]. *)
Definition isSpace (c : ascii) : bool :=
  let n := code c in
  ((9 <=? n) && (n <=? 13)) || (n =? 32) || (n =? 160).

(** Line terminators: the characters [.] does not match. *)
Definition isLineTerminator (c : ascii) : bool :=
  let n := code c in (n =? 10) || (n =? 13).

Definition isDigit (c : ascii) : bool :=
  let n := code c in (48 <=? n) && (n <=? 57).

Definition isUpper (c : ascii) : bool :=
  let n := code c in (65 <=? n) && (n <=? 90).

Definition isLower (c : ascii) : bool :=
  let n := code c in (97 <=? n) && (n <=? 122).

(** [[0-9a-fA-F]] *)
Definition isHexDigit (c : ascii) : bool :=
  let n := code c in
  isDigit c || ((97 <=? n) && (n <=? 102)) || ((65 <=? n) && (n <=? 70)).

(** [\w] *)
Definition isWordChar (c : ascii) : bool :=
  isDigit c || isUpper c || isLower c || (code c =? 95).

Definition srev (s : string) : string :=
  string_of_list_ascii (rev (list_ascii_of_string s)).

Fixpoint startsWith (s p : string) {struct p} : bool :=
  match p, s with
  | EmptyString, _ => true
  | String _ _, EmptyString => false
  | String a p', String b s' => Ascii.eqb a b && startsWith s' p'
  end.

Definition endsWith (s p : string) : bool := startsWith (srev s) (srev p).

(** [s.includes(p)] *)
Fixpoint includes (s p : string) : bool :=
  startsWith s p ||
  match s with
  | EmptyString => false
  | String _ s' => includes s' p
  end.

Fixpoint trimStart (s : string) : string :=
  match s with
  | EmptyString => EmptyString
  | String c s' => if isSpace c then trimStart s' else s
  end.

Definition trimEnd (s : string) : string := srev (trimStart (srev s)).

Definition trim (s : string) : string := trimEnd (trimStart s).

Fixpoint smap (f : ascii -> ascii) (s : string) : string :=
  match s with
  | EmptyString => EmptyString
  | String c s' => String (f c) (smap f s')
  end.

(** Case mapping on the Latin-1 range.  Upper-casing leaves U+00B5, U+00DF
    and U+00FF fixed: their upper-case forms lie outside the range. *)
Definition lowerChar (c : ascii) : ascii :=
  let n := code c in
  if isUpper c || ((192 <=? n) && (n <=? 222) && negb (n =? 215))
  then ascii_of_nat (n + 32) else c.

Definition upperChar (c : ascii) : ascii :=
  let n := code c in
  if isLower c || ((224 <=? n) && (n <=? 254) && negb (n =? 247))
  then ascii_of_nat (n - 32) else c.

Definition toLowerCase : string -> string := smap lowerChar.
Definition toUpperCase : string -> string := smap upperChar.

(** [l.join(sep)] *)
Fixpoint join (sep : string) (l : list string) : string :=
  match l with
  | [] => EmptyString
  | [x] => x
  | x :: rest => x ++ sep ++ join sep rest
  end.

(** [s.split(c)] for a one-character separator. *)
Fixpoint splitChar (sep : ascii) (s : string) : list string :=
  match s with
  | EmptyString => [EmptyString]
  | String c s' =>
      if Ascii.eqb c sep then EmptyString :: splitChar sep s'
      else match splitChar sep s' with
           | h :: t => String c h :: t
           | [] => [String c EmptyString]
           end
  end.

(** [s.slice(0, n)] *)
Definition take (n : nat) (s : string) : string := substring 0 n s.

(** [s.replace(c, '')] for a one-character string pattern: only the first
    occurrence is removed. *)
Fixpoint removeFirstChar (c : ascii) (s : string) : string :=
  match s with
  | EmptyString => EmptyString
  | String a s' => if Ascii.eqb a c then s' else String a (removeFirstChar c s')
  end.

Definition isEmpty (s : string) : bool :=
  match s with EmptyString => true | _ => false end.

End Text.

(* ================================================================== *)
(** ** Regular expressions

    A backtracking matcher in continuation-passing style, with the
    constructs the source's patterns use: character tests, sequence,
    alternation, greedy and lazy repetition, capturing groups, and the
    anchors.  Priorities follow ECMAScript: the left alternative first, the
    longest repetition first for [*], the shortest first for [*?]; an
    iteration of a repetition that consumes nothing is rejected. *)
(* ================================================================== *)

Module Regex.
Import Text.

Inductive regex : Type :=
| Eps
| Chr (p : ascii -> bool)
| Seq (r1 r2 : regex)
| Alt (r1 r2 : regex)
| Star (r : regex)
| LazyStar (r : regex)
| Group (i : nat) (r : regex)
| Bol
| Eol
| EolM.

Definition captures := list (nat * string).

Fixpoint capture (i : nat) (caps : captures) : option string :=
  match caps with
  | [] => None
  | (j, v) :: rest => if j =? i then Some v else capture i rest
  end.

(** The text consumed between the suffix [s] and its later suffix [s']. *)
Definition consumed (s s' : string) : string :=
  take (String.length s - String.length s') s.

(** The loop of a repetition of [atom], bounded by [fuel]: an iteration
    must consume at least one character, so [String.length s] iterations
    are always enough.  The greedy loop tries one more iteration before it
    continues with [k]; the lazy loop continues with [k] first. *)
Fixpoint greedyLoop {A : Type}
    (atom : string -> captures -> (string -> captures -> option A) -> option A)
    (k : string -> captures -> option A) (fuel : nat) (s : string) (caps : captures)
    {struct fuel} : option A :=
  match fuel with
  | O => k s caps
  | S fuel' =>
      match atom s caps
              (fun s' caps' =>
                 if String.length s' <? String.length s
                 then greedyLoop atom k fuel' s' caps' else None) with
      | Some x => Some x
      | None => k s caps
      end
  end.

Fixpoint lazyLoop {A : Type}
    (atom : string -> captures -> (string -> captures -> option A) -> option A)
    (k : string -> captures -> option A) (fuel : nat) (s : string) (caps : captures)
    {struct fuel} : option A :=
  match fuel with
  | O => k s caps
  | S fuel' =>
      match k s caps with
      | Some x => Some x
      | None =>
          atom s caps
            (fun s' caps' =>
               if String.length s' <? String.length s
               then lazyLoop atom k fuel' s' caps' else None)
      end
  end.

(** [run r len0 s caps k]: match [r] at the suffix [s] of an input of length
    [len0], then continue with [k] on what is left. *)
Fixpoint run {A : Type} (r : regex) (len0 : nat) (s : string) (caps : captures)
    (k : string -> captures -> option A) {struct r} : option A :=
  match r with
  | Eps => k s caps
  | Chr p =>
      match s with
      | String c s' => if p c then k s' caps else None
      | EmptyString => None
      end
  | Seq r1 r2 => run r1 len0 s caps (fun s' caps' => run r2 len0 s' caps' k)
  | Alt r1 r2 =>
      match run r1 len0 s caps k with
      | Some x => Some x
      | None => run r2 len0 s caps k
      end
  | Star r' => greedyLoop (run r' len0) k (String.length s) s caps
  | LazyStar r' => lazyLoop (run r' len0) k (String.length s) s caps
  | Group i r' =>
      run r' len0 s caps (fun s' caps' => k s' ((i, consumed s s') :: caps'))
  | Bol => if String.length s =? len0 then k s caps else None
  | Eol => match s with EmptyString => k s caps | _ => None end
  | EolM =>
      match s with
      | EmptyString => k s caps
      | String c _ => if isLineTerminator c then k s caps else None
      end
  end.

(** Pattern-building shorthands. *)
Definition chr (c : ascii) : regex := Chr (Ascii.eqb c).
Definition notChr (c : ascii) : regex := Chr (fun x => negb (Ascii.eqb c x)).
Definition dot : regex := Chr (fun c => negb (isLineTerminator c)).
Definition anyChar : regex := Chr (fun _ => true).
Definition space : regex := Chr isSpace.
Definition word : regex := Chr isWordChar.
Definition plus (r : regex) : regex := Seq r (Star r).
Definition lazyPlus (r : regex) : regex := Seq r (LazyStar r).

Fixpoint lit (s : string) : regex :=
  match s with
  | EmptyString => Eps
  | String c s' => Seq (chr c) (lit s')
  end.

Fixpoint seqs (l : list regex) : regex :=
  match l with
  | [] => Eps
  | [r] => r
  | r :: rest => Seq r (seqs rest)
  end.

(** The match object of [RegExp.prototype.exec]. *)
Record Match : Type := mkMatch {
  index : nat;
  matched : string;
  groups : captures;
  after : string
}.

Definition matchHere (r : regex) (len0 : nat) (s : string) : option (string * captures) :=
  run r len0 s [] (fun s' caps => Some (s', caps)).

(** Leftmost match: the start positions are tried from left to right. *)
Fixpoint search (r : regex) (len0 idx : nat) (s : string) : option Match :=
  match matchHere r len0 s with
  | Some (rest, caps) => Some (mkMatch idx (consumed s rest) caps rest)
  | None =>
      match s with
      | EmptyString => None
      | String _ s' => search r len0 (S idx) s'
      end
  end.

(** [re.exec(s)] for a pattern without the [g] flag; also [s.match(re)]. *)
Definition exec (r : regex) (s : string) : option Match :=
  search r (String.length s) 0 s.

(** [re.test(s)] *)
Definition test (r : regex) (s : string) : bool :=
  match exec r s with Some _ => true | None => false end.

(** The successive results of [while ((m = re.exec(s)) !== null)] for a
    pattern with the [g] flag.  Every such pattern of the source consumes at
    least one character, so [lastIndex] always advances and the fuel
    [S (String.length s)] is never exhausted. *)
Fixpoint execAllFrom (fuel : nat) (r : regex) (len0 idx : nat) (s : string) : list Match :=
  match fuel with
  | O => []
  | S fuel' =>
      match search r len0 idx s with
      | None => []
      | Some m =>
          m :: (if String.length (after m) <? String.length s
                then execAllFrom fuel' r len0 (index m + String.length (matched m)) (after m)
                else [])
      end
  end.

Definition execAll (r : regex) (s : string) : list Match :=
  execAllFrom (S (String.length s)) r (String.length s) 0 s.

(** The text skipped between offset [idx] (where [s] starts) and a match. *)
Definition before (idx : nat) (s : string) (m : Match) : string :=
  take (index m - idx) s.

(** [s.replace(re, repl)] with the [g] flag and a constant replacement, for
    a pattern that consumes at least one character (as those of the source
    do). *)
Fixpoint replaceAllFrom (fuel : nat) (r : regex) (repl : string) (len0 idx : nat) (s : string)
    : string :=
  match fuel with
  | O => s
  | S fuel' =>
      match search r len0 idx s with
      | None => s
      | Some m =>
          before idx s m ++ repl ++
          (if String.length (after m) <? String.length s
           then replaceAllFrom fuel' r repl len0 (index m + String.length (matched m)) (after m)
           else after m)
      end
  end.

Definition replaceAll (r : regex) (repl : string) (s : string) : string :=
  replaceAllFrom (S (String.length s)) r repl (String.length s) 0 s.

(** [s.replace(re, repl)] without the [g] flag: the first match only. *)
Definition replaceFirst (r : regex) (repl : string) (s : string) : string :=
  match exec r s with
  | None => s
  | Some m => before 0 s m ++ repl ++ after m
  end.

(** [s.split(re)] for a pattern without groups (ECMAScript's split loop).
    The head of [s] is the scan position [q]; [acc] holds, reversed, the
    text from the start [p] of the current piece up to [q]; [fresh] says
    that [q = p].  A match that ends at [p] is skipped. *)
Fixpoint splitFrom (fuel : nat) (r : regex) (len0 : nat) (s acc : string) (fresh : bool)
    : list string :=
  match fuel with
  | O => [srev acc ++ s]
  | S fuel' =>
      match s with
      | EmptyString => [srev acc]
      | String c s' =>
          match matchHere r len0 s with
          | None => splitFrom fuel' r len0 s' (String c acc) false
          | Some (rest, _) =>
              if (String.length rest =? String.length s) && fresh
              then splitFrom fuel' r len0 s' (String c acc) false
              else srev acc :: splitFrom fuel' r len0 rest EmptyString true
          end
      end
  end.

Definition split (r : regex) (s : string) : list string :=
  match s with
  | EmptyString =>
      match matchHere r 0 s with Some _ => [] | None => [EmptyString] end
  | _ => splitFrom (2 * String.length s + 2) r (String.length s) s EmptyString true
  end.

End Regex.

(* ================================================================== *)
(** ** JavaScript [Map] and [Set] keyed by strings *)
(* ================================================================== *)

Module JsMap.
Section WithValue.
Context {V : Type}.

(** Entries in insertion order; [set] on a present key replaces the value
    and keeps the entry's position. *)
Definition t : Type := list (string * V).

Definition empty : t := [].

Fixpoint set (k : string) (v : V) (m : t) : t :=
  match m with
  | [] => [(k, v)]
  | (k', v') :: rest =>
      if String.eqb k' k then (k, v) :: rest else (k', v') :: set k v rest
  end.

Fixpoint get (k : string) (m : t) : option V :=
  match m with
  | [] => None
  | (k', v') :: rest => if String.eqb k' k then Some v' else get k rest
  end.

Definition keys (m : t) : list string := map fst m.

End WithValue.
Arguments t : clear implicits.
End JsMap.

Module JsSet.

Definition t : Type := list string.

Definition has (x : string) (s : t) : bool := existsb (String.eqb x) s.

End JsSet.

(** [arr.includes(x)] on an array of strings. *)
Definition arrayIncludes (l : list string) (x : string) : bool :=
  existsb (String.eqb x) l.

(** [[...new Set(l)]]: duplicates removed, first occurrences kept. *)
Fixpoint uniqueFrom (seen l : list string) : list string :=
  match l with
  | [] => []
  | x :: rest =>
      if arrayIncludes seen x then uniqueFrom seen rest
      else x :: uniqueFrom (x :: seen) rest
  end.

Definition unique (l : list string) : list string := uniqueFrom [] l.

(* ================================================================== *)
(** ** The syntax tree ([typescript]'s [ts.Node], as far as the code reads it) *)
(* ================================================================== *)

Module Ast.

Inductive Token : Type := EqualsToken | OtherToken.

#[local] Set Warnings "-register-all".

(** Every node carries [pos] (the result of [getStart]) and [text] (the
    result of [getText]).  [header] holds the children that precede the
    members of a class, the body of a method or the type of a property
    (modifiers, name, heritage clauses, parameters); the [name] of a method
    or of a property is the text of its name node.  [OtherNode] stands for
    every other kind of node, the operator token of a binary expression is
    kept as a [Token] and is no node of its own. *)
Inductive Node : Type :=
| CallExpression (pos : nat) (text : string) (expression : Node) (arguments : list Node)
| BinaryExpression (pos : nat) (text : string) (left : Node) (operatorToken : Token)
    (right : Node)
| IfStatement (pos : nat) (text : string) (expression thenStatement : Node)
    (elseStatement : option Node)
| ExpressionStatement (pos : nat) (text : string) (expression : Node)
| Block (pos : nat) (text : string) (statements : list Node)
| ClassDeclaration (pos : nat) (text : string) (name : option string)
    (header members : list Node)
| MethodDeclaration (pos : nat) (text : string) (name : string) (header : list Node)
    (body : option Node)
| PropertyDeclaration (pos : nat) (text : string) (name : string) (header : list Node)
    (type initializer : option Node)
| OtherNode (pos : nat) (text : string) (children : list Node).

Definition SourceFile : Type := Node.

Definition getStart (n : Node) : nat :=
  match n with
  | CallExpression p _ _ _ | BinaryExpression p _ _ _ _ | IfStatement p _ _ _ _
  | ExpressionStatement p _ _ | Block p _ _ | ClassDeclaration p _ _ _ _
  | MethodDeclaration p _ _ _ _ | PropertyDeclaration p _ _ _ _ _ | OtherNode p _ _ => p
  end.

Definition getText (n : Node) : string :=
  match n with
  | CallExpression _ t _ _ | BinaryExpression _ t _ _ _ | IfStatement _ t _ _ _
  | ExpressionStatement _ t _ | Block _ t _ | ClassDeclaration _ t _ _ _
  | MethodDeclaration _ t _ _ _ | PropertyDeclaration _ t _ _ _ _ | OtherNode _ t _ => t
  end.

(** [node?.getText(sourceFile) || ''] *)
Definition optText (o : option Node) : string :=
  match o with Some n => getText n | None => EmptyString end.

(** [walkTree(node, callback)]: the nodes in the order in which the callback
    is applied to them (depth first, a node before its children). *)
Fixpoint walkTree (n : Node) : list Node :=
  n ::
  match n with
  | CallExpression _ _ e args => walkTree e ++ flat_map walkTree args
  | BinaryExpression _ _ l _ r => walkTree l ++ walkTree r
  | IfStatement _ _ e th el =>
      walkTree e ++ walkTree th ++
      match el with Some x => walkTree x | None => [] end
  | ExpressionStatement _ _ e => walkTree e
  | Block _ _ ss => flat_map walkTree ss
  | ClassDeclaration _ _ _ hd ms => flat_map walkTree hd ++ flat_map walkTree ms
  | MethodDeclaration _ _ _ hd b =>
      flat_map walkTree hd ++ match b with Some x => walkTree x | None => [] end
  | PropertyDeclaration _ _ _ hd ty ini =>
      flat_map walkTree hd ++
      match ty with Some x => walkTree x | None => [] end ++
      match ini with Some x => walkTree x | None => [] end
  | OtherNode _ _ cs => flat_map walkTree cs
  end.

Definition isClassDeclaration (n : Node) : bool :=
  match n with ClassDeclaration _ _ _ _ _ => true | _ => false end.

Definition isMethodDeclaration (n : Node) : bool :=
  match n with MethodDeclaration _ _ _ _ _ => true | _ => false end.

Definition members (classDecl : Node) : list Node :=
  match classDecl with ClassDeclaration _ _ _ _ ms => ms | _ => [] end.

Definition body (method : Node) : option Node :=
  match method with MethodDeclaration _ _ _ _ b => b | _ => None end.

Definition statements (block : Node) : list Node :=
  match block with Block _ _ ss => ss | _ => [] end.

End Ast.

(* ================================================================== *)
(** ** [src/ast-utils.ts] *)
(* ================================================================== *)

Module AstUtils.
Import Text Regex Ast.

Definition findClassDeclarations (sourceFile : SourceFile) : list Node :=
  filter isClassDeclaration (walkTree sourceFile).

(** [node.name?.text || '<anonymous>'] *)
Definition getClassName (node : Node) : string :=
  match node with
  | ClassDeclaration _ _ (Some n) _ _ => if isEmpty n then "<anonymous>" else n
  | _ => "<anonymous>"
  end.

Definition getClassMethods (classDecl : Node) : list Node :=
  filter isMethodDeclaration (members classDecl).

Definition getMethodName (method : Node) : string :=
  match method with MethodDeclaration _ _ n _ _ => n | _ => EmptyString end.

Definition storedTypes : list string :=
  ["StoredU256"; "StoredAddress"; "StoredBoolean"; "StoredString";
   "StoredMapU256"; "AddressMemoryMap"].

Definition detectStoredFields (classDecl : Node) : JsMap.t string :=
  fold_left
    (fun stored member =>
       match member with
       | PropertyDeclaration _ _ name _ ty ini =>
           let typeText := optText ty in
           let initText := optText ini in
           match find (fun st => includes typeText st || includes initText ("new " ++ st))
                   storedTypes with
           | Some st => JsMap.set name st stored
           | None => stored
           end
       | _ => stored
       end)
    (members classDecl) JsMap.empty.

Definition getMethodBodyText (method : Node) : string :=
  match body method with
  | None => EmptyString
  | Some b => getText b
  end.

Record CallSite : Type := mkCallSite { call_pos : nat; call_text : string }.

Definition findBlockchainCalls (method : Node) : list CallSite :=
  match body method with
  | None => []
  | Some b =>
      flat_map
        (fun node =>
           match node with
           | CallExpression p t e _ =>
               if String.eqb (getText e) "Blockchain.call" then [mkCallSite p t] else []
           | _ => []
           end)
        (walkTree b)
  end.

Record StateWrite : Type := mkStateWrite {
  write_pos : nat; write_field : string; write_text : string
}.

(** [/this\.(\w+)\.value/] *)
Definition valueFieldRe : regex := seqs [lit "this."; Group 1 (plus word); lit ".value"].
(** [/this\.(\w+)\.set/] *)
Definition setFieldRe : regex := seqs [lit "this."; Group 1 (plus word); lit ".set"].

(** [m[i]] of a match object, for a group that took part in the match. *)
Definition group (i : nat) (m : Match) : string :=
  match capture i (groups m) with Some v => v | None => EmptyString end.

Definition findStateWrites (method : Node) (storedFields : JsSet.t) : list StateWrite :=
  match body method with
  | None => []
  | Some b =>
      flat_map
        (fun node =>
           match node with
           | BinaryExpression p _ l EqualsToken _ =>
               let leftText := getText l in
               if endsWith leftText ".value" then
                 match exec valueFieldRe leftText with
                 | Some fieldMatch =>
                     if JsSet.has (group 1 fieldMatch) storedFields
                     then [mkStateWrite p (group 1 fieldMatch) leftText] else []
                 | None => []
                 end
               else []
           | CallExpression p _ e _ =>
               let exprText := getText e in
               if includes exprText "this." && endsWith exprText ".set" then
                 match exec setFieldRe exprText with
                 | Some fieldMatch =>
                     if JsSet.has (group 1 fieldMatch) storedFields
                     then [mkStateWrite p (group 1 fieldMatch) exprText] else []
                 | None => []
                 end
               else []
           | _ => []
           end)
        (walkTree b)
  end.

Record Guard : Type := mkGuard {
  guard_condition : string; guard_message : string; guard_pos : nat
}.

(** The single and the double quotation mark. *)
Definition isQuote (c : ascii) : bool := (code c =? 39) || (code c =? 34).

(** The pattern of [thenText.match]: the word Revert, an opening parenthesis,
    a quotation mark, the message (group 1, any run without quotation marks),
    a quotation mark and the closing parenthesis, with optional white space
    around the parentheses. *)
Definition revertMessageRe : regex :=
  seqs [lit "Revert"; Star space; chr "("; Star space; Chr isQuote;
        Group 1 (Star (Chr (fun c => negb (isQuote c)))); Chr isQuote;
        Star space; chr ")"].

Definition findGuardChecks (method : Node) : list Guard :=
  match body method with
  | None => []
  | Some b =>
      flat_map
        (fun stmt =>
           match stmt with
           | IfStatement p _ e th _ =>
               let condition := getText e in
               let thenText := getText th in
               if includes thenText "Revert" then
                 let msgMatch := exec revertMessageRe thenText in
                 [mkGuard condition
                    (match msgMatch with Some m => group 1 m | None => EmptyString end) p]
               else []
           | ExpressionStatement p text _ =>
               if includes text "onlyDeployer" || includes text "ensureOwner" ||
                  includes text "ensureActive" || includes text "requireActive"
               then [mkGuard (trim (removeFirstChar ";" text)) EmptyString p]
               else []
           | _ => []
           end)
        (statements b)
  end.

End AstUtils.

(* ================================================================== *)
(** ** [src/types.ts] *)
(* ================================================================== *)

Module Types.

Inductive SpecTag : Type :=
| Invariant | Pre | Requires | Post | Ensures | State | Access | Calls | Temporal | Opnet.

Inductive VerificationStatus : Type := VERIFIED | UNVERIFIED | VIOLATED | MISSING.

(** [oid] is the identity of the JavaScript object: two spec objects are
    [===] exactly when they are the same object. *)
Record SpecAnnotation : Type := mkAnnotation {
  oid : nat;
  tag : SpecTag;
  expression : string;
  comment : option string;
  file : string;
  line : nat;
  column : nat
}.

Record InvariantSpec : Type := mkInvariant {
  inv_ann :> SpecAnnotation;
  inv_fieldReferences : list string
}.

Record PreconditionSpec : Type := mkPrecondition {
  pre_ann :> SpecAnnotation;
  pre_methodName : string
}.

Record PostconditionSpec : Type := mkPostcondition {
  post_ann :> SpecAnnotation;
  post_methodName : string;
  isCEI : bool;
  oldReferences : list string;
  post_fieldReferences : list string
}.

Record StateTransition : Type := mkTransition {
  fromState : string;
  toState : string;
  transition_methods : list string;
  condition : option string
}.

Record StateSpec : Type := mkStateSpec {
  state_ann :> SpecAnnotation;
  transition : StateTransition
}.

Record AccessSpec : Type := mkAccess {
  access_ann :> SpecAnnotation;
  level : string;
  access_methodName : string
}.

Record CallsSpec : Type := mkCalls {
  calls_ann :> SpecAnnotation;
  target : string;
  calledMethod : string;
  expectation : string;
  calls_methodName : string
}.

Record TemporalSpec : Type := mkTemporal {
  temporal_ann :> SpecAnnotation;
  subject : string;
  temporal_condition : string
}.

Record OpnetSpec : Type := mkOpnet {
  opnet_ann :> SpecAnnotation;
  constraint : string
}.

Record MethodSpecs : Type := mkMethodSpecs {
  methodName : string;
  preconditions : list PreconditionSpec;
  postconditions : list PostconditionSpec;
  access : option AccessSpec;
  calls : list CallsSpec;
  stateTransitions : list StateSpec;
  temporal : list TemporalSpec
}.

Record ContractSpecs : Type := mkContract {
  className : string;
  contract_file : string;
  invariants : list InvariantSpec;
  contract_stateTransitions : list StateSpec;
  opnetConstraints : list OpnetSpec;
  methods : JsMap.t MethodSpecs
}.

Record VerificationResult : Type := mkResult {
  spec : SpecAnnotation;
  status : VerificationStatus;
  message : string;
  details : option string;
  result_file : string;
  result_line : nat
}.

Record Summary : Type := mkSummary {
  verified : nat;
  unverified : nat;
  violated : nat;
  missing : nat;
  total : nat
}.

Record VerificationReport : Type := mkReport {
  contractName : string;
  report_file : string;
  results : list VerificationResult;
  summary : Summary
}.

Definition status_eqb (a b : VerificationStatus) : bool :=
  match a, b with
  | VERIFIED, VERIFIED | UNVERIFIED, UNVERIFIED
  | VIOLATED, VIOLATED | MISSING, MISSING => true
  | _, _ => false
  end.

End Types.

(* ================================================================== *)
(** ** [src/spec-parser.ts] *)
(* ================================================================== *)

Module SpecParser.
Import Text Regex Types.
Import AstUtils (group, valueFieldRe).

(** [extractFieldReferences]; its pattern is [/this\.(\w+)\.value/g]. *)
Definition extractFieldReferences (expr : string) : list string :=
  unique (map (group 1) (execAll valueFieldRe expr)).

(** The pattern of [extractOldReferences]: the text old, an opening
    parenthesis, group 1 (one or more characters other than the closing
    parenthesis) and the closing parenthesis; flag [g]. *)
Definition oldRe : regex :=
  seqs [lit "old("; Group 1 (plus (notChr ")")); chr ")"].

Definition extractOldReferences (expr : string) : list string :=
  map (fun m => trim (group 1 m)) (execAll oldRe expr).

(** [mainRe]: start of input, group 1 (one or more characters other than the
    hyphen and the greater-than sign), the arrow, group 2 (one or more
    characters other than the colon), the colon, group 3 (one or more
    characters on one line), end of input; white space is optional around
    the arrow and after the colon. *)
Definition mainRe : regex :=
  seqs [Bol;
        Group 1 (plus (Chr (fun c => negb (Ascii.eqb c "-" || Ascii.eqb c ">"))));
        Star space; lit "->"; Star space;
        Group 2 (plus (notChr ":")); chr ":"; Star space;
        Group 3 (plus dot); Eol].

(** [condRe]: an opening bracket, the word when, white space, group 1 (one
    or more characters on one line), a closing bracket, end of input. *)
Definition condRe : regex :=
  seqs [lit "[when"; plus space; Group 1 (plus dot); chr "]"; Eol].

(** [/\(\)$/] *)
Definition trailingParensRe : regex := seqs [lit "()"; Eol].

Definition parseStateTransition (expr : string) : StateTransition :=
  match exec mainRe (trim expr) with
  | None => mkTransition "?" "?" [] (Some (trim expr))
  | Some m =>
      let fromState := trim (group 1 m) in
      let toState := trim (group 2 m) in
      let rest := trim (group 3 m) in
      let condMatch := exec condRe rest in
      let condition :=
        match condMatch with
        | Some cm => Some (trim (group 1 cm))
        | None => None
        end in
      let rest :=
        match condMatch with
        | Some cm => trim (take (index cm) rest)
        | None => rest
        end in
      let methods :=
        filter (fun s => negb (isEmpty s))
          (map (fun s => replaceFirst trailingParensRe "" (trim s)) (splitChar "," rest)) in
      mkTransition fromState toState methods condition
  end.

(** The pattern of [parseCallsSpec]: start of input, group 1 (lazy, one or
    more characters), a colon, group 2 (lazy, one or more characters), the
    arrow, group 3 (one or more characters), end of input; white space is
    optional around the colon and the arrow. *)
Definition callsRe : regex :=
  seqs [Bol; Group 1 (lazyPlus dot); Star space; chr ":"; Star space;
        Group 2 (lazyPlus dot); Star space; lit "->"; Star space;
        Group 3 (plus dot); Eol].

(** The annotation of the result is that of the source, rebuilt from its
    parts with the tag [calls] (the source passes the parts one by one). *)
Definition parseCallsSpec (ann : SpecAnnotation) (methodName : string) : CallsSpec :=
  let expr := expression ann in
  let base := mkAnnotation (oid ann) Calls expr (comment ann) (file ann) (line ann) (column ann) in
  match exec callsRe (trim expr) with
  | None => mkCalls base (trim expr) "" "" methodName
  | Some m => mkCalls base (trim (group 1 m)) (trim (group 2 m)) (trim (group 3 m)) methodName
  end.

(** [{...ann, tag: t}].  The spread builds a new object; the embedding gives
    it the identity of the annotation it is built from, which no other
    object of the spec tree carries. *)
Definition withTag (ann : SpecAnnotation) (t : SpecTag) : SpecAnnotation :=
  mkAnnotation (oid ann) t (expression ann) (comment ann) (file ann) (line ann) (column ann).

Definition emptyMethodSpecs (methodName : string) : MethodSpecs :=
  mkMethodSpecs methodName [] [] None [] [] [].

(** The [ensures] case of [buildMethodSpecs]. *)
Definition buildEnsures (methodName : string) (ann : SpecAnnotation) : PostconditionSpec :=
  let isCEI := String.eqb (toUpperCase (trim (expression ann))) "CEI" in
  mkPostcondition (withTag ann Ensures) methodName isCEI
    (if isCEI then [] else extractOldReferences (expression ann))
    (if isCEI then [] else extractFieldReferences (expression ann)).

(** The [post] case of [buildMethodSpecs]. *)
Definition buildPost (methodName : string) (ann : SpecAnnotation) : PostconditionSpec :=
  mkPostcondition (withTag ann Post) methodName false
    (extractOldReferences (expression ann))
    (extractFieldReferences (expression ann)).

(** One iteration of the loop of [buildMethodSpecs]: the [switch] on the tag. *)
Definition addAnnotation (methodName : string) (specs : MethodSpecs) (ann : SpecAnnotation)
    : MethodSpecs :=
  match tag ann with
  | Pre | Requires =>
      let pre := mkPrecondition ann methodName in
      mkMethodSpecs (Types.methodName specs) (preconditions specs ++ [pre])
        (postconditions specs) (access specs) (calls specs) (stateTransitions specs)
        (temporal specs)
  | Post =>
      mkMethodSpecs (Types.methodName specs) (preconditions specs)
        (postconditions specs ++ [buildPost methodName ann]) (access specs) (calls specs)
        (stateTransitions specs) (temporal specs)
  | Ensures =>
      mkMethodSpecs (Types.methodName specs) (preconditions specs)
        (postconditions specs ++ [buildEnsures methodName ann]) (access specs) (calls specs)
        (stateTransitions specs) (temporal specs)
  | Access =>
      let acc := mkAccess (withTag ann Access) (trim (expression ann)) methodName in
      mkMethodSpecs (Types.methodName specs) (preconditions specs) (postconditions specs)
        (Some acc) (calls specs) (stateTransitions specs) (temporal specs)
  | Calls =>
      mkMethodSpecs (Types.methodName specs) (preconditions specs) (postconditions specs)
        (access specs) (calls specs ++ [parseCallsSpec ann methodName])
        (stateTransitions specs) (temporal specs)
  | State =>
      let stateSpec := mkStateSpec (withTag ann State) (parseStateTransition (expression ann)) in
      mkMethodSpecs (Types.methodName specs) (preconditions specs) (postconditions specs)
        (access specs) (calls specs) (stateTransitions specs ++ [stateSpec]) (temporal specs)
  | Temporal =>
      let temp :=
        mkTemporal (withTag ann Temporal)
          (hd "" (split (plus space) (expression ann))) (expression ann) in
      mkMethodSpecs (Types.methodName specs) (preconditions specs) (postconditions specs)
        (access specs) (calls specs) (stateTransitions specs) (temporal specs ++ [temp])
  | Invariant | Opnet => specs
  end.

Definition buildMethodSpecs (methodName : string) (annotations : list SpecAnnotation)
    : MethodSpecs :=
  fold_left (addAnnotation methodName) annotations (emptyMethodSpecs methodName).

(** The postconditions that one annotation contributes to the bundle. *)
Definition postconditionsOf (methodName : string) (ann : SpecAnnotation)
    : list PostconditionSpec :=
  match tag ann with
  | Post => [buildPost methodName ann]
  | Ensures => [buildEnsures methodName ann]
  | _ => []
  end.

End SpecParser.

(* ================================================================== *)
(** ** [src/verifier.ts]: helper functions *)
(* ================================================================== *)

Module Verifier.
Import Text Regex Ast AstUtils Types.

(** The double quotation mark, for the messages that quote an expression. *)
Definition dq : string := String (ascii_of_nat 34) EmptyString.

Definition makeResult (spec : SpecAnnotation) (status : VerificationStatus)
    (message : string) (details : option string) : VerificationResult :=
  mkResult spec status message details (file spec) (line spec).

Definition countStatus (st : VerificationStatus) (results : list VerificationResult) : nat :=
  List.length (filter (fun r => status_eqb (status r) st) results).

(** The loop of [buildReport]: one counter is incremented per result. *)
Definition bump (summary : Summary) (r : VerificationResult) : Summary :=
  match status r with
  | VERIFIED =>
      mkSummary (S (verified summary)) (unverified summary) (violated summary)
        (missing summary) (total summary)
  | UNVERIFIED =>
      mkSummary (verified summary) (S (unverified summary)) (violated summary)
        (missing summary) (total summary)
  | VIOLATED =>
      mkSummary (verified summary) (unverified summary) (S (violated summary))
        (missing summary) (total summary)
  | MISSING =>
      mkSummary (verified summary) (unverified summary) (violated summary)
        (S (missing summary)) (total summary)
  end.

Definition buildReport (contract : ContractSpecs) (results : list VerificationResult)
    : VerificationReport :=
  let summary := fold_left bump results (mkSummary 0 0 0 0 (List.length results)) in
  mkReport (className contract) (contract_file contract) results summary.

(** [/^this\./] *)
Definition thisPrefixRe : regex := Seq Bol (lit "this.").
(** [/\.value$/] *)
Definition valueSuffixRe : regex := Seq (lit ".value") Eol.

(** The class of the punctuation that [extractKeyTerms] blanks out. *)
Definition isTermPunctuation (c : ascii) : bool :=
  Ascii.eqb c "!" || Ascii.eqb c "(" || Ascii.eqb c ")" ||
  Ascii.eqb c "=" || Ascii.eqb c "<" || Ascii.eqb c ">".

Definition extractKeyTerms (expr : string) : list string :=
  map (fun t => replaceFirst valueSuffixRe "" (replaceFirst thisPrefixRe "" t))
    (filter (fun t => 2 <? String.length t)
       (split (plus space) (replaceAll (Chr isTermPunctuation) " " expr))).

(** Single-line comments: two slashes up to the end of the line (flags [g]
    and [m]).  Multi-line comments: from the opening to the first closing
    delimiter (lazy, across lines; flag [g]). *)
Definition lineCommentRe : regex := seqs [lit "//"; Star dot; EolM].
Definition blockCommentRe : regex := seqs [lit "/*"; LazyStar anyChar; lit "*/"].

Definition stripComments (text : string) : string :=
  let result := replaceAll lineCommentRe "" text in
  replaceAll blockCommentRe "" result.

(** [/this\.(\w+)/g] *)
Definition thisFieldRe : regex := Seq (lit "this.") (Group 1 (plus word)).

Definition extractFieldRefsFromExpr (expr : string) : list string :=
  map (fun m => "this." ++ group 1 m) (execAll thisFieldRe expr).

(* ================================================================== *)
(** ** [src/verifier.ts]: the verifier of each kind of spec *)
(* ================================================================== *)

Definition verifyAccess (accessSpec : AccessSpec) (method : Node) : VerificationResult :=
  let bodyText := getMethodBodyText method in
  let level := toLowerCase (level accessSpec) in
  let name := access_methodName accessSpec in
  if String.eqb level "deployer-only" then
    let bodyNoComments := stripComments bodyText in
    let hasDeployerCheck :=
      includes bodyNoComments "onlyDeployer" || includes bodyNoComments "this.onlyDeployer" in
    if hasDeployerCheck then
      makeResult accessSpec VERIFIED ("Method " ++ name ++ "() has onlyDeployer check") None
    else
      let hasSenderCheck :=
        includes bodyNoComments "Blockchain.tx.sender" &&
        (includes bodyNoComments "deployer" || includes bodyNoComments "owner") in
      if hasSenderCheck then
        makeResult accessSpec VERIFIED
          ("Method " ++ name ++ "() has sender/deployer comparison") None
      else
        makeResult accessSpec VIOLATED
          ("Method " ++ name ++
           "() is specified as deployer-only but has no onlyDeployer() call")
          (Some "Add this.onlyDeployer(Blockchain.tx.sender) at the start of the method")
  else if String.eqb level "owner-only" then
    let bodyNoComments := stripComments bodyText in
    let hasOwnerCheck :=
      includes bodyNoComments "ensureOwner" || includes bodyNoComments "this.ensureOwner" ||
      includes bodyNoComments "onlyOwner" || includes bodyNoComments "this.onlyOwner" in
    if hasOwnerCheck then
      makeResult accessSpec VERIFIED ("Method " ++ name ++ "() has owner check") None
    else
      let hasManualOwnerCheck :=
        includes bodyNoComments "this.owner.value" &&
        includes bodyNoComments "Blockchain.tx.sender" in
      if hasManualOwnerCheck then
        makeResult accessSpec VERIFIED
          ("Method " ++ name ++ "() has manual owner comparison") None
      else
        makeResult accessSpec VIOLATED
          ("Method " ++ name ++ "() is specified as owner-only but has no owner check")
          (Some "Add this.ensureOwner() or owner comparison at the start of the method")
  else if String.eqb level "anyone" then
    let hasRestriction :=
      includes bodyText "onlyDeployer" || includes bodyText "ensureOwner" ||
      includes bodyText "onlyOwner" in
    if hasRestriction then
      makeResult accessSpec VIOLATED
        ("Method " ++ name ++
         "() is specified as @access anyone but has access restriction") None
    else
      makeResult accessSpec VERIFIED
        ("Method " ++ name ++ "() has no access restrictions (open to anyone)") None
  else
    makeResult accessSpec UNVERIFIED ("Unknown access level: " ++ level) None.

Definition guardHelpers : list string :=
  ["ensureActive"; "ensureOwner"; "requireActive"; "requireStatus";
   "onlyActive"; "onlyDeployer"].

(** [Math.ceil(n * 0.5)] *)
Definition ceilHalf (n : nat) : nat := (n + 1) / 2.

(** The test of the loop over the guards: the number of key terms of the
    expression that occur among the guard's terms. *)
Definition matchCount (keyTerms : list string) (guard : Guard) : nat :=
  let guardTerms := extractKeyTerms (guard_condition guard) in
  List.length (filter (fun t => arrayIncludes guardTerms t) keyTerms).

Definition guardMatches (keyTerms : list string) (guard : Guard) : bool :=
  (0 <? matchCount keyTerms guard) &&
  (ceilHalf (List.length keyTerms) <=? matchCount keyTerms guard).

(** The first guard helper found in the body, when the expression is about
    a status or a state. *)
Definition statusHelper (expr bodyText : string) : option string :=
  if includes expr "status" || includes expr "STATUS" || includes expr "state"
  then find (fun helper => includes bodyText helper) guardHelpers
  else None.

Definition verifyPrecondition (preSpec : PreconditionSpec) (method : Node)
    : VerificationResult :=
  let expr := trim (expression preSpec) in
  let bodyText := getMethodBodyText method in
  let guards := findGuardChecks method in
  if includes expr "ensureOwner" || includes expr "onlyDeployer" then
    if includes bodyText "ensureOwner" || includes bodyText "onlyDeployer"
    then makeResult preSpec VERIFIED ("Precondition guard found: " ++ expr) None
    else makeResult preSpec VIOLATED ("Missing guard for precondition: " ++ expr) None
  else if includes expr "ensureActive" then
    if includes bodyText "ensureActive"
    then makeResult preSpec VERIFIED ("Precondition guard found: " ++ expr) None
    else makeResult preSpec VIOLATED ("Missing guard for precondition: " ++ expr) None
  else
    match statusHelper expr bodyText with
    | Some helper =>
        makeResult preSpec UNVERIFIED
          ("Precondition " ++ dq ++ expr ++ dq ++ " may be enforced by " ++ helper ++
           "() call — needs deeper call-graph analysis") None
    | None =>
        let keyTerms := extractKeyTerms expr in
        match find (guardMatches keyTerms) guards with
        | Some guard =>
            makeResult preSpec VERIFIED
              ("Precondition " ++ dq ++ expr ++ dq ++ " matched by guard: " ++
               guard_condition guard) None
        | None =>
            let fieldRefs := extractFieldRefsFromExpr expr in
            let bodyHasFields := forallb (fun f => includes bodyText f) fieldRefs in
            let bodyHasRevert := includes bodyText "Revert" in
            if bodyHasFields && bodyHasRevert then
              makeResult preSpec UNVERIFIED
                ("Method references fields from precondition " ++ dq ++ expr ++ dq ++
                 " and has Revert, but exact guard match not confirmed") None
            else if bodyHasRevert then
              makeResult preSpec UNVERIFIED
                ("Method has Revert checks but couldn't match to precondition: " ++ expr)
                None
            else
              makeResult preSpec VIOLATED
                ("No guard check found for precondition: " ++ expr)
                (Some "Add an if-check that throws Revert when the precondition is violated")
        end
    end.

Definition verifyCEI (spec : PostconditionSpec) (method : Node) (storedFields : JsSet.t)
    : VerificationResult :=
  let externalCalls := findBlockchainCalls method in
  let stateWrites := findStateWrites method storedFields in
  let name := post_methodName spec in
  if List.length externalCalls =? 0 then
    makeResult spec VERIFIED
      (name ++ "() has no external calls — CEI trivially satisfied") None
  else if List.length stateWrites =? 0 then
    makeResult spec VERIFIED
      (name ++ "() has no state writes — CEI trivially satisfied") None
  else
      let violations :=
        flat_map
          (fun call =>
             flat_map
               (fun write =>
                  if call_pos call <? write_pos write
                  then ["State write '" ++ write_text write ++ "' after Blockchain.call()"]
                  else [])
               stateWrites)
          externalCalls in
      if 0 <? List.length violations then
        makeResult spec VIOLATED
          ("CEI violation in " ++ name ++ "(): " ++ join "; " violations)
          (Some "Move all state writes before external calls")
      else
        makeResult spec VERIFIED
          (name ++ "() follows CEI pattern — all state writes before external calls") None.

(** The fields of a postcondition that the body does not write, textually. *)
Definition unmodifiedFields (bodyText : string) (fields : list string) : list string :=
  filter
    (fun field =>
       negb (includes bodyText ("this." ++ field ++ ".value")) &&
       negb (includes bodyText ("this." ++ field ++ ".set")))
    fields.

Definition verifyPostcondition (postSpec : PostconditionSpec) (method : Node)
    (storedFields : JsSet.t) : VerificationResult :=
  if isCEI postSpec then verifyCEI postSpec method storedFields
  else
    let bodyText := getMethodBodyText method in
    let name := post_methodName postSpec in
    let unmodified :=
      if 0 <? List.length (post_fieldReferences postSpec)
      then unmodifiedFields bodyText (post_fieldReferences postSpec) else [] in
    if 0 <? List.length unmodified then
      makeResult postSpec UNVERIFIED
        ("Postcondition references fields [" ++ join ", " unmodified ++
         "] that are not modified in " ++ name ++ "()")
        (Some "Ensure the method modifies these fields or update the postcondition")
    else if includes (expression postSpec) "return" && negb (includes bodyText "return") then
      makeResult postSpec VIOLATED
        ("Postcondition references return value but method " ++ name ++
         "() has no return statement") None
    else if 0 <? List.length (oldReferences postSpec) then
      makeResult postSpec UNVERIFIED
        "Postcondition uses old() references — requires symbolic execution for full verification"
        (Some ("Fields referenced via old(): " ++ join ", " (oldReferences postSpec)))
    else if 0 <? List.length (post_fieldReferences postSpec) then
      makeResult postSpec UNVERIFIED
        ("Postcondition " ++ dq ++ expression postSpec ++ dq ++
         " — fields are modified but value correctness requires symbolic execution") None
    else
      makeResult postSpec UNVERIFIED
        ("Postcondition " ++ dq ++ expression postSpec ++ dq ++
         " — structural check passed but full verification requires symbolic execution")
        None.

(** The pattern that removes the argument list of a called method: an
    opening parenthesis, any characters on one line, a closing parenthesis,
    end of input. *)
Definition argumentListRe : regex := seqs [chr "("; Star dot; chr ")"; Eol].

Definition verifyCalls (callSpec : CallsSpec) (method : Node) : VerificationResult :=
  let bodyText := getMethodBodyText method in
  let externalCalls := findBlockchainCalls method in
  let name := calls_methodName callSpec in
  if List.length externalCalls =? 0 then
    makeResult callSpec VIOLATED
      (name ++ "() specifies @calls " ++ target callSpec ++ " but has no Blockchain.call()")
      None
  else
    let targetField :=
      replaceFirst valueSuffixRe "" (replaceFirst thisPrefixRe "" (target callSpec)) in
    let targetReferenced :=
      includes bodyText (target callSpec) || includes bodyText targetField in
    if negb targetReferenced then
      makeResult callSpec VIOLATED
        (name ++ "() specifies @calls to " ++ target callSpec ++
         " but doesn't reference that target") None
    else
      let calledMethodName := replaceFirst argumentListRe "" (calledMethod callSpec) in
      let selectorRef :=
        includes bodyText calledMethodName || includes bodyText "Selector" ||
        includes bodyText "encodeSelector" in
      if negb (isEmpty calledMethodName) && negb selectorRef then
        makeResult callSpec UNVERIFIED
          (name ++ "() calls " ++ target callSpec ++ " but couldn't verify method '" ++
           calledMethodName ++ "' is being called") None
      else
        let checksSuccess :=
          includes bodyText ".success" || includes bodyText "result.success" ||
          includes bodyText "Revert" in
        if String.eqb (expectation callSpec) "must-succeed" && negb checksSuccess then
          makeResult callSpec VIOLATED
            (name ++ "() specifies @calls -> must-succeed but doesn't check call result")
            (Some "Check result.success and throw Revert on failure")
        else
          makeResult callSpec VERIFIED
            (name ++ "() calls " ++ target callSpec ++ " with result checking") None.

(** [/^!/] *)
Definition negationRe : regex := Seq Bol (chr "!").

Definition verifyStateTransition (stateSpec : StateSpec) (method : Node)
    : VerificationResult :=
  let bodyText := getMethodBodyText method in
  let transition := transition stateSpec in
  let fromState := fromState transition in
  let toState := toState transition in
  let isNegatedFrom := startsWith fromState "!" in
  let cleanFromState := replaceFirst negationRe "" fromState in
  let isNegatedTo := startsWith toState "!" in
  let cleanToState := replaceFirst negationRe "" toState in
  let stateRelatedTerms :=
    [toLowerCase cleanFromState; toLowerCase cleanToState;
     "status"; "state"; "graduated"; "initialized"; "active"] in
  let bodyLower := toLowerCase bodyText in
  let hasStateRef := existsb (fun t => includes bodyLower t) stateRelatedTerms in
  if negb hasStateRef then
    makeResult stateSpec UNVERIFIED
      ("State transition " ++ fromState ++ " -> " ++ toState ++ " in " ++
       join ", " (transition_methods transition) ++
       "(): no state-related field references found") None
  else
    let hasGuard := includes bodyText "Revert" || includes bodyText "throw" in
    if negb hasGuard then
      makeResult stateSpec UNVERIFIED
        ("State transition " ++ fromState ++ " -> " ++ toState ++
         ": method has state references but no guard/revert for invalid states") None
    else
      let conditionMissing :=
        match condition transition with
        | Some cond =>
            if isEmpty cond then None
            else
              let conditionTerms := extractKeyTerms cond in
              if existsb (fun t => includes bodyLower (toLowerCase t)) conditionTerms
              then None else Some cond
        | None => None
        end in
      match conditionMissing with
      | Some cond =>
          makeResult stateSpec UNVERIFIED
            ("State transition condition " ++ dq ++ cond ++ dq ++
             " not found in method body") None
      | None =>
          if String.eqb cleanFromState cleanToState && Bool.eqb isNegatedFrom isNegatedTo then
            makeResult stateSpec UNVERIFIED
              ("Self-transition " ++ fromState ++ " -> " ++ toState ++
               ": method has state guards but self-transition verification requires deeper analysis")
              None
          else
            makeResult stateSpec UNVERIFIED
              ("State transition " ++ fromState ++ " -> " ++ toState ++
               ": structural checks pass but full state machine verification requires deeper analysis")
              None
      end.

(** Whether the body of a method mentions one of the fields, as a value
    access or as a setter call. *)
Definition touchesField (bodyText : string) (fields : list string) : bool :=
  existsb
    (fun field =>
       includes bodyText ("this." ++ field ++ ".value") ||
       includes bodyText ("this." ++ field ++ ".set"))
    fields.

(** The result of [verifyInvariant] for one modifying method.  The method is
    looked up again by name, as the source does; the names come from the
    keys of [allMethods], so the lookup succeeds. *)
Definition invariantResult (invariant : InvariantSpec) (allMethods : JsMap.t Node)
    (methodName : string) : list VerificationResult :=
  match JsMap.get methodName allMethods with
  | None => []
  | Some method =>
      let bodyText := getMethodBodyText method in
      let hasChecks := includes bodyText "Revert" || includes bodyText "throw" in
      if hasChecks then
        [makeResult invariant UNVERIFIED
           ("Invariant " ++ dq ++ expression invariant ++ dq ++ " — " ++ methodName ++
            "() modifies fields [" ++ join ", " (inv_fieldReferences invariant) ++
            "] and has guards, but full invariant maintenance requires symbolic execution")
           None]
      else
        [makeResult invariant UNVERIFIED
           ("Invariant " ++ dq ++ expression invariant ++ dq ++ " — " ++ methodName ++
            "() modifies fields [" ++ join ", " (inv_fieldReferences invariant) ++
            "] with NO guard checks")
           (Some ("Consider adding validation to maintain the invariant in " ++
                  methodName ++ "()"))]
  end.

Definition verifyInvariant (invariant : InvariantSpec) (classDecl : Node)
    (allMethods : JsMap.t Node) : list VerificationResult :=
  if List.length (inv_fieldReferences invariant) =? 0 then
    [makeResult invariant UNVERIFIED
       ("Invariant " ++ dq ++ expression invariant ++ dq ++
        " references no this.X.value fields — can't verify statically") None]
  else
    let modifyingMethods :=
      map fst
        (filter
           (fun entry =>
              touchesField (getMethodBodyText (snd entry)) (inv_fieldReferences invariant))
           allMethods) in
    if List.length modifyingMethods =? 0 then
      [makeResult invariant VERIFIED
         ("Invariant " ++ dq ++ expression invariant ++ dq ++
          " — no methods modify the referenced fields (trivially maintained)") None]
    else
      flat_map (invariantResult invariant allMethods) modifyingMethods.

(** The patterns of [verifyOpnetConstraint]: a hard-coded selector (the word
    Selector, an equals sign, then a hexadecimal literal or a decimal
    number); a call of Address.fromString with its argument text as group 1
    (any run without a closing parenthesis; flag [g]); a call of a method
    named approve. *)
Definition hardcodedSelectorRe : regex :=
  seqs [lit "Selector"; Star space; chr "="; Star space;
        Alt (Seq (lit "0x") (plus (Chr isHexDigit))) (plus (Chr isDigit))].

Definition fromStringRe : regex :=
  seqs [lit "Address.fromString"; Star space; chr "(";
        Group 1 (Star (notChr ")")); chr ")"].

Definition approveRe : regex := seqs [lit ".approve"; Star space; chr "("].

Definition verifyOpnetConstraint (spec : OpnetSpec) (classDecl : Node) : VerificationResult :=
  let classText := getText classDecl in
  if String.eqb (constraint spec) "selectors-sha256" then
    let hasEncodeSelector := includes classText "encodeSelector" in
    let hasHardcodedSelector := test hardcodedSelectorRe classText in
    if hasHardcodedSelector && negb hasEncodeSelector then
      makeResult spec VIOLATED
        "Contract uses hardcoded selectors instead of encodeSelector() (SHA256)"
        (Some ("Replace hardcoded selectors with encodeSelector(" ++ dq ++ "methodName" ++
               dq ++ ")"))
    else if hasEncodeSelector then
      makeResult spec VERIFIED "Contract uses encodeSelector() for SHA256-based selectors"
        None
    else
      makeResult spec UNVERIFIED "Could not determine selector encoding method" None
  else if String.eqb (constraint spec) "address-two-params" then
    let violations :=
      flat_map
        (fun m =>
           let args := splitChar "," (group 1 m) in
           if List.length args <? 2 then [matched m] else [])
        (execAll fromStringRe classText) in
    if 0 <? List.length violations then
      makeResult spec VIOLATED
        ("Address.fromString() called with single parameter: " ++ join ", " violations)
        (Some "Use Address.fromString(str, network) with two parameters")
    else if includes classText "Address.fromString" then
      makeResult spec VERIFIED "All Address.fromString() calls use two parameters" None
    else
      makeResult spec VERIFIED
        "No Address.fromString() calls found (constraint trivially satisfied)" None
  else if String.eqb (constraint spec) "no-approve" then
    let hasApprove := test approveRe classText in
    if hasApprove then
      makeResult spec VIOLATED
        "Contract uses .approve() — should use increaseAllowance() instead"
        (Some "Replace .approve() calls with .increaseAllowance()")
    else
      makeResult spec VERIFIED "Contract does not use .approve()" None
  else if String.eqb (constraint spec) "csv-timelocks" then
    makeResult spec UNVERIFIED
      "CSV timelock verification requires Bitcoin script analysis — not available in static checker"
      None
  else
    makeResult spec UNVERIFIED ("Unknown @opnet constraint: " ++ constraint spec) None.

(* ================================================================== *)
(** ** [src/verifier.ts]: the verification engine *)
(* ================================================================== *)

(** The method map of [verifyContract]: a later method of the same name
    replaces the earlier one. *)
Definition buildMethodMap (classDecl : Node) : JsMap.t Node :=
  fold_left (fun allMethods method => JsMap.set (getMethodName method) method allMethods)
    (getClassMethods classDecl) JsMap.empty.

(** The branch of a method that the class does not declare. *)
Definition missingMethodResults (contract : ContractSpecs) (methodName : string)
    (methodSpecs : MethodSpecs) : list VerificationResult :=
  let msg := "Method " ++ methodName ++ "() not found in class " ++ className contract in
  match access methodSpecs with
  | Some acc => [makeResult acc MISSING msg None]
  | None => []
  end ++
  map (fun pre : PreconditionSpec => makeResult pre MISSING msg None)
    (preconditions methodSpecs) ++
  map (fun post : PostconditionSpec => makeResult post MISSING msg None)
    (postconditions methodSpecs) ++
  map (fun call : CallsSpec => makeResult call MISSING msg None) (calls methodSpecs).

(** The body of the loop over [contract.methods]. *)
Definition verifyMethodSpecs (contract : ContractSpecs) (allMethods : JsMap.t Node)
    (storedFieldNames : JsSet.t) (entry : string * MethodSpecs) : list VerificationResult :=
  let methodName := fst entry in
  let methodSpecs := snd entry in
  match JsMap.get methodName allMethods with
  | None => missingMethodResults contract methodName methodSpecs
  | Some method =>
      match access methodSpecs with
      | Some acc => [verifyAccess acc method]
      | None => []
      end ++
      map (fun pre => verifyPrecondition pre method) (preconditions methodSpecs) ++
      map (fun post => verifyPostcondition post method storedFieldNames)
        (postconditions methodSpecs) ++
      map (fun call => verifyCalls call method) (calls methodSpecs) ++
      map (fun st => verifyStateTransition st method) (stateTransitions methodSpecs) ++
      map (fun temp : TemporalSpec =>
             makeResult temp UNVERIFIED
               ("Temporal property " ++ dq ++ temporal_condition temp ++ dq ++
                " requires runtime monitoring — not verifiable statically in V1") None)
        (temporal methodSpecs)
  end.

(** The body of the loop over [contract.stateTransitions]: a transition
    whose spec object already has a result is skipped ([r.spec === st]). *)
Definition verifyContractTransition (allMethods : JsMap.t Node)
    (results : list VerificationResult) (st : StateSpec) : list VerificationResult :=
  let alreadyVerified := existsb (fun r => oid (spec r) =? oid st) results in
  if alreadyVerified then results
  else
    results ++
    map (fun methodName =>
           match JsMap.get methodName allMethods with
           | Some method => verifyStateTransition st method
           | None =>
               makeResult st MISSING
                 ("State transition method " ++ methodName ++ "() not found") None
           end)
      (transition_methods (transition st)).

Definition verifyContract (contract : ContractSpecs) (sourceFile : SourceFile)
    : VerificationReport :=
  let classes := findClassDeclarations sourceFile in
  match find (fun c => String.eqb (getClassName c) (className contract)) classes with
  | None =>
      buildReport contract
        (map (fun inv : InvariantSpec =>
                makeResult inv MISSING
                  ("Class " ++ className contract ++ " not found in source") None)
           (invariants contract))
  | Some classDecl =>
      let allMethods := buildMethodMap classDecl in
      let storedFields := detectStoredFields classDecl in
      let storedFieldNames := JsMap.keys storedFields in
      let results :=
        (flat_map (fun invariant => verifyInvariant invariant classDecl allMethods)
           (invariants contract) ++
         map (fun opnet => verifyOpnetConstraint opnet classDecl) (opnetConstraints contract) ++
         flat_map (verifyMethodSpecs contract allMethods storedFieldNames)
           (methods contract))%list in
      buildReport contract
        (fold_left (verifyContractTransition allMethods) (contract_stateTransitions contract)
           results)
  end.

End Verifier.

(* ================================================================== *)
(** ** [dist/reporter.js]: the object that [formatReportsJson] serialises *)
(* ================================================================== *)

Module Reporter.
Import Types.

Record JsonResult : Type := mkJsonResult {
  json_tag : SpecTag;
  json_expression : string;
  json_status : VerificationStatus;
  json_message : string;
  json_details : option string;
  json_file : string;
  json_line : nat
}.

Record JsonReport : Type := mkJsonReport {
  json_contractName : string;
  json_report_file : string;
  json_results : list JsonResult;
  json_summary : Summary
}.

Definition jsonResult (res : VerificationResult) : JsonResult :=
  mkJsonResult (tag (spec res)) (expression (spec res)) (status res) (message res)
    (details res) (result_file res) (result_line res).

Definition jsonReport (r : VerificationReport) : JsonReport :=
  mkJsonReport (contractName r) (report_file r) (map jsonResult (results r)) (summary r).

End Reporter.

(* ================================================================== *)
(** ** A sample contract

    The syntax tree of

    class Vault { private balance: StoredU256;
      public withdraw(amount: u256): void {
        if (amount == 0) { throw new Revert('zero'); }
        Blockchain.call(this.token.value, data); this.balance.value = amount; }
      public deposit(amount: u256): void {
        this.balance.value = amount; Blockchain.call(this.token.value, data); }
      public mint(to: Address): void {
        this.onlyDeployer(Blockchain.tx.sender); this.balance.value = u256.One; } }

    written on one line; the offsets are those of that line. *)
(* ================================================================== *)

Module Sample.
Import Ast Types.

Definition leaf (pos : nat) (text : string) : Node := OtherNode pos text [].

Definition callStmt (pos : nat) : Node :=
  ExpressionStatement pos "Blockchain.call(this.token.value, data);"
    (CallExpression pos "Blockchain.call(this.token.value, data)"
       (leaf pos "Blockchain.call")
       [leaf (pos + 16) "this.token.value"; leaf (pos + 34) "data"]).

Definition writeStmt (pos : nat) (rhs : string) : Node :=
  ExpressionStatement pos ("this.balance.value = " ++ rhs ++ ";")
    (BinaryExpression pos ("this.balance.value = " ++ rhs)
       (leaf pos "this.balance.value") EqualsToken (leaf (pos + 21) rhs)).

Definition guardStmt : Node :=
  IfStatement 81 "if (amount == 0) { throw new Revert('zero'); }"
    (BinaryExpression 85 "amount == 0" (leaf 85 "amount") OtherToken (leaf 95 "0"))
    (Block 98 "{ throw new Revert('zero'); }" [leaf 100 "throw new Revert('zero');"])
    None.

Definition withdrawBody : Node :=
  Block 79
    "{ if (amount == 0) { throw new Revert('zero'); } Blockchain.call(this.token.value, data); this.balance.value = amount; }"
    [guardStmt; callStmt 128; writeStmt 169 "amount"].

Definition withdraw : Node :=
  MethodDeclaration 43
    "public withdraw(amount: u256): void { if (amount == 0) { throw new Revert('zero'); } Blockchain.call(this.token.value, data); this.balance.value = amount; }"
    "withdraw" [leaf 43 "public"; leaf 50 "withdraw"; leaf 59 "amount: u256"; leaf 74 "void"]
    (Some withdrawBody).

Definition depositBody : Node :=
  Block 235
    "{ this.balance.value = amount; Blockchain.call(this.token.value, data); }"
    [writeStmt 237 "amount"; callStmt 266].

Definition deposit : Node :=
  MethodDeclaration 200
    "public deposit(amount: u256): void { this.balance.value = amount; Blockchain.call(this.token.value, data); }"
    "deposit" [leaf 200 "public"; leaf 207 "deposit"; leaf 215 "amount: u256"; leaf 230 "void"]
    (Some depositBody).

Definition onlyDeployerStmt : Node :=
  ExpressionStatement 342 "this.onlyDeployer(Blockchain.tx.sender);"
    (CallExpression 342 "this.onlyDeployer(Blockchain.tx.sender)"
       (leaf 342 "this.onlyDeployer") [leaf 360 "Blockchain.tx.sender"]).

Definition mintBody : Node :=
  Block 340 "{ this.onlyDeployer(Blockchain.tx.sender); this.balance.value = u256.One; }"
    [onlyDeployerStmt; writeStmt 383 "u256.One"].

Definition mint : Node :=
  MethodDeclaration 309
    "public mint(to: Address): void { this.onlyDeployer(Blockchain.tx.sender); this.balance.value = u256.One; }"
    "mint" [leaf 309 "public"; leaf 316 "mint"; leaf 321 "to: Address"; leaf 334 "void"]
    (Some mintBody).

Definition balanceField : Node :=
  PropertyDeclaration 14 "private balance: StoredU256;" "balance"
    [leaf 14 "private"; leaf 22 "balance"] (Some (leaf 31 "StoredU256")) None.

Definition vaultClass : Node :=
  ClassDeclaration 0
    "class Vault { private balance: StoredU256; public withdraw(amount: u256): void { if (amount == 0) { throw new Revert('zero'); } Blockchain.call(this.token.value, data); this.balance.value = amount; } public deposit(amount: u256): void { this.balance.value = amount; Blockchain.call(this.token.value, data); } public mint(to: Address): void { this.onlyDeployer(Blockchain.tx.sender); this.balance.value = u256.One; } }"
    (Some "Vault") [leaf 6 "Vault"] [balanceField; withdraw; deposit; mint].

Definition sourceFile : SourceFile := OtherNode 0 (getText vaultClass) [vaultClass].

Definition ann (oid : nat) (tag : SpecTag) (expression : string) (line : nat)
    : SpecAnnotation :=
  mkAnnotation oid tag expression None "vault.ts" line 5.

Definition ceiSpec (method : string) (oid : nat) : PostconditionSpec :=
  mkPostcondition (ann oid Ensures "CEI" 3) method true [] [].

Definition amountPositive : PreconditionSpec :=
  mkPrecondition (ann 1 Pre "amount > 0" 2) "withdraw".

Definition deployerOnly (method : string) : AccessSpec :=
  mkAccess (ann 2 Access "deployer-only" 1) "deployer-only" method.

Definition balanceUpdated : PostconditionSpec :=
  mkPostcondition (ann 6 Post "this.balance.value == old(this.balance.value) + amount" 4)
    "deposit" false ["this.balance.value"] ["balance"].

Definition ceiMarker : SpecAnnotation := ann 7 Ensures " cei " 3.

Definition returnsOldBalance : PostconditionSpec :=
  mkPostcondition (ann 9 Post "return == old(this.balance.value)" 4)
    "deposit" false ["this.balance.value"] ["balance"].

Definition balanceInvariant : InvariantSpec :=
  mkInvariant (ann 4 Invariant "this.balance.value >= 0" 1) ["balance"].

Definition plainInvariant : InvariantSpec :=
  mkInvariant (ann 8 Invariant "totalSupply <= maxSupply" 1) [].

Definition noApprove : OpnetSpec := mkOpnet (ann 5 Opnet "no-approve" 1) "no-approve".

Definition withdrawSpecs : MethodSpecs :=
  mkMethodSpecs "withdraw" [amountPositive] [ceiSpec "withdraw" 3]
    (Some (deployerOnly "withdraw")) [] [] [].

(** Specs for a class named Bank, which the sample file does not declare. *)
Definition bankContract : ContractSpecs :=
  mkContract "Bank" "vault.ts" [balanceInvariant] [] [noApprove]
    [("withdraw", withdrawSpecs)].

Definition vaultContract : ContractSpecs :=
  mkContract "Vault" "vault.ts" [balanceInvariant] [] [noApprove]
    [("withdraw", withdrawSpecs)].

End Sample.

(* ================================================================== *)
(** ** More samples

    The annotated file

    /// @invariant this.total.value >= 0
    /// @opnet no-approve
    /// @state OPEN -> CLOSED : shutdown()
    class Pool {
      private total: StoredU256;
      /// @access deployer-only
      /// @state OPEN -> CLOSED : close()
      close(): void { this.onlyDeployer(Blockchain.tx.sender); this.total.value = u256.Zero; }
    }

    with its comment blocks, and a few more specs on the Vault sample. *)
(* ================================================================== *)

Module Annotated.
Import Text Ast Types.

Definition nl : string := String "010" EmptyString.

Definition classComments : string :=
  "/// @invariant this.total.value >= 0" ++ nl ++ "/// @opnet no-approve" ++ nl ++
  "/// @state OPEN -> CLOSED : shutdown()" ++ nl.

Definition methodComments : string :=
  nl ++ "  /// @access deployer-only" ++ nl ++ "  /// @state OPEN -> CLOSED : close()" ++ nl ++
  "  ".

Definition closeBodyText : string :=
  "{ this.onlyDeployer(Blockchain.tx.sender); this.total.value = u256.Zero; }".

Definition closeText : string := "close(): void " ++ closeBodyText.

Definition classText : string :=
  "class Pool {" ++ nl ++ "  private total: StoredU256;" ++ methodComments ++ closeText ++ nl ++
  "}".

Definition sourceText : string := classComments ++ classText ++ nl.

Definition closeBody : Node :=
  Block 222 closeBodyText
    [ExpressionStatement 224 "this.onlyDeployer(Blockchain.tx.sender);"
       (CallExpression 224 "this.onlyDeployer(Blockchain.tx.sender)"
          (OtherNode 224 "this.onlyDeployer" []) [OtherNode 242 "Blockchain.tx.sender" []]);
     ExpressionStatement 265 "this.total.value = u256.Zero;"
       (BinaryExpression 265 "this.total.value = u256.Zero"
          (OtherNode 265 "this.total.value" []) EqualsToken (OtherNode 284 "u256.Zero" []))].

Definition close : Node :=
  MethodDeclaration 208 closeText "close"
    [OtherNode 208 "close" []; OtherNode 217 "void" []] (Some closeBody).

Definition totalField : Node :=
  PropertyDeclaration 113 "private total: StoredU256;" "total"
    [OtherNode 113 "private" []; OtherNode 121 "total" []]
    (Some (OtherNode 128 "StoredU256" [])) None.

Definition poolClass : Node :=
  ClassDeclaration 98 classText (Some "Pool") [OtherNode 104 "Pool" []] [totalField; close].

Definition sourceFile : SourceFile := OtherNode 98 classText [poolClass].

(** Where the comment block of a node starts, and its text. *)
Definition getFullStart (n : Node) : nat :=
  match n with
  | ClassDeclaration _ _ _ _ _ => 0
  | PropertyDeclaration _ _ _ _ _ _ => 110
  | MethodDeclaration _ _ _ _ _ => 139
  | _ => getStart n
  end.

Definition leadingTrivia (n : Node) : string :=
  match n with
  | ClassDeclaration _ _ _ _ _ => classComments
  | PropertyDeclaration _ _ _ _ _ _ => nl ++ "  "
  | MethodDeclaration _ _ _ _ _ => methodComments
  | _ => EmptyString
  end.

(** The line and the column, counted from zero, of an offset of a text. *)
Fixpoint lineAndCharacterIn (text : string) (pos line character : nat) : nat * nat :=
  match pos, text with
  | S pos', String c text' =>
      if Ascii.eqb c "010" then lineAndCharacterIn text' pos' (S line) 0
      else lineAndCharacterIn text' pos' line (S character)
  | _, _ => (line, character)
  end.

Definition getLineAndCharacterOfPosition (pos : nat) : nat * nat :=
  lineAndCharacterIn sourceText pos 0 0.

(** The contract record that the file above stands for; the identities 0
    to 4 are those of its five annotations, in the order of the text. *)
Definition poolAnn (oid : nat) (tag : SpecTag) (expression : string) (line : nat)
    : SpecAnnotation :=
  mkAnnotation oid tag expression None "pool.ts" line 1.

Definition shutdownTransition : StateSpec :=
  mkStateSpec (poolAnn 2 State "OPEN -> CLOSED : shutdown()" 3)
    (mkTransition "OPEN" "CLOSED" ["shutdown"] None).

Definition closeTransition : StateSpec :=
  mkStateSpec (poolAnn 4 State "OPEN -> CLOSED : close()" 7)
    (mkTransition "OPEN" "CLOSED" ["close"] None).

Definition closeSpecs : MethodSpecs :=
  mkMethodSpecs "close" [] []
    (Some (mkAccess (poolAnn 3 Access "deployer-only" 6) "deployer-only" "close")) []
    [closeTransition] [].

Definition poolContract : ContractSpecs :=
  mkContract "Pool" "pool.ts"
    [mkInvariant (poolAnn 0 Invariant "this.total.value >= 0" 1) ["total"]]
    [shutdownTransition; closeTransition]
    [mkOpnet (poolAnn 1 Opnet "no-approve" 2) "no-approve"]
    [("close", closeSpecs)].

End Annotated.

Module MoreSamples.
Import Ast Types Sample.


Definition anyone (method : string) : AccessSpec :=
  mkAccess (ann 11 Access "anyone" 1) "anyone" method.

(** An abstract method: abstract settle(): void; *)
Definition settle : Node :=
  MethodDeclaration 500 "abstract settle(): void;" "settle"
    [leaf 500 "abstract"; leaf 509 "settle"; leaf 519 "void"] None.

(** A class without any stored field, around the withdraw method. *)
Definition relayClass : Node :=
  ClassDeclaration 0 ("class Relay { " ++ getText withdraw ++ " }") (Some "Relay")
    [leaf 6 "Relay"] [withdraw].





(** A postcondition on a field that the deposit method does not mention. *)
Definition supplyUpdated : PostconditionSpec :=
  mkPostcondition (ann 16 Post "this.supply.value == amount" 4) "deposit" false [] ["supply"].

(** The source files of the samples, by name. *)
Definition load (fileName : string) : option SourceFile :=
  if String.eqb fileName "vault.ts" then Some sourceFile
  else if String.eqb fileName "pool.ts" then Some Annotated.sourceFile
  else None.

Definition transferCall : CallsSpec :=
  mkCalls (ann 12 Calls "this.token.value : transfer(to, amount) -> must-succeed" 2)
    "this.token.value" "transfer(to, amount)" "must-succeed" "deposit".

Definition malformedCall : SpecAnnotation := ann 13 Calls "this.token.value transfer" 2.

(** Specs for a method named burn, which the Vault class does not declare. *)
Definition burnSpecs : MethodSpecs :=
  mkMethodSpecs "burn" [amountPositive] [ceiSpec "burn" 14] None []
    [mkStateSpec (ann 15 State "ACTIVE -> ACTIVE : burn()" 3)
       (mkTransition "ACTIVE" "ACTIVE" ["burn"] None)]
    [].

End MoreSamples.

(* ================================================================== *)
(** ** The specification's vocabulary *)
(* ================================================================== *)

Module SpecWords.
Import Text Types.

(** The number of method-level specs of one method bundle. *)
Definition methodSpecCount (m : MethodSpecs) : nat :=
  match access m with Some _ => 1 | None => 0 end +
  List.length (preconditions m) + List.length (postconditions m) +
  List.length (calls m) + List.length (stateTransitions m) + List.length (temporal m).

(** The total spec count of a contract record, as the specification counts
    it: the invariants, the domain constraints and every method-level spec. *)
Definition totalSpecCount (c : ContractSpecs) : nat :=
  List.length (invariants c) + List.length (opnetConstraints c) +
  list_sum (map (fun entry => methodSpecCount (snd entry)) (methods c)).

(** The specific checks of the precondition verifier: the expression names
    one of the guard helpers that are looked up in the body. *)
Definition namesGuardHelper (expr : string) : bool :=
  includes expr "ensureOwner" || includes expr "onlyDeployer" ||
  includes expr "ensureActive".

End SpecWords.

(* ================================================================== *)
(** ** Re-identification of spec objects

    The same spec tree, with the identity of every spec object replaced
    through [rho]: what a second parse of the same file yields when the
    objects are allocated afresh. *)
(* ================================================================== *)

Module Identity.
Import Types.
Section Rename.
Variable rho : nat -> nat.

Definition annotation (a : SpecAnnotation) : SpecAnnotation :=
  mkAnnotation (rho (oid a)) (tag a) (expression a) (comment a) (file a) (line a) (column a).

Definition invariant (i : InvariantSpec) : InvariantSpec :=
  mkInvariant (annotation i) (inv_fieldReferences i).

Definition precondition (p : PreconditionSpec) : PreconditionSpec :=
  mkPrecondition (annotation p) (pre_methodName p).

Definition postcondition (p : PostconditionSpec) : PostconditionSpec :=
  mkPostcondition (annotation p) (post_methodName p) (isCEI p) (oldReferences p)
    (post_fieldReferences p).

Definition stateSpec (s : StateSpec) : StateSpec :=
  mkStateSpec (annotation s) (transition s).

Definition accessSpec (a : AccessSpec) : AccessSpec :=
  mkAccess (annotation a) (level a) (access_methodName a).

Definition callsSpec (c : CallsSpec) : CallsSpec :=
  mkCalls (annotation c) (target c) (calledMethod c) (expectation c) (calls_methodName c).

Definition temporalSpec (t : TemporalSpec) : TemporalSpec :=
  mkTemporal (annotation t) (subject t) (temporal_condition t).

Definition opnetSpec (o : OpnetSpec) : OpnetSpec :=
  mkOpnet (annotation o) (constraint o).

Definition methodSpecs (m : MethodSpecs) : MethodSpecs :=
  mkMethodSpecs (methodName m) (map precondition (preconditions m))
    (map postcondition (postconditions m)) (option_map accessSpec (access m))
    (map callsSpec (calls m)) (map stateSpec (stateTransitions m))
    (map temporalSpec (temporal m)).

Definition contract (c : ContractSpecs) : ContractSpecs :=
  mkContract (className c) (contract_file c) (map invariant (invariants c))
    (map stateSpec (contract_stateTransitions c)) (map opnetSpec (opnetConstraints c))
    (map (fun entry => (fst entry, methodSpecs (snd entry))) (methods c)).

Definition result (r : VerificationResult) : VerificationResult :=
  mkResult (annotation (spec r)) (status r) (message r) (details r) (result_file r)
    (result_line r).

Definition report (r : VerificationReport) : VerificationReport :=
  mkReport (contractName r) (report_file r) (map result (results r)) (summary r).

End Rename.
End Identity.

(* ================================================================== *)
(** ** [src/spec-parser.ts]: from comment lines to the spec tree

    The comment block in front of a node is not part of [Node]; the tree
    provider's [getFullStart], the text between it and [getStart], and
    [getLineAndCharacterOfPosition] are variables of the section.  Every
    annotation object that is created gets the next free identity, which
    is threaded through the builders. *)
(* ================================================================== *)

Module TreeBuilder.
Import Text Regex Ast AstUtils Types SpecParser.

(** [ANNOTATION_RE]: three slashes, or a star, then an at sign with the tag
    (a word; group 1 or 4), white space, the expression (lazy; group 2 or
    5), optionally two slashes with a comment (group 3 or 6), and the end
    of the line; white space is optional in between. *)
Definition ANNOTATION_RE : regex :=
  Alt
    (seqs [lit "///"; Star space; chr "@"; Group 1 (plus word); plus space;
           Group 2 (LazyStar dot);
           Alt (seqs [Star space; lit "//"; Star space; Group 3 (Star dot)]) Eps;
           Star space; Eol])
    (seqs [chr "*"; Star space; chr "@"; Group 4 (plus word); plus space;
           Group 5 (LazyStar dot);
           Alt (seqs [Star space; lit "//"; Star space; Group 6 (Star dot)]) Eps;
           Star space; Eol]).

(** [SPEC_TAGS.has(tag)], with the tag it stands for. *)
Definition specTagOf (tag : string) : option SpecTag :=
  if String.eqb tag "invariant" then Some Invariant
  else if String.eqb tag "pre" then Some Pre
  else if String.eqb tag "requires" then Some Requires
  else if String.eqb tag "post" then Some Post
  else if String.eqb tag "ensures" then Some Ensures
  else if String.eqb tag "state" then Some State
  else if String.eqb tag "access" then Some Access
  else if String.eqb tag "calls" then Some Calls
  else if String.eqb tag "temporal" then Some Temporal
  else if String.eqb tag "opnet" then Some Opnet
  else None.

(** [a || b] on two groups of a match: [a] when it took part in the match
    and is not empty, else [b] as it is. *)
Definition orElse (a b : option string) : option string :=
  match a with
  | Some v => if isEmpty v then b else Some v
  | None => b
  end.

(** What one physical line of the comment block yields: the tag, the
    trimmed expression and the trimmed comment. *)
Definition parseLine (rawLine : string) : option (SpecTag * string * option string) :=
  let trimmed := trim rawLine in
  if startsWith trimmed "///" || startsWith trimmed "*" || startsWith trimmed "/**" then
    match exec ANNOTATION_RE trimmed with
    | Some m =>
        let tag := orElse (capture 1 (groups m)) (capture 4 (groups m)) in
        let expression :=
          trim (match orElse (orElse (capture 2 (groups m)) (capture 5 (groups m)))
                        (Some EmptyString) with
                | Some v => v
                | None => EmptyString
                end) in
        let comment := orElse (capture 3 (groups m)) (capture 6 (groups m)) in
        match tag with
        | Some t =>
            match specTagOf t with
            | Some specTag => Some (specTag, expression, option_map trim comment)
            | None => None
            end
        | None => None
        end
    | None => None
    end
  else None.

Record SpecTree : Type := mkSpecTree {
  contracts : list ContractSpecs;
  unassociated : list SpecAnnotation
}.

Section WithTrivia.
Variable getFullStart : Node -> nat.
Variable leadingTrivia : Node -> string.
Variable getLineAndCharacterOfPosition : nat -> nat * nat.

(** The state of the loop over the lines: the offset of the current line,
    the next free identity and the annotations found so far. *)
Definition scanLine (fileName : string) (state : nat * nat * list SpecAnnotation)
    (rawLine : string) : nat * nat * list SpecAnnotation :=
  let currentLineOffset := fst (fst state) in
  let next := snd (fst state) in
  let annotations := snd state in
  let lineLen := String.length rawLine + 1 in
  match parseLine rawLine with
  | Some (tag, expression, comment) =>
      let lineAndCharacter := getLineAndCharacterOfPosition currentLineOffset in
      (currentLineOffset + lineLen, S next,
       (annotations ++
        [mkAnnotation next tag expression comment fileName (fst lineAndCharacter + 1)
           (snd lineAndCharacter + 1)])%list)
  | None => (currentLineOffset + lineLen, next, annotations)
  end.

Definition parseAnnotationsFromNode (node : Node) (fileName : string) (next : nat)
    : list SpecAnnotation * nat :=
  let lines := splitChar "010" (leadingTrivia node) in
  let final := fold_left (scanLine fileName) lines (getFullStart node, next, []) in
  (snd final, snd (fst final)).

(** The [switch] on the tag of a class-level annotation. *)
Definition addClassAnnotation (contract : ContractSpecs) (ann : SpecAnnotation)
    : ContractSpecs :=
  match tag ann with
  | Invariant =>
      mkContract (className contract) (contract_file contract)
        (invariants contract ++
         [mkInvariant (withTag ann Invariant) (extractFieldReferences (expression ann))])
        (contract_stateTransitions contract) (opnetConstraints contract) (methods contract)
  | State =>
      mkContract (className contract) (contract_file contract) (invariants contract)
        (contract_stateTransitions contract ++
         [mkStateSpec (withTag ann State) (parseStateTransition (expression ann))])
        (opnetConstraints contract) (methods contract)
  | Opnet =>
      mkContract (className contract) (contract_file contract) (invariants contract)
        (contract_stateTransitions contract)
        (opnetConstraints contract ++ [mkOpnet (withTag ann Opnet) (trim (expression ann))])
        (methods contract)
  | _ => contract
  end.

(** The body of the loop over the members of the class: a method with at
    least one annotation gets a bundle, and its state transitions are
    promoted to the contract. *)
Definition addMember (fileName : string) (state : ContractSpecs * nat) (member : Node)
    : ContractSpecs * nat :=
  match member with
  | MethodDeclaration _ _ methodName _ _ =>
      let contract := fst state in
      let parsed := parseAnnotationsFromNode member fileName (snd state) in
      let methodAnns := fst parsed in
      if 0 <? List.length methodAnns then
        let methodSpecs := buildMethodSpecs methodName methodAnns in
        (mkContract (className contract) (contract_file contract) (invariants contract)
           (contract_stateTransitions contract ++ stateTransitions methodSpecs)
           (opnetConstraints contract)
           (JsMap.set methodName methodSpecs (methods contract)),
         snd parsed)
      else (contract, snd parsed)
  | _ => state
  end.

Definition parseClassSpecs (classDecl : Node) (fileName : string) (next : nat)
    : option ContractSpecs * nat :=
  let className := getClassName classDecl in
  let contract := mkContract className fileName [] [] [] JsMap.empty in
  let parsed := parseAnnotationsFromNode classDecl fileName next in
  let contract := fold_left addClassAnnotation (fst parsed) contract in
  let final := fold_left (addMember fileName) (members classDecl) (contract, snd parsed) in
  let contract := fst final in
  let hasSpecs :=
    (0 <? List.length (invariants contract)) ||
    (0 <? List.length (contract_stateTransitions contract)) ||
    (0 <? List.length (opnetConstraints contract)) ||
    (0 <? List.length (methods contract)) in
  (if hasSpecs then Some contract else None, snd final).

(** The body of the loop over the statements of the file. *)
Definition addStatement (fileName : string) (state : list ContractSpecs * nat) (stmt : Node)
    : list ContractSpecs * nat :=
  if isClassDeclaration stmt then
    let parsed := parseClassSpecs stmt fileName (snd state) in
    match fst parsed with
    | Some contractSpecs => ((fst state ++ [contractSpecs])%list, snd parsed)
    | None => (fst state, snd parsed)
    end
  else state.

(** The body of the loop over the annotations in front of the first
    statement: an opnet or invariant annotation goes to the first contract
    of the tree, or to [unassociated] when the tree has no contract. *)
Definition attachFileLevel (tree : SpecTree) (ann : SpecAnnotation) : SpecTree :=
  match tag ann with
  | Opnet =>
      match contracts tree with
      | first :: rest =>
          mkSpecTree
            (mkContract (className first) (contract_file first) (invariants first)
               (contract_stateTransitions first)
               (opnetConstraints first ++
                [mkOpnet (withTag ann Opnet) (trim (expression ann))])
               (methods first) :: rest)
            (unassociated tree)
      | [] => mkSpecTree (contracts tree) (unassociated tree ++ [ann])
      end
  | Invariant =>
      match contracts tree with
      | first :: rest =>
          mkSpecTree
            (mkContract (className first) (contract_file first)
               (invariants first ++
                [mkInvariant (withTag ann Invariant)
                   (extractFieldReferences (expression ann))])
               (contract_stateTransitions first) (opnetConstraints first)
               (methods first) :: rest)
            (unassociated tree)
      | [] => mkSpecTree (contracts tree) (unassociated tree ++ [ann])
      end
  | _ => tree
  end.

(** [parseSource], from the statements of the source file that the
    TypeScript parser builds. *)
Definition parseSource (statements : list Node) (fileName : string) (next : nat)
    : SpecTree * nat :=
  let parsed := fold_left (addStatement fileName) statements ([], next) in
  let tree := mkSpecTree (fst parsed) [] in
  match statements with
  | [] => (tree, snd parsed)
  | first :: _ =>
      let preClass := parseAnnotationsFromNode first fileName (snd parsed) in
      (fold_left attachFileLevel (fst preClass) tree, snd preClass)
  end.

End WithTrivia.
End TreeBuilder.

(* ================================================================== *)
(** ** [src/coverage.ts] *)
(* ================================================================== *)

Module Coverage.
Import Text Ast AstUtils Types.

Record MethodCoverage : Type := mkMethodCoverage {
  name : string;
  hasPreConditions : bool;
  hasPostConditions : bool;
  hasAccessSpec : bool;
  hasCallsSpec : bool;
  hasCEI : bool
}.

Record CoverageInfo : Type := mkCoverage {
  coverage_file : string;
  coverage_contractName : string;
  totalMethods : nat;
  specifiedMethods : nat;
  totalFields : nat;
  invariantCoveredFields : nat;
  coverage_methods : list MethodCoverage
}.

(** The set [coveredFields]: every field name that an invariant refers to,
    once. *)
Definition coveredFields (contract : ContractSpecs) : JsSet.t :=
  unique (flat_map inv_fieldReferences (invariants contract)).

(** The object [methodCoverage] of one method. *)
Definition methodCoverage (contract : ContractSpecs) (methodName : string) : MethodCoverage :=
  match JsMap.get methodName (methods contract) with
  | Some specs =>
      mkMethodCoverage methodName
        (0 <? List.length (preconditions specs))
        (0 <? List.length (postconditions specs))
        (match access specs with Some _ => true | None => false end)
        (0 <? List.length (calls specs))
        (existsb isCEI (postconditions specs))
  | None => mkMethodCoverage methodName false false false false false
  end.

(** The body of the loop over the methods of the class; the constructor and
    [execute] are skipped. *)
Definition coverMethod (contract : ContractSpecs) (coverage : CoverageInfo) (method : Node)
    : CoverageInfo :=
  let methodName := getMethodName method in
  if String.eqb methodName "constructor" || String.eqb methodName "execute" then coverage
  else
    let hasSpecs :=
      match JsMap.get methodName (methods contract) with Some _ => true | None => false end in
    mkCoverage (coverage_file coverage) (coverage_contractName coverage)
      (S (totalMethods coverage))
      (if hasSpecs then S (specifiedMethods coverage) else specifiedMethods coverage)
      (totalFields coverage) (invariantCoveredFields coverage)
      (coverage_methods coverage ++ [methodCoverage contract methodName]).

Definition computeCoverage (contract : ContractSpecs) (sourceFile : SourceFile)
    : CoverageInfo :=
  let classes := findClassDeclarations sourceFile in
  let coverage := mkCoverage (contract_file contract) (className contract) 0 0 0 0 [] in
  match find (fun c => String.eqb (getClassName c) (className contract)) classes with
  | None => coverage
  | Some classDecl =>
      let methods := getClassMethods classDecl in
      let storedFields := detectStoredFields classDecl in
      let coverage :=
        mkCoverage (contract_file contract) (className contract) 0 0
          (List.length storedFields) (List.length (coveredFields contract)) [] in
      fold_left (coverMethod contract) methods coverage
  end.

End Coverage.

(* ================================================================== *)
(** ** [src/cli.ts]: the exit code of the [verify] command *)
(* ================================================================== *)

Module Cli.
Import Ast Types Verifier.

(** The loop that builds [reports]: [load] stands for reading and parsing
    the file of a contract; where it fails the source throws. *)
Fixpoint verifyAll (load : string -> option SourceFile) (contracts : list ContractSpecs)
    : option (list VerificationReport) :=
  match contracts with
  | [] => Some []
  | contract :: rest =>
      match load (contract_file contract) with
      | None => None
      | Some sourceFile =>
          match verifyAll load rest with
          | None => None
          | Some reports => Some (verifyContract contract sourceFile :: reports)
          end
      end
  end.

(** The argument of [process.exit] in the action of [verify]: 0 when the
    spec tree has no contract, 2 when an exception is caught, else 1 or 0
    with [hasViolations]. *)
Definition verifyExitCode (load : string -> option SourceFile)
    (contracts : list ContractSpecs) : nat :=
  if List.length contracts =? 0 then 0
  else
    match verifyAll load contracts with
    | None => 2
    | Some reports =>
        let hasViolations := existsb (fun r => 0 <? violated (summary r)) reports in
        if hasViolations then 1 else 0
    end.

End Cli.

(* ================================================================== *)
(** ** The annotations a report can point to *)
(* ================================================================== *)

Module Trace.
Import Types.

(** The result [r] reports on the spec object [a]: it points to it and
    carries its file and line. *)
Definition reportsOn (a : SpecAnnotation) (r : VerificationResult) : Prop :=
  spec r = a /\ result_file r = file a /\ result_line r = line a.

Definition methodAnnotations (m : MethodSpecs) : list SpecAnnotation :=
  (match access m with Some a => [access_ann a] | None => [] end ++
   map pre_ann (preconditions m) ++ map post_ann (postconditions m) ++
   map calls_ann (calls m) ++ map state_ann (stateTransitions m) ++
   map temporal_ann (temporal m))%list.

(** Every spec object that is reachable from a contract record. *)
Definition contractAnnotations (c : ContractSpecs) : list SpecAnnotation :=
  (map inv_ann (invariants c) ++ map opnet_ann (opnetConstraints c) ++
   flat_map (fun entry => methodAnnotations (snd entry)) (methods c) ++
   map state_ann (contract_stateTransitions c))%list.

End Trace.

(* ================================================================== *)
(** ** Vocabulary for the properties of the builders and extractors *)
(* ================================================================== *)

Module Vocabulary.
Import Text Regex Ast AstUtils Types.

(** No character of [s] passes the test [hit]. *)
Fixpoint lacks (hit : ascii -> bool) (s : string) : bool :=
  match s with
  | EmptyString => true
  | String c s' => negb (hit c) && lacks hit s'
  end.

(** Every match of the pattern consumes a character that passes [hit]: the
    pattern has, on each of its alternatives, a character test that only
    such characters pass. *)
Inductive Needs (hit : ascii -> bool) : regex -> Prop :=
| Needs_chr (p : ascii -> bool) :
    (forall c, p c = true -> hit c = true) -> Needs hit (Chr p)
| Needs_seq_l (r1 r2 : regex) : Needs hit r1 -> Needs hit (Seq r1 r2)
| Needs_seq_r (r1 r2 : regex) : Needs hit r2 -> Needs hit (Seq r1 r2)
| Needs_alt (r1 r2 : regex) : Needs hit r1 -> Needs hit r2 -> Needs hit (Alt r1 r2)
| Needs_group (i : nat) (r : regex) : Needs hit r -> Needs hit (Group i r).


(** The text from its first line terminator on. *)
Fixpoint skipLine (s : string) : string :=
  match s with
  | EmptyString => EmptyString
  | String c s' => if isLineTerminator c then s else skipLine s'
  end.

(** A reference for stripComments that uses no pattern.  Line comments
    removed by a scan from left to right: a double slash is dropped with
    what follows it on its line; the line terminator stays.  The scan makes
    at most [fuel] steps, and the length of the text is always enough. *)
Fixpoint dropLineComments (fuel : nat) (s : string) : string :=
  match fuel, s with
  | S fuel', String a s' =>
      if startsWith s "//" then dropLineComments fuel' (skipLine s')
      else String a (dropLineComments fuel' s')
  | _, _ => s
  end.

Definition withoutLineComments (s : string) : string :=
  dropLineComments (String.length s) s.

(** The text without its first character. *)
Definition tail (s : string) : string :=
  match s with EmptyString => EmptyString | String _ s' => s' end.

(** The text after the first star-slash of [s], if [s] has one. *)
Fixpoint afterClose (s : string) : option string :=
  match s with
  | EmptyString => None
  | String _ s' => if startsWith s "*/" then Some (tail s') else afterClose s'
  end.

(** Block comments removed by a scan from left to right: a slash-star is
    dropped with the text up to the first star-slash after it; a slash-star
    that no star-slash follows stays. *)
Fixpoint dropBlockComments (fuel : nat) (s : string) : string :=
  match fuel, s with
  | S fuel', String a s' =>
      if startsWith s "/*" then
        match afterClose (tail s') with
        | Some rest => dropBlockComments fuel' rest
        | None => String a (dropBlockComments fuel' s')
        end
      else String a (dropBlockComments fuel' s')
  | _, _ => s
  end.

Definition withoutBlockComments (s : string) : string :=
  dropBlockComments (String.length s) s.

(** The wrapper type that [detectStoredFields] records for a property with
    the type [ty] and the initializer [ini]: the first entry of
    [storedTypes] that the type text contains or that the initializer
    constructs. *)
Definition storedTypeOf (ty ini : option Node) : option string :=
  find (fun st => includes (optText ty) st || includes (optText ini) ("new " ++ st))
    storedTypes.

Definition tag_eqb (a b : SpecTag) : bool :=
  match a, b with
  | Invariant, Invariant | Pre, Pre | Requires, Requires | Post, Post
  | Ensures, Ensures | State, State | Access, Access | Calls, Calls
  | Temporal, Temporal | Opnet, Opnet => true
  | _, _ => false
  end.

(** The annotations of a list that carry the tag [t]. *)
Definition tagged (t : SpecTag) (annotations : list SpecAnnotation) : list SpecAnnotation :=
  filter (fun a => tag_eqb (tag a) t) annotations.

(** The last element of a list, if any. *)
Definition lastOf {A : Type} (l : list A) : option A := hd_error (rev l).

(** The methods that [computeCoverage] counts. *)
Definition counted (method : Node) : bool :=
  negb (String.eqb (getMethodName method) "constructor" ||
        String.eqb (getMethodName method) "execute").

End Vocabulary.

Import Text Regex Ast AstUtils Types SpecParser Verifier SpecWords.

(* ================================================================== *)
(** ** Basic facts about the string primitives *)
(* ================================================================== *)








(* ================================================================== *)
(** ** Adequacy of the bounds of the matcher *)
(* ================================================================== *)

Section LoopBounds.
Context {A : Type}.
Variable atom : string -> captures -> (string -> captures -> option A) -> option A.

(** [atom] calls its continuation on suffixes of its input only. *)
Hypothesis atom_local : forall s caps (k k' : string -> captures -> option A),
  (forall s' caps', String.length s' <= String.length s -> k s' caps' = k' s' caps') ->
  atom s caps k = atom s caps k'.

Lemma greedyLoop_ext (k k' : string -> captures -> option A) (fuel : nat) :
  forall s caps,
  (forall s' caps', String.length s' <= String.length s -> k s' caps' = k' s' caps') ->
  greedyLoop atom k fuel s caps = greedyLoop atom k' fuel s caps.
Proof.
  induction fuel as [|fuel IH]; intros s caps H; cbn [greedyLoop].
  - apply H. lia.
  - rewrite (H s caps) by lia.
    erewrite atom_local; [reflexivity|].
    intros s' caps' Hle. cbv beta.
    destruct (String.length s' <? String.length s); [|reflexivity].
    apply IH. intros s2 caps2 H2. apply H. lia.
Qed.

Lemma lazyLoop_ext (k k' : string -> captures -> option A) (fuel : nat) :
  forall s caps,
  (forall s' caps', String.length s' <= String.length s -> k s' caps' = k' s' caps') ->
  lazyLoop atom k fuel s caps = lazyLoop atom k' fuel s caps.
Proof.
  induction fuel as [|fuel IH]; intros s caps H; cbn [lazyLoop].
  - apply H. lia.
  - rewrite (H s caps) by lia. destruct (k' s caps); [reflexivity|].
    apply atom_local. intros s' caps' Hle.
    destruct (String.length s' <? String.length s); [|reflexivity].
    apply IH. intros s2 caps2 H2. apply H. lia.
Qed.

(** On the empty suffix no iteration can consume anything. *)
Hypothesis atom_fails : forall s caps, atom s caps (fun _ _ => None) = None.

Lemma atom_no_progress s caps (k : string -> captures -> option A) :
  String.length s = 0 ->
  atom s caps (fun s' caps' => if String.length s' <? String.length s then k s' caps' else None)
  = None.
Proof.
  intros H. transitivity (atom s caps (fun _ _ => None)); [|apply atom_fails].
  apply atom_local. intros s' caps' _. rewrite H. reflexivity.
Qed.

Lemma greedyLoop_fuel (k : string -> captures -> option A) (f1 : nat) :
  forall f2 s caps, String.length s <= f1 -> String.length s <= f2 ->
  greedyLoop atom k f1 s caps = greedyLoop atom k f2 s caps.
Proof.
  induction f1 as [|f1 IH]; intros [|f2] s caps H1 H2; cbn [greedyLoop].
  - reflexivity.
  - rewrite atom_no_progress by lia. reflexivity.
  - rewrite atom_no_progress by lia. reflexivity.
  - erewrite atom_local; [reflexivity|].
    intros s' caps' Hle. cbv beta.
    destruct (String.length s' <? String.length s) eqn:E; [|reflexivity].
    apply Nat.ltb_lt in E. apply IH; lia.
Qed.

Lemma lazyLoop_fuel (k : string -> captures -> option A) (f1 : nat) :
  forall f2 s caps, String.length s <= f1 -> String.length s <= f2 ->
  lazyLoop atom k f1 s caps = lazyLoop atom k f2 s caps.
Proof.
  induction f1 as [|f1 IH]; intros [|f2] s caps H1 H2; cbn [lazyLoop].
  - reflexivity.
  - rewrite atom_no_progress by lia. destruct (k s caps); reflexivity.
  - rewrite atom_no_progress by lia. destruct (k s caps); reflexivity.
  - destruct (k s caps); [reflexivity|].
    apply atom_local. intros s' caps' Hle.
    destruct (String.length s' <? String.length s) eqn:E; [|reflexivity].
    apply Nat.ltb_lt in E. apply IH; lia.
Qed.

End LoopBounds.

Lemma run_ext (r : regex) : forall (A : Type) (len0 : nat) (s : string) (caps : captures)
    (k k' : string -> captures -> option A),
  (forall s' caps', String.length s' <= String.length s -> k s' caps' = k' s' caps') ->
  run r len0 s caps k = run r len0 s caps k'.
Proof.
  induction r as [|p|r1 IH1 r2 IH2|r1 IH1 r2 IH2|r IH|r IH|i r IH| | |];
    intros A len0 s caps k k' H; cbn [run].
  - apply H. lia.
  - destruct s as [|c s]; [reflexivity|]. destruct (p c); [|reflexivity].
    apply H. simpl. lia.
  - apply IH1. intros s1 caps1 H1. apply IH2. intros s2 caps2 H2. apply H. lia.
  - rewrite (IH1 A len0 s caps k k' H), (IH2 A len0 s caps k k' H). reflexivity.
  - apply greedyLoop_ext; [|exact H]. intros. now apply IH.
  - apply lazyLoop_ext; [|exact H]. intros. now apply IH.
  - apply IH. intros s' caps' Hle. apply H. lia.
  - destruct (String.length s =? len0); [apply H; lia | reflexivity].
  - destruct s; [apply H; simpl; lia | reflexivity].
  - destruct s as [|c s]; [apply H; simpl; lia|].
    destruct (isLineTerminator c); [apply H; simpl; lia | reflexivity].
Qed.

Lemma greedyLoop_fails {A : Type}
    (atom : string -> captures -> (string -> captures -> option A) -> option A) :
  (forall s caps k k',
     (forall s' caps', String.length s' <= String.length s -> k s' caps' = k' s' caps') ->
     atom s caps k = atom s caps k') ->
  (forall s caps, atom s caps (fun _ _ => None) = None) ->
  forall fuel s caps, greedyLoop atom (fun _ _ => None) fuel s caps = None.
Proof.
  intros Hlocal Hfails. induction fuel as [|fuel IH]; intros s caps; cbn [greedyLoop].
  - reflexivity.
  - replace (atom s caps _) with (@None A); [reflexivity|].
    symmetry. transitivity (atom s caps (fun _ _ => None)); [|apply Hfails].
    apply Hlocal. intros s' caps' _. rewrite IH. now destruct (_ <? _).
Qed.

Lemma lazyLoop_fails {A : Type}
    (atom : string -> captures -> (string -> captures -> option A) -> option A) :
  (forall s caps k k',
     (forall s' caps', String.length s' <= String.length s -> k s' caps' = k' s' caps') ->
     atom s caps k = atom s caps k') ->
  (forall s caps, atom s caps (fun _ _ => None) = None) ->
  forall fuel s caps, lazyLoop atom (fun _ _ => None) fuel s caps = None.
Proof.
  intros Hlocal Hfails. induction fuel as [|fuel IH]; intros s caps; cbn [lazyLoop].
  - reflexivity.
  - transitivity (atom s caps (fun _ _ => None)); [|apply Hfails].
    apply Hlocal. intros s' caps' _. rewrite IH. now destruct (_ <? _).
Qed.

Lemma run_fails (r : regex) : forall (A : Type) (len0 : nat) (s : string) (caps : captures),
  run r len0 s caps (fun _ _ => @None A) = None.
Proof.
  induction r as [|p|r1 IH1 r2 IH2|r1 IH1 r2 IH2|r IH|r IH|i r IH| | |];
    intros A len0 s caps; cbn [run].
  - reflexivity.
  - destruct s as [|c s]; [reflexivity|]. now destruct (p c).
  - transitivity (run r1 len0 s caps (fun _ _ => @None A)); [|apply IH1].
    apply run_ext. intros. apply IH2.
  - now rewrite IH1, IH2.
  - apply greedyLoop_fails; [intros; now apply run_ext | intros; apply IH].
  - apply lazyLoop_fails; [intros; now apply run_ext | intros; apply IH].
  - apply IH.
  - now destruct (_ =? _).
  - now destruct s.
  - destruct s as [|c s]; [reflexivity|]. now destruct (isLineTerminator c).
Qed.

(** The greedy repetition satisfies the equation of ECMAScript's
    RepeatMatcher: one iteration that consumes something, then the
    repetition again; if that fails, the continuation. *)
Theorem run_star (r : regex) (A : Type) (len0 : nat) (s : string) (caps : captures)
    (k : string -> captures -> option A) :
  run (Star r) len0 s caps k =
  match run r len0 s caps
          (fun s' caps' =>
             if String.length s' <? String.length s
             then run (Star r) len0 s' caps' k else None) with
  | Some x => Some x
  | None => k s caps
  end.
Proof.
  cbn [run].
  rewrite (greedyLoop_fuel (run r len0) (fun s0 caps0 k1 k2 => run_ext r A len0 s0 caps0 k1 k2)
             (run_fails r A len0) k (String.length s) (S (String.length s)) s caps)
    by lia.
  cbn [greedyLoop].
  erewrite run_ext; [reflexivity|].
  intros s' caps' Hle. cbv beta.
  destruct (String.length s' <? String.length s) eqn:E; [|reflexivity].
  apply Nat.ltb_lt in E.
  apply (greedyLoop_fuel (run r len0) (fun s0 caps0 k1 k2 => run_ext r A len0 s0 caps0 k1 k2)
           (run_fails r A len0)); lia.
Qed.

Theorem run_lazy_star (r : regex) (A : Type) (len0 : nat) (s : string) (caps : captures)
    (k : string -> captures -> option A) :
  run (LazyStar r) len0 s caps k =
  match k s caps with
  | Some x => Some x
  | None =>
      run r len0 s caps
        (fun s' caps' =>
           if String.length s' <? String.length s
           then run (LazyStar r) len0 s' caps' k else None)
  end.
Proof.
  cbn [run].
  rewrite (lazyLoop_fuel (run r len0) (fun s0 caps0 k1 k2 => run_ext r A len0 s0 caps0 k1 k2)
             (run_fails r A len0) k (String.length s) (S (String.length s)) s caps)
    by lia.
  cbn [lazyLoop]. destruct (k s caps); [reflexivity|].
  apply run_ext.
  intros s' caps' Hle.
  destruct (String.length s' <? String.length s) eqn:E; [|reflexivity].
  apply Nat.ltb_lt in E.
  apply (lazyLoop_fuel (run r len0) (fun s0 caps0 k1 k2 => run_ext r A len0 s0 caps0 k1 k2)
           (run_fails r A len0)); lia.
Qed.

(** The loops over the successive matches never run out of fuel. *)
Lemma execAllFrom_fuel (r : regex) (len0 : nat) (f1 : nat) :
  forall f2 idx s, String.length s < f1 -> String.length s < f2 ->
  execAllFrom f1 r len0 idx s = execAllFrom f2 r len0 idx s.
Proof.
  induction f1 as [|f1 IH]; intros [|f2] idx s H1 H2; try lia.
  cbn [execAllFrom]. destruct (search r len0 idx s) as [m|]; [|reflexivity].
  destruct (String.length (after m) <? String.length s) eqn:E; [|reflexivity].
  apply Nat.ltb_lt in E. f_equal. apply IH; lia.
Qed.

Lemma replaceAllFrom_fuel (r : regex) (repl : string) (len0 : nat) (f1 : nat) :
  forall f2 idx s, String.length s < f1 -> String.length s < f2 ->
  replaceAllFrom f1 r repl len0 idx s = replaceAllFrom f2 r repl len0 idx s.
Proof.
  induction f1 as [|f1 IH]; intros [|f2] idx s H1 H2; try lia.
  cbn [replaceAllFrom]. destruct (search r len0 idx s) as [m|]; [|reflexivity].
  destruct (String.length (after m) <? String.length s) eqn:E; [|reflexivity].
  apply Nat.ltb_lt in E. do 2 f_equal. apply IH; lia.
Qed.

(** What a match returns comes from its continuation. *)
Lemma greedyLoop_post {A : Type} (P : A -> Prop)
    (atom : string -> captures -> (string -> captures -> option A) -> option A)
    (k : string -> captures -> option A) :
  (forall s caps k', (forall s' caps' x, k' s' caps' = Some x -> P x) ->
                     forall x, atom s caps k' = Some x -> P x) ->
  (forall s' caps' x, k s' caps' = Some x -> P x) ->
  forall fuel s caps x, greedyLoop atom k fuel s caps = Some x -> P x.
Proof.
  intros Hatom Hk. induction fuel as [|fuel IH]; intros s caps x; cbn [greedyLoop].
  - apply Hk.
  - destruct (atom s caps _) as [y|] eqn:E; [|apply Hk].
    intros [= <-]. revert E. apply Hatom. intros s' caps' z.
    destruct (String.length s' <? String.length s); [apply IH | discriminate].
Qed.

Lemma lazyLoop_post {A : Type} (P : A -> Prop)
    (atom : string -> captures -> (string -> captures -> option A) -> option A)
    (k : string -> captures -> option A) :
  (forall s caps k', (forall s' caps' x, k' s' caps' = Some x -> P x) ->
                     forall x, atom s caps k' = Some x -> P x) ->
  (forall s' caps' x, k s' caps' = Some x -> P x) ->
  forall fuel s caps x, lazyLoop atom k fuel s caps = Some x -> P x.
Proof.
  intros Hatom Hk. induction fuel as [|fuel IH]; intros s caps x; cbn [lazyLoop].
  - apply Hk.
  - destruct (k s caps) as [y|] eqn:E; [intros [= <-]; revert E; apply Hk|].
    apply Hatom. intros s' caps' z.
    destruct (String.length s' <? String.length s); [apply IH | discriminate].
Qed.

Lemma run_post (r : regex) : forall (A : Type) (P : A -> Prop) (len0 : nat) (s : string)
    (caps : captures) (k : string -> captures -> option A),
  (forall s' caps' x, k s' caps' = Some x -> P x) ->
  forall x, run r len0 s caps k = Some x -> P x.
Proof.
  induction r as [|p|r1 IH1 r2 IH2|r1 IH1 r2 IH2|r IH|r IH|i r IH| | |];
    intros A P len0 s caps k H x; cbn [run].
  - apply H.
  - destruct s as [|c s]; [discriminate|]. destruct (p c); [apply H | discriminate].
  - apply IH1. intros s1 caps1 y. now apply IH2.
  - destruct (run r1 len0 s caps k) as [y|] eqn:E.
    + intros [= <-]. revert E. now apply IH1.
    + now apply IH2.
  - apply greedyLoop_post; [|exact H]. intros s0 caps0 k' Hk'. now apply IH.
  - apply lazyLoop_post; [|exact H]. intros s0 caps0 k' Hk'. now apply IH.
  - apply IH. intros s' caps' y. apply H.
  - destruct (_ =? _); [apply H | discriminate].
  - destruct s; [apply H | discriminate].
  - destruct s as [|c s]; [apply H|]. destruct (isLineTerminator c); [apply H | discriminate].
Qed.

(** A match leaves a suffix of its input. *)
Lemma matchHere_shorter (r : regex) (len0 : nat) (s rest : string) (caps : captures) :
  matchHere r len0 s = Some (rest, caps) -> String.length rest <= String.length s.
Proof.
  unfold matchHere. intros H.
  rewrite (run_ext r (string * captures) len0 s (@nil (nat * string))
             (fun s' caps' => Some (s', caps'))
             (fun s' caps' =>
                if String.length s' <=? String.length s then Some (s', caps') else None)) in H.
  - revert H.
    apply (run_post r _ (fun x => String.length (fst x) <= String.length s)).
    intros s' caps' x. destruct (String.length s' <=? String.length s) eqn:E; [|discriminate].
    intros [= <-]. now apply Nat.leb_le.
  - intros s' caps' Hle. apply Nat.leb_le in Hle. now rewrite Hle.
Qed.

Lemma splitFrom_fuel (r : regex) (len0 : nat) (f1 : nat) :
  forall (f2 : nat) (s acc : string) (fresh : bool),
  2 * String.length s + (if fresh then 0 else 1) < f1 ->
  2 * String.length s + (if fresh then 0 else 1) < f2 ->
  splitFrom f1 r len0 s acc fresh = splitFrom f2 r len0 s acc fresh.
Proof.
  induction f1 as [|f1 IH]; intros [|f2] s acc fresh H1 H2; try lia.
  cbn [splitFrom]. destruct s as [|c s]; [reflexivity|].
  cbn [String.length] in H1, H2.
  destruct (matchHere r len0 (String c s)) as [[rest caps]|] eqn:E.
  - apply matchHere_shorter in E. cbn [String.length] in E.
    destruct ((String.length rest =? String.length (String c s)) && fresh) eqn:Efresh.
    + apply IH; lia.
    + f_equal. apply IH; cbn [String.length] in Efresh.
      * destruct fresh; [|lia].
        rewrite andb_true_r in Efresh. apply Nat.eqb_neq in Efresh. lia.
      * destruct fresh; [|lia].
        rewrite andb_true_r in Efresh. apply Nat.eqb_neq in Efresh. lia.
  - apply IH; lia.
Qed.

(* ================================================================== *)
(** ** Facts about the report *)
(* ================================================================== *)

Lemma makeResult_status spec st msg det : status (makeResult spec st msg det) = st.
Proof. reflexivity. Qed.

Lemma countStatus_cons (st : VerificationStatus) r rs :
  countStatus st (r :: rs) =
  (if status_eqb (status r) st then 1 else 0) + countStatus st rs.
Proof.
  unfold countStatus. simpl. destruct (status_eqb (status r) st); reflexivity.
Qed.

(** The counting loop adds, to each counter, the number of results of its
    status and leaves [total] alone. *)
Lemma fold_bump (rs : list VerificationResult) : forall s : Summary,
  let s' := fold_left bump rs s in
  verified s' = verified s + countStatus VERIFIED rs /\
  unverified s' = unverified s + countStatus UNVERIFIED rs /\
  violated s' = violated s + countStatus VIOLATED rs /\
  missing s' = missing s + countStatus MISSING rs /\
  total s' = total s.
Proof.
  induction rs as [|r rs IH]; intros s; cbn zeta.
  - unfold countStatus. simpl. repeat split; lia.
  - simpl fold_left. specialize (IH (bump s r)). cbn zeta in IH.
    destruct IH as (Hv & Hu & Hx & Hm & Ht).
    rewrite Hv, Hu, Hx, Hm, Ht, !countStatus_cons.
    unfold bump. destruct (status r); simpl; repeat split; lia.
Qed.

(** Every result has exactly one of the four statuses. *)
Lemma countStatus_partition (rs : list VerificationResult) :
  countStatus VERIFIED rs + countStatus UNVERIFIED rs +
  countStatus VIOLATED rs + countStatus MISSING rs = List.length rs.
Proof.
  induction rs as [|r rs IH]; [reflexivity|].
  rewrite !countStatus_cons. simpl List.length.
  destruct (status r); simpl; lia.
Qed.

Lemma buildReport_results c rs : results (buildReport c rs) = rs.
Proof. reflexivity. Qed.

Lemma buildReport_summary c rs :
  summary (buildReport c rs) =
  mkSummary (countStatus VERIFIED rs) (countStatus UNVERIFIED rs)
    (countStatus VIOLATED rs) (countStatus MISSING rs) (List.length rs).
Proof.
  unfold buildReport. cbn [summary].
  destruct (fold_bump rs (mkSummary 0 0 0 0 (List.length rs))) as (Hv & Hu & Hx & Hm & Ht).
  destruct (fold_left bump rs _) as [v u x m t].
  cbn in *. now subst.
Qed.

(** [verifyContract] always ends in [buildReport]. *)
Lemma verifyContract_is_report (c : ContractSpecs) (sf : SourceFile) :
  verifyContract c sf = buildReport c (results (verifyContract c sf)).
Proof.
  unfold verifyContract.
  destruct (find _ (findClassDeclarations sf)); reflexivity.
Qed.

(** C10. For every report produced by verifyContract, summary.total equals
    the length of the results list and equals the sum of the four counters,
    and each counter equals the number of results carrying its status. *)
Theorem C10_summary_counts (c : ContractSpecs) (sf : SourceFile) :
  let report := verifyContract c sf in
  total (summary report) = List.length (results report) /\
  total (summary report) =
    verified (summary report) + unverified (summary report) +
    violated (summary report) + missing (summary report) /\
  verified (summary report) = countStatus VERIFIED (results report) /\
  unverified (summary report) = countStatus UNVERIFIED (results report) /\
  violated (summary report) = countStatus VIOLATED (results report) /\
  missing (summary report) = countStatus MISSING (results report).
Proof.
  cbn zeta.
  assert (E : summary (verifyContract c sf) =
              summary (buildReport c (results (verifyContract c sf))))
    by (f_equal; apply verifyContract_is_report).
  rewrite E, buildReport_summary. cbn [total verified unverified violated missing].
  pose proof (countStatus_partition (results (verifyContract c sf))).
  repeat split; lia.
Qed.

(* ================================================================== *)
(** ** Checks-Effects-Interactions *)
(* ================================================================== *)

Lemma length_zero_iff_nil {A : Type} (l : list A) : (List.length l =? 0) = true <-> l = [].
Proof.
  destruct l; simpl; split; intros H; try reflexivity; discriminate.
Qed.

Lemma length_pos_iff_in {A : Type} (l : list A) :
  (0 <? List.length l) = true <-> exists x, In x l.
Proof.
  destruct l as [|x l]; simpl; split.
  - discriminate.
  - intros [x []].
  - intros _. exists x. now left.
  - reflexivity.
Qed.

(** The violation messages of [verifyCEI]: one per pair of a call and a
    later write. *)
Lemma cei_violations_exist (calls : list CallSite) (writes : list StateWrite)
    (msg : StateWrite -> string) :
  (exists v, In v
     (flat_map
        (fun call =>
           flat_map
             (fun write => if call_pos call <? write_pos write then [msg write] else [])
             writes)
        calls)) <->
  exists w c, In w writes /\ In c calls /\ call_pos c < write_pos w.
Proof.
  split.
  - intros [v Hv]. apply in_flat_map in Hv. destruct Hv as (c & Hc & Hv).
    apply in_flat_map in Hv. destruct Hv as (w & Hw & Hv).
    destruct (call_pos c <? write_pos w) eqn:E; [|contradiction].
    apply Nat.ltb_lt in E. exists w, c. auto.
  - intros (w & c & Hw & Hc & Hlt). exists (msg w).
    apply in_flat_map. exists c. split; [exact Hc|].
    apply in_flat_map. exists w. split; [exact Hw|].
    apply Nat.ltb_lt in Hlt. rewrite Hlt. now left.
Qed.

(** C2. For an ensures-CEI spec on a resolved method: with no external-call
    site or no state-write site the result is VERIFIED; otherwise it is
    VIOLATED exactly when some state write lies at a greater source position
    than some external call, and VERIFIED when no write does. *)
Theorem C2_verifyCEI_status (spec : PostconditionSpec) (method : Node)
    (storedFields : JsSet.t) :
  let externalCalls := findBlockchainCalls method in
  let stateWrites := findStateWrites method storedFields in
  let result := status (verifyCEI spec method storedFields) in
  let writeAfterCall :=
    exists w c, In w stateWrites /\ In c externalCalls /\ call_pos c < write_pos w in
  (externalCalls = [] \/ stateWrites = [] -> result = VERIFIED) /\
  (externalCalls <> [] /\ stateWrites <> [] ->
     (result = VIOLATED <-> writeAfterCall) /\
     (~ writeAfterCall -> result = VERIFIED)).
Proof.
  cbn zeta. unfold verifyCEI.
  destruct (List.length (findBlockchainCalls method) =? 0) eqn:Ec.
  { apply length_zero_iff_nil in Ec. split; [reflexivity|].
    intros [Hc _]. contradiction. }
  destruct (List.length (findStateWrites method storedFields) =? 0) eqn:Ew.
  { apply length_zero_iff_nil in Ew. split; [reflexivity|].
    intros [_ Hw]. contradiction. }
  split.
  { intros [H|H]; apply length_zero_iff_nil in H; congruence. }
  intros _.
  pose proof (cei_violations_exist (findBlockchainCalls method)
                (findStateWrites method storedFields)
                (fun write => "State write '" ++ write_text write ++
                              "' after Blockchain.call()")) as Hiff.
  rewrite <- length_pos_iff_in in Hiff. cbv beta in Hiff.
  match goal with
  | |- context [0 <? List.length ?v] => destruct (0 <? List.length v) eqn:Ev
  end.
  - split; [split; [intros _; now apply Hiff | reflexivity]|].
    intros Hn. exfalso. apply Hn. now apply Hiff.
  - split; [split; [discriminate | intros H; apply Hiff in H; discriminate]|].
    reflexivity.
Qed.

(** A postcondition marked CEI is handed to [verifyCEI]. *)
Lemma verifyPostcondition_cei (spec : PostconditionSpec) method storedFields :
  isCEI spec = true ->
  verifyPostcondition spec method storedFields = verifyCEI spec method storedFields.
Proof.
  intros H. unfold verifyPostcondition. now rewrite H.
Qed.

(* ================================================================== *)
(** ** Invariants *)
(* ================================================================== *)

(** The lookup of [invariantResult] succeeds for the names that
    [verifyInvariant] passes to it: they are keys of the map. *)
Lemma get_of_key {V : Type} (m : JsMap.t V) (k : string) :
  In k (JsMap.keys m) -> JsMap.get k m <> None.
Proof.
  unfold JsMap.keys. induction m as [|[k' v'] m IH]; simpl; [intros []|].
  intros [H|H].
  - subst k'. rewrite String.eqb_refl. discriminate.
  - destruct (String.eqb k' k); [discriminate | now apply IH].
Qed.

Lemma modifying_method_is_key {V : Type} (f : string * V -> bool) (m : JsMap.t V)
    (k : string) :
  In k (map fst (filter f m)) -> JsMap.get k m <> None.
Proof.
  intros H. apply get_of_key. unfold JsMap.keys.
  apply in_map_iff in H. destruct H as (e & <- & He).
  apply filter_In in He. apply in_map. tauto.
Qed.

Lemma invariantResult_status inv allMethods name r :
  In r (invariantResult inv allMethods name) -> status r = UNVERIFIED.
Proof.
  unfold invariantResult.
  destruct (JsMap.get name allMethods) as [m|]; [|intros []].
  destruct (includes (getMethodBodyText m) "Revert" || includes (getMethodBodyText m) "throw");
    intros [<-|[]]; reflexivity.
Qed.

(** C4. verifyInvariant never produces a VIOLATED result; and an invariant
    with no field reference yields exactly one result, which is UNVERIFIED. *)
Theorem C4_verifyInvariant_never_violated (invariant : InvariantSpec) (classDecl : Node)
    (allMethods : JsMap.t Node) :
  (forall r, In r (verifyInvariant invariant classDecl allMethods) ->
             status r <> VIOLATED) /\
  (inv_fieldReferences invariant = [] ->
   exists r, verifyInvariant invariant classDecl allMethods = [r] /\
             status r = UNVERIFIED).
Proof.
  split.
  - intros r. unfold verifyInvariant.
    destruct (List.length (inv_fieldReferences invariant) =? 0).
    { intros [<-|[]]. discriminate. }
    match goal with
    | |- context [List.length ?l =? 0] => destruct (List.length l =? 0)
    end.
    { intros [<-|[]]. discriminate. }
    intros H. apply in_flat_map in H. destruct H as (name & _ & H).
    apply invariantResult_status in H. rewrite H. discriminate.
  - intros H. unfold verifyInvariant. rewrite H. cbn [List.length Nat.eqb].
    eexists. split; reflexivity.
Qed.

(* ================================================================== *)
(** ** Postconditions *)
(* ================================================================== *)

Lemma unmodified_guarded (bodyText : string) (fields : list string) :
  (if 0 <? List.length fields then unmodifiedFields bodyText fields else []) =
  unmodifiedFields bodyText fields.
Proof.
  destruct fields; reflexivity.
Qed.

Lemma length_pos_false_iff_nil {A : Type} (l : list A) :
  (0 <? List.length l) = false <-> l = [].
Proof.
  destruct l; simpl; split; intros H; try reflexivity; discriminate.
Qed.

(** The list of unmodified fields is empty exactly when the body text
    contains, for every field of the list, one of the two write patterns. *)
Lemma unmodifiedFields_nil (bodyText : string) (fields : list string) :
  unmodifiedFields bodyText fields = [] <->
  forall field, In field fields ->
    includes bodyText ("this." ++ field ++ ".value") ||
    includes bodyText ("this." ++ field ++ ".set") = true.
Proof.
  unfold unmodifiedFields. induction fields as [|f fields IH]; cbn [filter].
  - split; [intros _ field [] | reflexivity].
  - destruct (includes bodyText ("this." ++ f ++ ".value")) eqn:E1;
      [|destruct (includes bodyText ("this." ++ f ++ ".set")) eqn:E2]; cbn [negb andb].
    + rewrite IH. split.
      * intros H field [<-|Hin]; [now rewrite E1 | now apply H].
      * intros H field Hin. apply H. now right.
    + rewrite IH. split.
      * intros H field [<-|Hin]; [now rewrite E1, E2 | now apply H].
      * intros H field Hin. apply H. now right.
    + split; [discriminate|]. intros H. specialize (H f (or_introl eq_refl)).
      rewrite E1, E2 in H. discriminate.
Qed.

Lemma unmodifiedFields_cons (bodyText : string) (fields : list string) :
  unmodifiedFields bodyText fields <> [] <->
  exists field, In field fields /\
    includes bodyText ("this." ++ field ++ ".value") ||
    includes bodyText ("this." ++ field ++ ".set") = false.
Proof.
  split.
  - unfold unmodifiedFields. intros H.
    destruct (filter _ fields) as [|f rest] eqn:E; [contradiction|].
    assert (Hin : In f (filter
              (fun field => negb (includes bodyText ("this." ++ field ++ ".value")) &&
                            negb (includes bodyText ("this." ++ field ++ ".set"))) fields))
      by (rewrite E; now left).
    apply filter_In in Hin. destruct Hin as [Hin Hf]. exists f. split; [exact Hin|].
    apply andb_true_iff in Hf. destruct Hf as [H1 H2].
    apply negb_true_iff in H1, H2. now rewrite H1, H2.
  - intros (f & Hin & Hf) Hnil. rewrite unmodifiedFields_nil in Hnil.
    rewrite (Hnil f Hin) in Hf. discriminate.
Qed.

(** C7. For a postcondition that is not the CEI marker, on a resolved
    method, verifyPostcondition never returns VERIFIED, and its checks apply
    in order, the first that fires deciding.  A referenced field for which
    the body text has neither of the two write patterns yields UNVERIFIED;
    else an expression that mentions return on a body without return yields
    VIOLATED; else an old() reference yields UNVERIFIED (with the old()
    references as details); else the result is a generic UNVERIFIED. *)
Theorem C7_verifyPostcondition_non_cei (postSpec : PostconditionSpec) (method : Node)
    (storedFields : JsSet.t) :
  isCEI postSpec = false ->
  let bodyText := getMethodBodyText method in
  let written (field : string) :=
    includes bodyText ("this." ++ field ++ ".value") ||
    includes bodyText ("this." ++ field ++ ".set") in
  let allWritten := forall field, In field (post_fieldReferences postSpec) ->
                                  written field = true in
  let missingReturn :=
    includes (expression postSpec) "return" && negb (includes bodyText "return") in
  let result := verifyPostcondition postSpec method storedFields in
  status result <> VERIFIED /\
  ((exists field, In field (post_fieldReferences postSpec) /\ written field = false) ->
     status result = UNVERIFIED /\
     details result =
       Some "Ensure the method modifies these fields or update the postcondition") /\
  (allWritten -> missingReturn = true -> status result = VIOLATED) /\
  (allWritten -> missingReturn = false -> oldReferences postSpec <> [] ->
     status result = UNVERIFIED /\
     details result =
       Some ("Fields referenced via old(): " ++ join ", " (oldReferences postSpec))) /\
  (allWritten -> missingReturn = false -> oldReferences postSpec = [] ->
     status result = UNVERIFIED /\ details result = None).
Proof.
  intros Hcei. cbn zeta. unfold verifyPostcondition. rewrite Hcei.
  rewrite unmodified_guarded.
  pose proof (unmodifiedFields_nil (getMethodBodyText method) (post_fieldReferences postSpec))
    as Hnil.
  pose proof (unmodifiedFields_cons (getMethodBodyText method) (post_fieldReferences postSpec))
    as Hcons.
  destruct (0 <? List.length
              (unmodifiedFields (getMethodBodyText method) (post_fieldReferences postSpec)))
    eqn:Eu.
  { assert (Hne : unmodifiedFields (getMethodBodyText method)
                    (post_fieldReferences postSpec) <> []).
    { intros H. rewrite H in Eu. discriminate. }
    cbn [status details makeResult].
    split; [discriminate|]. split; [intros _; split; reflexivity|].
    split; [|split]; intros Hall; exfalso; apply Hne; now apply Hnil. }
  apply length_pos_false_iff_nil in Eu.
  assert (Hno : ~ exists field, In field (post_fieldReferences postSpec) /\
                  includes (getMethodBodyText method) ("this." ++ field ++ ".value") ||
                  includes (getMethodBodyText method) ("this." ++ field ++ ".set") = false).
  { intros H. apply Hcons in H. contradiction. }
  destruct (includes (expression postSpec) "return" &&
            negb (includes (getMethodBodyText method) "return")) eqn:Er.
  { cbn [status makeResult]. split; [discriminate|]. split; [intros H; contradiction|].
    split; [reflexivity|]. split; intros _ H; discriminate H. }
  destruct (0 <? List.length (oldReferences postSpec)) eqn:Eo.
  { assert (Hne : oldReferences postSpec <> []).
    { intros H. rewrite H in Eo. discriminate. }
    cbn [status details makeResult]. split; [discriminate|]. split; [intros H; contradiction|].
    split; [intros _ H; discriminate H|]. split; [intros _ _ _; split; reflexivity|].
    intros _ _ H. contradiction. }
  apply length_pos_false_iff_nil in Eo.
  destruct (0 <? List.length (post_fieldReferences postSpec));
    cbn [status details makeResult];
    (split; [discriminate|]); (split; [intros H; contradiction|]);
    (split; [intros _ H; discriminate H|]);
    (split; [intros _ _ H; rewrite Eo in H; contradiction | intros _ _ _; split; reflexivity]).
Qed.

(* ================================================================== *)
(** ** The spec-tree builder *)
(* ================================================================== *)

Lemma addAnnotation_postconditions methodName specs ann :
  postconditions (addAnnotation methodName specs ann) =
  (postconditions specs ++ postconditionsOf methodName ann)%list.
Proof.
  unfold addAnnotation, postconditionsOf.
  destruct (tag ann); cbn [postconditions]; try reflexivity; now rewrite app_nil_r.
Qed.

Lemma fold_addAnnotation_postconditions methodName annotations : forall specs,
  postconditions (fold_left (addAnnotation methodName) annotations specs) =
  (postconditions specs ++ flat_map (postconditionsOf methodName) annotations)%list.
Proof.
  induction annotations as [|ann rest IH]; intros specs.
  - simpl. now rewrite app_nil_r.
  - simpl. rewrite IH, addAnnotation_postconditions, app_assoc. reflexivity.
Qed.

Lemma buildMethodSpecs_postconditions methodName annotations :
  postconditions (buildMethodSpecs methodName annotations) =
  flat_map (postconditionsOf methodName) annotations.
Proof.
  unfold buildMethodSpecs. now rewrite fold_addAnnotation_postconditions.
Qed.

(** C8. An ensures annotation whose expression, trimmed and upper-cased,
    equals CEI produces a PostconditionSpec with isCEI set and with empty
    oldReferences and fieldReferences; and every postcondition that
    buildMethodSpecs produces with isCEI set has both lists empty. *)
Theorem C8_ensures_CEI_marker (methodName : string) (annotations : list SpecAnnotation) :
  (forall ann, In ann annotations -> tag ann = Ensures ->
     toUpperCase (trim (expression ann)) = "CEI" ->
     exists post,
       In post (postconditions (buildMethodSpecs methodName annotations)) /\
       expression post = expression ann /\ tag post = Ensures /\
       post_methodName post = methodName /\
       isCEI post = true /\ oldReferences post = [] /\ post_fieldReferences post = []) /\
  (forall post,
     In post (postconditions (buildMethodSpecs methodName annotations)) ->
     isCEI post = true -> oldReferences post = [] /\ post_fieldReferences post = []).
Proof.
  rewrite buildMethodSpecs_postconditions. split.
  - intros ann Hin Htag Hcei. exists (buildEnsures methodName ann). split.
    + apply in_flat_map. exists ann. split; [exact Hin|].
      unfold postconditionsOf. rewrite Htag. now left.
    + unfold buildEnsures. rewrite Hcei. cbn. repeat split; reflexivity.
  - intros post Hin Hcei. apply in_flat_map in Hin. destruct Hin as (ann & _ & Hin).
    unfold postconditionsOf in Hin. destruct (tag ann); try contradiction.
    + destruct Hin as [<-|[]]. cbn in Hcei. discriminate.
    + destruct Hin as [<-|[]]. unfold buildEnsures in *. cbn [isCEI] in Hcei.
      rewrite Hcei. cbn. split; reflexivity.
Qed.

(** C5. parseStateTransition on the two sample transitions of the
    specification. *)
Theorem C5_parseStateTransition_samples :
  parseStateTransition "ACTIVE -> GRADUATED : buy() [when x >= y]" =
    mkTransition "ACTIVE" "GRADUATED" ["buy"] (Some "x >= y") /\
  parseStateTransition "!G -> !G : buy(), sell()" =
    mkTransition "!G" "!G" ["buy"; "sell"] None.
Proof.
  split; vm_compute; reflexivity.
Qed.

(* ================================================================== *)
(** ** Preconditions *)
(* ================================================================== *)

Lemma existsb_find {A : Type} (f : A -> bool) (l : list A) :
  existsb f l = match find f l with Some _ => true | None => false end.
Proof.
  induction l as [|x l IH]; simpl; [reflexivity|].
  destruct (f x); [reflexivity | exact IH].
Qed.

(** C3, as the code has it.  The guard-helper checks come first and decide
    between VERIFIED and VIOLATED from the body alone.  When the expression
    names no guard helper, the result is VERIFIED exactly when the
    status/state shortcut does not fire and the key terms of the expression
    match some guard of the method (at least one, and at least half, of
    them occur among that guard's terms); the checks that follow the
    key-term matching never yield VERIFIED. *)
Theorem C3_verified_by_helper_or_key_terms (preSpec : PreconditionSpec) (method : Node) :
  let expr := trim (expression preSpec) in
  let bodyText := getMethodBodyText method in
  let result := status (verifyPrecondition preSpec method) in
  (includes expr "ensureOwner" || includes expr "onlyDeployer" = true ->
     result = if includes bodyText "ensureOwner" || includes bodyText "onlyDeployer"
              then VERIFIED else VIOLATED) /\
  (includes expr "ensureOwner" || includes expr "onlyDeployer" = false ->
   includes expr "ensureActive" = true ->
     result = if includes bodyText "ensureActive" then VERIFIED else VIOLATED) /\
  (namesGuardHelper expr = false ->
     (result = VERIFIED <->
        statusHelper expr bodyText = None /\
        existsb (guardMatches (extractKeyTerms expr)) (findGuardChecks method) = true)).
Proof.
  cbn zeta. unfold verifyPrecondition, namesGuardHelper.
  set (expr := trim (expression preSpec)).
  set (bodyText := getMethodBodyText method).
  destruct (includes expr "ensureOwner" || includes expr "onlyDeployer") eqn:E1.
  { split; [|split]; try discriminate.
    intros _. destruct (includes bodyText "ensureOwner" || includes bodyText "onlyDeployer");
      reflexivity. }
  destruct (includes expr "ensureActive") eqn:E2.
  { split; [discriminate|]. split; [|discriminate].
    intros _ _. destruct (includes bodyText "ensureActive"); reflexivity. }
  split; [discriminate|]. split; [discriminate|]. intros _.
  rewrite existsb_find.
  destruct (statusHelper expr bodyText) as [helper|].
  { cbn [status makeResult]. split; [discriminate | intros [H _]; discriminate]. }
  destruct (find (guardMatches (extractKeyTerms expr)) (findGuardChecks method)) as [guard|].
  { cbn [status makeResult]. split; auto. }
  destruct (forallb (fun f => includes bodyText f) (extractFieldRefsFromExpr expr) &&
            includes bodyText "Revert").
  { cbn [status makeResult]. split; [discriminate | intros [_ H]; discriminate]. }
  destruct (includes bodyText "Revert");
    cbn [status makeResult]; (split; [discriminate | intros [_ H]; discriminate]).
Qed.

(* ================================================================== *)
(** ** The verification engine *)
(* ================================================================== *)

(** When no class of the file has the contract's name, only the invariants
    get a result. *)
Lemma verifyContract_class_not_found (c : ContractSpecs) (sf : SourceFile) :
  find (fun cls => String.eqb (getClassName cls) (className c))
    (findClassDeclarations sf) = None ->
  results (verifyContract c sf) =
  map (fun inv : InvariantSpec =>
         makeResult inv MISSING ("Class " ++ className c ++ " not found in source") None)
    (invariants c).
Proof.
  intros H. unfold verifyContract. rewrite H. reflexivity.
Qed.

(* ================================================================== *)
(** ** Independence from object identity *)
(* ================================================================== *)

Section IdentityIndependence.
Variable rho : nat -> nat.

Ltac split_cases :=
  repeat match goal with
         | |- context [if ?b then _ else _] => destruct b
         | |- context [match ?o with Some _ => _ | None => _ end] => destruct o
         end;
  reflexivity.

Lemma verifyAccess_reid (a : AccessSpec) (method : Node) :
  verifyAccess (Identity.accessSpec rho a) method =
  Identity.result rho (verifyAccess a method).
Proof.
  destruct a as [[o t e cm f l col] lvl name].
  unfold verifyAccess, Identity.accessSpec, Identity.result, Identity.annotation, makeResult.
  cbn [level access_methodName access_ann oid tag expression comment file line column].
  split_cases.
Qed.

Lemma verifyPrecondition_reid (p : PreconditionSpec) (method : Node) :
  verifyPrecondition (Identity.precondition rho p) method =
  Identity.result rho (verifyPrecondition p method).
Proof.
  destruct p as [[o t e cm f l col] name].
  unfold verifyPrecondition, Identity.precondition, Identity.result, Identity.annotation,
    makeResult.
  cbn [pre_methodName pre_ann oid tag expression comment file line column].
  split_cases.
Qed.

Lemma verifyPostcondition_reid (p : PostconditionSpec) (method : Node) (stored : JsSet.t) :
  verifyPostcondition (Identity.postcondition rho p) method stored =
  Identity.result rho (verifyPostcondition p method stored).
Proof.
  destruct p as [[o t e cm f l col] name cei olds fields].
  unfold verifyPostcondition, verifyCEI, Identity.postcondition, Identity.result,
    Identity.annotation, makeResult.
  cbn [post_methodName post_ann isCEI oldReferences post_fieldReferences
       oid tag expression comment file line column].
  split_cases.
Qed.

Lemma verifyCalls_reid (c : CallsSpec) (method : Node) :
  verifyCalls (Identity.callsSpec rho c) method =
  Identity.result rho (verifyCalls c method).
Proof.
  destruct c as [[o t e cm f l col] tgt called expect name].
  unfold verifyCalls, Identity.callsSpec, Identity.result, Identity.annotation, makeResult.
  cbn [calls_methodName calls_ann target calledMethod expectation
       oid tag expression comment file line column].
  split_cases.
Qed.

Lemma verifyStateTransition_reid (s : StateSpec) (method : Node) :
  verifyStateTransition (Identity.stateSpec rho s) method =
  Identity.result rho (verifyStateTransition s method).
Proof.
  destruct s as [[o t e cm f l col] tr].
  unfold verifyStateTransition, Identity.stateSpec, Identity.result, Identity.annotation,
    makeResult.
  cbn [state_ann transition oid tag expression comment file line column].
  split_cases.
Qed.

Lemma verifyOpnetConstraint_reid (o : OpnetSpec) (classDecl : Node) :
  verifyOpnetConstraint (Identity.opnetSpec rho o) classDecl =
  Identity.result rho (verifyOpnetConstraint o classDecl).
Proof.
  destruct o as [[i t e cm f l col] cons].
  unfold verifyOpnetConstraint, Identity.opnetSpec, Identity.result, Identity.annotation,
    makeResult.
  cbn [opnet_ann constraint oid tag expression comment file line column].
  split_cases.
Qed.

Lemma invariantResult_reid (i : InvariantSpec) (allMethods : JsMap.t Node) (name : string) :
  invariantResult (Identity.invariant rho i) allMethods name =
  map (Identity.result rho) (invariantResult i allMethods name).
Proof.
  destruct i as [[o t e cm f l col] fields].
  unfold invariantResult, Identity.invariant, Identity.result, Identity.annotation, makeResult.
  cbn [inv_ann inv_fieldReferences oid tag expression comment file line column].
  split_cases.
Qed.

Lemma flat_map_map_out {A B : Type} (f : A -> list B) (g : A -> list B) (h : B -> B)
    (l : list A) :
  (forall x, f x = map h (g x)) -> flat_map f l = map h (flat_map g l).
Proof.
  intros H. induction l as [|x l IH]; simpl; [reflexivity|].
  now rewrite map_app, H, IH.
Qed.

Lemma verifyInvariant_reid (i : InvariantSpec) (classDecl : Node)
    (allMethods : JsMap.t Node) :
  verifyInvariant (Identity.invariant rho i) classDecl allMethods =
  map (Identity.result rho) (verifyInvariant i classDecl allMethods).
Proof.
  unfold verifyInvariant.
  replace (inv_fieldReferences (Identity.invariant rho i)) with (inv_fieldReferences i)
    by reflexivity.
  replace (expression (Identity.invariant rho i)) with (expression i) by reflexivity.
  destruct (List.length (inv_fieldReferences i) =? 0); [reflexivity|].
  match goal with
  | |- context [List.length ?m =? 0] => destruct (List.length m =? 0)
  end; [reflexivity|].
  apply flat_map_map_out. intros name. apply invariantResult_reid.
Qed.

Lemma missingMethodResults_reid (c : ContractSpecs) (name : string) (m : MethodSpecs) :
  missingMethodResults (Identity.contract rho c) name (Identity.methodSpecs rho m) =
  map (Identity.result rho) (missingMethodResults c name m).
Proof.
  unfold missingMethodResults.
  cbn [Identity.contract Identity.methodSpecs className access preconditions
       postconditions calls].
  rewrite !map_app, !map_map.
  destruct (access m); reflexivity.
Qed.

Lemma verifyMethodSpecs_reid (c : ContractSpecs) (allMethods : JsMap.t Node)
    (stored : JsSet.t) (entry : string * MethodSpecs) :
  verifyMethodSpecs (Identity.contract rho c) allMethods stored
    (fst entry, Identity.methodSpecs rho (snd entry)) =
  map (Identity.result rho) (verifyMethodSpecs c allMethods stored entry).
Proof.
  unfold verifyMethodSpecs. cbn [fst snd].
  destruct (JsMap.get (fst entry) allMethods) as [method|];
    [|apply missingMethodResults_reid].
  cbn [Identity.methodSpecs access preconditions postconditions calls stateTransitions
       temporal].
  rewrite !map_app, !map_map.
  rewrite (map_ext _ _ (fun p => verifyPrecondition_reid p method)).
  rewrite (map_ext _ _ (fun p => verifyPostcondition_reid p method stored)).
  rewrite (map_ext _ _ (fun x => verifyCalls_reid x method)).
  rewrite (map_ext _ _ (fun x => verifyStateTransition_reid x method)).
  destruct (access (snd entry)); cbn [option_map map]; [|reflexivity].
  now rewrite verifyAccess_reid.
Qed.

Lemma buildReport_reid (c : ContractSpecs) (rs : list VerificationResult) :
  buildReport (Identity.contract rho c) (map (Identity.result rho) rs) =
  Identity.report rho (buildReport c rs).
Proof.
  unfold buildReport, Identity.report.
  cbn [Identity.contract className contract_file contractName report_file results summary].
  f_equal. rewrite length_map.
  generalize (mkSummary 0 0 0 0 (List.length rs)).
  induction rs as [|r rs IH]; intros s; [reflexivity|].
  cbn [map fold_left]. rewrite IH. reflexivity.
Qed.

Hypothesis rho_injective : forall a b, rho a = rho b -> a = b.

Lemma alreadyVerified_reid (st : StateSpec) (rs : list VerificationResult) :
  existsb (fun r => oid (spec r) =? oid (Identity.stateSpec rho st))
    (map (Identity.result rho) rs) =
  existsb (fun r => oid (spec r) =? oid st) rs.
Proof.
  induction rs as [|r rs IH]; [reflexivity|].
  cbn [map existsb]. rewrite IH. f_equal.
  cbn [Identity.result Identity.stateSpec Identity.annotation spec state_ann oid].
  destruct (oid (spec r) =? oid st) eqn:E.
  - apply Nat.eqb_eq in E. rewrite E. apply Nat.eqb_refl.
  - apply Nat.eqb_neq. intros H. apply rho_injective in H.
    apply Nat.eqb_neq in E. contradiction.
Qed.

Lemma verifyContractTransition_reid (allMethods : JsMap.t Node)
    (rs : list VerificationResult) (st : StateSpec) :
  verifyContractTransition allMethods (map (Identity.result rho) rs)
    (Identity.stateSpec rho st) =
  map (Identity.result rho) (verifyContractTransition allMethods rs st).
Proof.
  unfold verifyContractTransition. rewrite alreadyVerified_reid.
  destruct (existsb _ rs); [reflexivity|].
  rewrite map_app, map_map. f_equal.
  apply map_ext. intros name.
  destruct (JsMap.get name allMethods); [apply verifyStateTransition_reid | reflexivity].
Qed.

Lemma fold_verifyContractTransition_reid (allMethods : JsMap.t Node)
    (sts : list StateSpec) : forall rs : list VerificationResult,
  fold_left (verifyContractTransition allMethods) (map (Identity.stateSpec rho) sts)
    (map (Identity.result rho) rs) =
  map (Identity.result rho) (fold_left (verifyContractTransition allMethods) sts rs).
Proof.
  induction sts as [|st sts IH]; intros rs; [reflexivity|].
  cbn [map fold_left]. rewrite verifyContractTransition_reid. apply IH.
Qed.

(** The report does not depend on which identities the spec objects carry:
    re-identifying them through an injective [rho] re-identifies the specs
    that the results point to and changes nothing else. *)
Lemma verifyContract_identity_independent (c : ContractSpecs) (sf : SourceFile) :
  verifyContract (Identity.contract rho c) sf =
  Identity.report rho (verifyContract c sf).
Proof.
  unfold verifyContract.
  replace (className (Identity.contract rho c)) with (className c) by reflexivity.
  destruct (find _ (findClassDeclarations sf)) as [classDecl|].
  - rewrite <- buildReport_reid. f_equal.
    cbn [Identity.contract invariants contract_stateTransitions opnetConstraints methods].
    rewrite <- fold_verifyContractTransition_reid. f_equal.
    rewrite !map_app, !flat_map_concat_map, !concat_map, !map_map.
    rewrite (map_ext _ _ (fun i => verifyInvariant_reid i classDecl (buildMethodMap classDecl))).
    rewrite (map_ext _ _ (fun o => verifyOpnetConstraint_reid o classDecl)).
    rewrite (map_ext _ _ (fun entry =>
               verifyMethodSpecs_reid c (buildMethodMap classDecl)
                 (JsMap.keys (detectStoredFields classDecl)) entry)).
    reflexivity.
  - rewrite <- buildReport_reid. f_equal.
    cbn [Identity.contract invariants]. rewrite !map_map. reflexivity.
Qed.

End IdentityIndependence.

(** What the JSON report shows is the same for both identifications. *)
Corollary jsonReport_identity_independent (rho : nat -> nat) (c : ContractSpecs)
    (sf : SourceFile) :
  (forall a b, rho a = rho b -> a = b) ->
  Reporter.jsonReport (verifyContract (Identity.contract rho c) sf) =
  Reporter.jsonReport (verifyContract c sf).
Proof.
  intros Hinj. rewrite (verifyContract_identity_independent rho Hinj).
  unfold Reporter.jsonReport, Identity.report.
  cbn [contractName report_file results summary]. rewrite map_map. reflexivity.
Qed.

(** X28. The report does not depend on which objects the specs are, only
    on what they hold and on which of them are the same object: when every
    spec object of a contract is replaced by a copy with another identity,
    different objects getting different identities, the results are those
    of the original contract, pointing to the copies, and the JSON output
    is the same. *)
Theorem X28_report_identity_independent (rho : nat -> nat) (c : ContractSpecs)
    (sf : SourceFile) :
  (forall a b, rho a = rho b -> a = b) ->
  verifyContract (Identity.contract rho c) sf = Identity.report rho (verifyContract c sf) /\
  Reporter.jsonReport (verifyContract (Identity.contract rho c) sf) =
  Reporter.jsonReport (verifyContract c sf).
Proof.
  intros Hinj. split.
  - now apply verifyContract_identity_independent.
  - now apply jsonReport_identity_independent.
Qed.

(* ================================================================== *)
(** ** The properties on the sample contract *)
(* ================================================================== *)

Import Sample.

(** C1.  The sample file declares no class named Bank.  The Bank record
    carries five specs (one invariant, one domain constraint, and an access
    spec, a precondition and a postcondition on withdraw), yet the report
    holds a single result, for the invariant. *)
Theorem C1_class_not_found_sample :
  find (fun cls => String.eqb (getClassName cls) (className bankContract))
    (findClassDeclarations sourceFile) = None /\
  totalSpecCount bankContract = 5 /\
  map status (results (verifyContract bankContract sourceFile)) = [MISSING].
Proof.
  repeat split; vm_compute; reflexivity.
Qed.

(** The two CEI samples of the specification: a write after the call is a
    violation, a write before the call is not. *)
Example verifyCEI_write_after_call :
  status (verifyCEI (ceiSpec "withdraw" 3) withdraw ["balance"]) = VIOLATED.
Proof. vm_compute. reflexivity. Qed.

Example verifyCEI_write_before_call :
  status (verifyCEI (ceiSpec "deposit" 3) deposit ["balance"]) = VERIFIED.
Proof. vm_compute. reflexivity. Qed.

(** The precondition [amount > 0] names no guard helper; its only key term
    occurs in the guard condition of withdraw, and the result is VERIFIED. *)
Lemma C3_counterexample :
  namesGuardHelper (trim (expression amountPositive)) = false /\
  extractKeyTerms (trim (expression amountPositive)) = ["amount"] /\
  map guard_condition (findGuardChecks withdraw) = ["amount == 0"] /\
  status (verifyPrecondition amountPositive withdraw) = VERIFIED.
Proof.
  repeat split; vm_compute; reflexivity.
Qed.

Lemma C2_witness :
  status (verifyCEI (ceiSpec "withdraw" 3) withdraw ["balance"]) = VIOLATED /\
  status (verifyCEI (ceiSpec "deposit" 3) deposit ["balance"]) = VERIFIED.
Proof.
  split.
  - apply (proj2 (C2_verifyCEI_status (ceiSpec "withdraw" 3) withdraw ["balance"])).
    + split; discriminate.
    + exists (mkStateWrite 169 "balance" "this.balance.value").
      exists (mkCallSite 128 "Blockchain.call(this.token.value, data)").
      repeat split; [now left | now left | vm_compute; lia].
  - apply (proj2 (C2_verifyCEI_status (ceiSpec "deposit" 3) deposit ["balance"])).
    + split; discriminate.
    + intros (w & c & Hw & Hc & Hlt).
      destruct Hw as [<-|[]]. destruct Hc as [<-|[]]. vm_compute in Hlt. lia.
Defined.

Lemma C3_witness :
  status (verifyPrecondition amountPositive withdraw) = VERIFIED.
Proof.
  apply (proj2 (proj2 (C3_verified_by_helper_or_key_terms amountPositive withdraw))).
  - reflexivity.
  - split; reflexivity.
Defined.

Lemma C4_witness :
  exists r, verifyInvariant plainInvariant vaultClass (buildMethodMap vaultClass) = [r] /\
            status r = UNVERIFIED.
Proof.
  apply (proj2 (C4_verifyInvariant_never_violated plainInvariant vaultClass
                  (buildMethodMap vaultClass))).
  reflexivity.
Defined.

Lemma C8_witness :
  exists post,
    In post (postconditions (buildMethodSpecs "withdraw" [amountPositive : SpecAnnotation;
                                                          ceiMarker])) /\
    expression post = " cei " /\ tag post = Ensures /\ post_methodName post = "withdraw" /\
    isCEI post = true /\ oldReferences post = [] /\ post_fieldReferences post = [].
Proof.
  apply (proj1 (C8_ensures_CEI_marker "withdraw" [amountPositive : SpecAnnotation; ceiMarker])
           ceiMarker).
  - right. now left.
  - reflexivity.
  - reflexivity.
Defined.

(** The return check comes before the old() check: a postcondition with an
    old() reference, on a body without return, is VIOLATED. *)
Lemma C7_counterexample :
  isCEI returnsOldBalance = false /\
  oldReferences returnsOldBalance = ["this.balance.value"] /\
  status (verifyPostcondition returnsOldBalance deposit ["balance"]) = VIOLATED.
Proof.
  repeat split; vm_compute; reflexivity.
Qed.

Lemma C7_witness :
  status (verifyPostcondition MoreSamples.supplyUpdated deposit ["balance"]) = UNVERIFIED /\
  status (verifyPostcondition returnsOldBalance deposit ["balance"]) = VIOLATED /\
  status (verifyPostcondition balanceUpdated deposit ["balance"]) = UNVERIFIED /\
  details (verifyPostcondition balanceUpdated deposit ["balance"]) =
    Some "Fields referenced via old(): this.balance.value".
Proof.
  assert (Hall : forall field, In field ["balance"] ->
            includes (getMethodBodyText deposit) ("this." ++ field ++ ".value") ||
            includes (getMethodBodyText deposit) ("this." ++ field ++ ".set") = true).
  { intros field [<-|[]]. vm_compute. reflexivity. }
  split; [|split].
  - apply (proj1 (proj2 (C7_verifyPostcondition_non_cei MoreSamples.supplyUpdated deposit
                           ["balance"] eq_refl))).
    exists "supply". split; [now left | vm_compute; reflexivity].
  - apply (proj1 (proj2 (proj2 (C7_verifyPostcondition_non_cei returnsOldBalance deposit
                                  ["balance"] eq_refl)))).
    + exact Hall.
    + vm_compute. reflexivity.
  - apply (proj1 (proj2 (proj2 (proj2 (C7_verifyPostcondition_non_cei balanceUpdated deposit
                                         ["balance"] eq_refl))))).
    + exact Hall.
    + vm_compute. reflexivity.
    + discriminate.
Defined.

(* ================================================================== *)
(** ** Further properties of the verifier, the builders and the tools *)
(* ================================================================== *)

Import Trace Vocabulary TreeBuilder Coverage Cli.

Ltac case_ifs :=
  repeat match goal with
         | |- context [if ?b then _ else _] => destruct b
         | |- context [match ?o with Some _ => _ | None => _ end] => destruct o
         end.

(* ================================================================== *)
(** ** More on access control *)
(* ================================================================== *)

(** X2. For an access spec of level anyone, verifyAccess looks at the body
    text as it is, comments included: it returns VIOLATED when that text
    contains onlyDeployer, ensureOwner or onlyOwner, and VERIFIED otherwise. *)
Theorem X2_verifyAccess_anyone (accessSpec : AccessSpec) (method : Node) :
  toLowerCase (level accessSpec) = "anyone" ->
  let bodyText := getMethodBodyText method in
  status (verifyAccess accessSpec method) =
  if includes bodyText "onlyDeployer" || includes bodyText "ensureOwner" ||
     includes bodyText "onlyOwner"
  then VIOLATED else VERIFIED.
Proof.
  intros Hlevel. cbn zeta. unfold verifyAccess. rewrite Hlevel.
  replace (String.eqb "anyone" "deployer-only") with false by reflexivity.
  replace (String.eqb "anyone" "owner-only") with false by reflexivity.
  replace (String.eqb "anyone" "anyone") with true by reflexivity.
  destruct (includes (getMethodBodyText method) "onlyDeployer" ||
            includes (getMethodBodyText method) "ensureOwner" ||
            includes (getMethodBodyText method) "onlyOwner"); reflexivity.
Qed.

(** X3. verifyAccess returns UNVERIFIED exactly when the level, in lower
    case, is none of deployer-only, owner-only and anyone; and it never
    returns MISSING. *)
Theorem X3_verifyAccess_unknown_level (accessSpec : AccessSpec) (method : Node) :
  let lvl := toLowerCase (level accessSpec) in
  (status (verifyAccess accessSpec method) = UNVERIFIED <->
   lvl <> "deployer-only" /\ lvl <> "owner-only" /\ lvl <> "anyone") /\
  status (verifyAccess accessSpec method) <> MISSING.
Proof.
  cbn zeta. unfold verifyAccess.
  destruct (String.eqb_spec (toLowerCase (level accessSpec)) "deployer-only") as [E1|E1].
  { repeat match goal with
           | |- context [if ?b then _ else _] => destruct b
           end; cbn [status makeResult]; (split; [split; [discriminate | tauto] | discriminate]). }
  destruct (String.eqb_spec (toLowerCase (level accessSpec)) "owner-only") as [E2|E2].
  { repeat match goal with
           | |- context [if ?b then _ else _] => destruct b
           end; cbn [status makeResult]; (split; [split; [discriminate | tauto] | discriminate]). }
  destruct (String.eqb_spec (toLowerCase (level accessSpec)) "anyone") as [E3|E3].
  { repeat match goal with
           | |- context [if ?b then _ else _] => destruct b
           end; cbn [status makeResult]; (split; [split; [discriminate | tauto] | discriminate]). }
  cbn [status makeResult]. split; [tauto | discriminate].
Qed.

(* ================================================================== *)
(** ** State transitions, calls and domain constraints *)
(* ================================================================== *)

(** X4. verifyStateTransition returns UNVERIFIED on every state spec and
    every method. *)
Theorem X4_verifyStateTransition_unverified (stateSpec : StateSpec) (method : Node) :
  status (verifyStateTransition stateSpec method) = UNVERIFIED.
Proof.
  unfold verifyStateTransition. case_ifs; reflexivity.
Qed.

(** X5. verifyCalls returns VIOLATED when the method has no Blockchain.call
    site.  It returns VERIFIED exactly when there is such a site, the body
    mentions the target (or the target without this. and .value), the called
    method name is empty or the body mentions it or a selector, and the
    expectation is not must-succeed or the body checks success or reverts. *)
Theorem X5_verifyCalls_status (callSpec : CallsSpec) (method : Node) :
  let bodyText := getMethodBodyText method in
  let targetField :=
    replaceFirst valueSuffixRe "" (replaceFirst thisPrefixRe "" (target callSpec)) in
  let calledMethodName := replaceFirst argumentListRe "" (calledMethod callSpec) in
  let targetReferenced :=
    includes bodyText (target callSpec) || includes bodyText targetField in
  let selectorRef :=
    includes bodyText calledMethodName || includes bodyText "Selector" ||
    includes bodyText "encodeSelector" in
  let checksSuccess :=
    includes bodyText ".success" || includes bodyText "result.success" ||
    includes bodyText "Revert" in
  (findBlockchainCalls method = [] -> status (verifyCalls callSpec method) = VIOLATED) /\
  (status (verifyCalls callSpec method) = VERIFIED <->
   findBlockchainCalls method <> [] /\ targetReferenced = true /\
   (isEmpty calledMethodName = true \/ selectorRef = true) /\
   (expectation callSpec <> "must-succeed" \/ checksSuccess = true)).
Proof.
  cbn zeta. unfold verifyCalls.
  destruct (findBlockchainCalls method) as [|c cs] eqn:Ec.
  { cbn. split; [reflexivity|]. split; [discriminate | intros [H _]; congruence]. }
  cbn [List.length Nat.eqb]. split; [discriminate|].
  match goal with |- context [negb (?a || ?b)] => destruct (a || b) eqn:Et end; cbn [negb].
  2:{ cbn. split; [discriminate | intros (_ & H & _); discriminate]. }
  match goal with |- context [isEmpty ?n] => destruct (isEmpty n) eqn:En end; cbn [negb andb].
  - destruct (String.eqb_spec (expectation callSpec) "must-succeed") as [Ee|Ee]; cbn [andb].
    + match goal with |- context [negb ?a] => destruct a eqn:Es end; cbn.
      * split; [intros _|reflexivity]. repeat split; auto; discriminate.
      * split; [discriminate|]. intros (_ & _ & _ & [H|H]); [contradiction | discriminate].
    + cbn. split; [intros _|reflexivity]. repeat split; auto; discriminate.
  - match goal with |- context [negb (?a || ?b || ?c)] => destruct (a || b || c) eqn:Esel end;
      cbn [negb].
    2:{ cbn. split; [discriminate|]. intros (_ & _ & [H|H] & _); discriminate. }
    destruct (String.eqb_spec (expectation callSpec) "must-succeed") as [Ee|Ee]; cbn [andb].
    + match goal with |- context [negb ?a] => destruct a eqn:Es end; cbn.
      * split; [intros _|reflexivity]. repeat split; auto; discriminate.
      * split; [discriminate|]. intros (_ & _ & _ & [H|H]); [contradiction | discriminate].
    + cbn. split; [intros _|reflexivity]. repeat split; auto; discriminate.
Qed.

(** X6. verifyOpnetConstraint returns UNVERIFIED for csv-timelocks and for
    every constraint name it does not know; it decides address-two-params
    and no-approve (never UNVERIFIED); and it never returns MISSING. *)
Theorem X6_verifyOpnetConstraint_status (spec : OpnetSpec) (classDecl : Node) :
  let result := status (verifyOpnetConstraint spec classDecl) in
  (constraint spec <> "selectors-sha256" -> constraint spec <> "address-two-params" ->
   constraint spec <> "no-approve" -> result = UNVERIFIED) /\
  (constraint spec = "address-two-params" \/ constraint spec = "no-approve" ->
   result = VERIFIED \/ result = VIOLATED) /\
  result <> MISSING.
Proof.
  cbn zeta. unfold verifyOpnetConstraint.
  destruct (String.eqb_spec (constraint spec) "selectors-sha256") as [E1|E1].
  { rewrite E1. split; [intros H; contradiction|]. split; [intros [H|H]; discriminate|].
    case_ifs; discriminate. }
  destruct (String.eqb_spec (constraint spec) "address-two-params") as [E2|E2].
  { split; [intros _ H; contradiction|]. split; [intros _|]; case_ifs; cbn; auto; discriminate. }
  destruct (String.eqb_spec (constraint spec) "no-approve") as [E3|E3].
  { split; [intros _ _ H; contradiction|]. split; [intros _|]; case_ifs; cbn; auto; discriminate. }
  split; [intros _ _ _; case_ifs; reflexivity|].
  split; [intros [H|H]; contradiction|]. case_ifs; discriminate.
Qed.

(* ================================================================== *)
(** ** What every result carries *)
(* ================================================================== *)

Lemma verifyAccess_made (a : AccessSpec) (method : Node) :
  reportsOn a (verifyAccess a method) /\ status (verifyAccess a method) <> MISSING.
Proof.
  unfold verifyAccess, reportsOn. case_ifs; repeat split; (reflexivity || discriminate).
Qed.

Lemma verifyPrecondition_made (p : PreconditionSpec) (method : Node) :
  reportsOn p (verifyPrecondition p method) /\
  status (verifyPrecondition p method) <> MISSING.
Proof.
  unfold verifyPrecondition, reportsOn. case_ifs; repeat split; (reflexivity || discriminate).
Qed.

Lemma verifyPostcondition_made (p : PostconditionSpec) (method : Node) (stored : JsSet.t) :
  reportsOn p (verifyPostcondition p method stored) /\
  status (verifyPostcondition p method stored) <> MISSING.
Proof.
  unfold verifyPostcondition, verifyCEI, reportsOn.
  case_ifs; repeat split; (reflexivity || discriminate).
Qed.

Lemma verifyCalls_made (c : CallsSpec) (method : Node) :
  reportsOn c (verifyCalls c method) /\ status (verifyCalls c method) <> MISSING.
Proof.
  unfold verifyCalls, reportsOn. case_ifs; repeat split; (reflexivity || discriminate).
Qed.

Lemma verifyStateTransition_made (s : StateSpec) (method : Node) :
  reportsOn s (verifyStateTransition s method) /\
  status (verifyStateTransition s method) <> MISSING.
Proof.
  unfold verifyStateTransition, reportsOn.
  case_ifs; repeat split; (reflexivity || discriminate).
Qed.

Lemma verifyOpnetConstraint_made (o : OpnetSpec) (classDecl : Node) :
  reportsOn o (verifyOpnetConstraint o classDecl) /\
  status (verifyOpnetConstraint o classDecl) <> MISSING.
Proof.
  unfold verifyOpnetConstraint, reportsOn.
  case_ifs; repeat split; (reflexivity || discriminate).
Qed.

Lemma verifyInvariant_made (i : InvariantSpec) (classDecl : Node) (allMethods : JsMap.t Node)
    (r : VerificationResult) :
  In r (verifyInvariant i classDecl allMethods) -> reportsOn i r /\ status r <> MISSING.
Proof.
  unfold verifyInvariant, reportsOn.
  destruct (List.length (inv_fieldReferences i) =? 0).
  { intros [<-|[]]. repeat split; (reflexivity || discriminate). }
  match goal with |- context [List.length ?l =? 0] => destruct (List.length l =? 0) end.
  { intros [<-|[]]. repeat split; (reflexivity || discriminate). }
  intros H. apply in_flat_map in H. destruct H as (name & _ & H).
  unfold invariantResult in H. destruct (JsMap.get name allMethods); [|contradiction].
  destruct (_ || _); destruct H as [<-|[]]; repeat split; (reflexivity || discriminate).
Qed.

(** A result of the loop over the methods reports on a spec of the method
    bundle, and is MISSING only when the class does not declare the method. *)
Lemma verifyMethodSpecs_made (c : ContractSpecs) (allMethods : JsMap.t Node)
    (stored : JsSet.t) (entry : string * MethodSpecs) (r : VerificationResult) :
  In r (verifyMethodSpecs c allMethods stored entry) ->
  exists a, In a (methodAnnotations (snd entry)) /\ reportsOn a r /\
            (JsMap.get (fst entry) allMethods <> None -> status r <> MISSING).
Proof.
  unfold verifyMethodSpecs, missingMethodResults, methodAnnotations.
  destruct (JsMap.get (fst entry) allMethods) as [method|]; intros H;
    rewrite !in_app_iff in H.
  - destruct H as [H|[H|[H|[H|[H|H]]]]].
    + destruct (access (snd entry)) as [a|]; [|contradiction]. destruct H as [<-|[]].
      exists a. destruct (verifyAccess_made a method) as [E N]. rewrite !in_app_iff.
      split; [left; now left | split; [exact E | intros _; exact N]].
    + apply in_map_iff in H. destruct H as (p & <- & Hp). exists p.
      destruct (verifyPrecondition_made p method) as [E N].
      rewrite !in_app_iff.
      split; [right; left; now apply in_map | split; [exact E | intros _; exact N]].
    + apply in_map_iff in H. destruct H as (p & <- & Hp). exists p.
      destruct (verifyPostcondition_made p method stored) as [E N].
      rewrite !in_app_iff.
      split; [do 2 right; left; now apply in_map | split; [exact E | intros _; exact N]].
    + apply in_map_iff in H. destruct H as (p & <- & Hp). exists p.
      destruct (verifyCalls_made p method) as [E N].
      rewrite !in_app_iff.
      split; [do 3 right; left; now apply in_map | split; [exact E | intros _; exact N]].
    + apply in_map_iff in H. destruct H as (p & <- & Hp). exists p.
      destruct (verifyStateTransition_made p method) as [E N].
      rewrite !in_app_iff.
      split; [do 4 right; left; now apply in_map | split; [exact E | intros _; exact N]].
    + apply in_map_iff in H. destruct H as (p & <- & Hp). exists p.
      rewrite !in_app_iff.
      split; [do 5 right; now apply in_map|].
      split; [repeat split | intros _; discriminate].
  - destruct H as [H|[H|[H|H]]].
    + destruct (access (snd entry)) as [a|]; [|contradiction]. destruct H as [<-|[]].
      exists a. rewrite !in_app_iff. split; [left; now left|].
      split; [repeat split | intros N; now contradiction N].
    + apply in_map_iff in H. destruct H as (p & <- & Hp). exists p. rewrite !in_app_iff.
      split; [right; left; now apply in_map|].
      split; [repeat split | intros N; now contradiction N].
    + apply in_map_iff in H. destruct H as (p & <- & Hp). exists p. rewrite !in_app_iff.
      split; [do 2 right; left; now apply in_map|].
      split; [repeat split | intros N; now contradiction N].
    + apply in_map_iff in H. destruct H as (p & <- & Hp). exists p. rewrite !in_app_iff.
      split; [do 3 right; left; now apply in_map|].
      split; [repeat split | intros N; now contradiction N].
Qed.

Lemma verifyContractTransition_made (allMethods : JsMap.t Node)
    (rs : list VerificationResult) (st : StateSpec) (r : VerificationResult) :
  In r (verifyContractTransition allMethods rs st) ->
  In r rs \/
  (reportsOn st r /\
   ((forall n, In n (transition_methods (transition st)) -> JsMap.get n allMethods <> None) ->
    status r <> MISSING)).
Proof.
  unfold verifyContractTransition. destruct (existsb _ rs); [now left|].
  rewrite in_app_iff, in_map_iff. intros [H|(n & <- & Hn)]; [now left|]. right.
  destruct (JsMap.get n allMethods) as [method|] eqn:E.
  - destruct (verifyStateTransition_made st method) as [E1 N].
    split; [exact E1|]. intros _. exact N.
  - split; [repeat split|]. intros H. specialize (H n Hn). contradiction.
Qed.

Lemma fold_verifyContractTransition_made (allMethods : JsMap.t Node) (sts : list StateSpec) :
  forall (rs : list VerificationResult) (r : VerificationResult),
  In r (fold_left (verifyContractTransition allMethods) sts rs) ->
  In r rs \/
  exists st, In st sts /\ reportsOn st r /\
    ((forall n, In n (transition_methods (transition st)) -> JsMap.get n allMethods <> None) ->
     status r <> MISSING).
Proof.
  induction sts as [|st sts IH]; intros rs r H; [now left|].
  cbn [fold_left] in H. apply IH in H. destruct H as [H|(st' & Hin & H)].
  - apply verifyContractTransition_made in H. destruct H as [H|H]; [now left|].
    right. exists st. split; [now left | exact H].
  - right. exists st'. split; [now right | exact H].
Qed.

(** Every result of [verifyContract], with the spec it reports on and the
    condition under which it can be MISSING. *)
Lemma verifyContract_made (c : ContractSpecs) (sf : SourceFile) (r : VerificationResult) :
  In r (results (verifyContract c sf)) ->
  exists a, In a (contractAnnotations c) /\ reportsOn a r /\
    (forall classDecl,
       find (fun cls => String.eqb (getClassName cls) (className c))
         (findClassDeclarations sf) = Some classDecl ->
       (forall entry, In entry (methods c) ->
                      JsMap.get (fst entry) (buildMethodMap classDecl) <> None) ->
       (forall st n, In st (contract_stateTransitions c) ->
                     In n (transition_methods (transition st)) ->
                     JsMap.get n (buildMethodMap classDecl) <> None) ->
       status r <> MISSING).
Proof.
  unfold verifyContract, contractAnnotations.
  destruct (find _ (findClassDeclarations sf)) as [classDecl|]; cbn [results buildReport].
  - intros H. apply fold_verifyContractTransition_made in H.
    destruct H as [H|(st & Hst & Hon & Hm)].
    + rewrite !in_app_iff in H. destruct H as [H|[H|H]].
      * apply in_flat_map in H. destruct H as (i & Hi & H).
        apply verifyInvariant_made in H. destruct H as [Hon N]. exists i.
        rewrite !in_app_iff. split; [left; now apply in_map|].
        split; [exact Hon | intros; exact N].
      * apply in_map_iff in H. destruct H as (o & <- & Ho).
        destruct (verifyOpnetConstraint_made o classDecl) as [Hon N]. exists o.
        rewrite !in_app_iff. split; [right; left; now apply in_map|].
        split; [exact Hon | intros; exact N].
      * apply in_flat_map in H. destruct H as (entry & He & H).
        apply verifyMethodSpecs_made in H. destruct H as (a & Ha & Hon & N). exists a.
        rewrite !in_app_iff.
        split; [do 2 right; left; apply in_flat_map; exists entry; now split|].
        split; [exact Hon|]. intros cd [= <-] Hmeth _. apply N. now apply Hmeth.
    + exists st. rewrite !in_app_iff. split; [do 3 right; now apply in_map|].
      split; [exact Hon|]. intros cd [= <-] _ Htr. apply Hm. intros n Hn. now apply (Htr st n).
  - intros H. apply in_map_iff in H. destruct H as (i & <- & Hi). exists i.
    rewrite !in_app_iff. split; [left; now apply in_map|].
    split; [repeat split | intros cd Hcd; discriminate].
Qed.

(** X7. Every result of verifyContract reports on a spec object of the
    contract record, and carries the file and the line of that spec. *)
Theorem X7_results_report_on_contract_specs (c : ContractSpecs) (sf : SourceFile)
    (r : VerificationResult) :
  In r (results (verifyContract c sf)) ->
  In (spec r) (contractAnnotations c) /\
  result_file r = file (spec r) /\ result_line r = line (spec r).
Proof.
  intros H. apply verifyContract_made in H. destruct H as (a & Ha & (E1 & E2 & E3) & _).
  rewrite E1, E2, E3. auto.
Qed.

(** X8. When the file declares the class of the contract, and the class
    declares every method that the contract has specs for and every method
    that a contract-level state transition names, no result is MISSING. *)
Theorem X8_no_missing_when_declared (c : ContractSpecs) (sf : SourceFile) (classDecl : Node) :
  find (fun cls => String.eqb (getClassName cls) (className c))
    (findClassDeclarations sf) = Some classDecl ->
  (forall entry, In entry (methods c) ->
                 JsMap.get (fst entry) (buildMethodMap classDecl) <> None) ->
  (forall st n, In st (contract_stateTransitions c) ->
                In n (transition_methods (transition st)) ->
                JsMap.get n (buildMethodMap classDecl) <> None) ->
  countStatus MISSING (results (verifyContract c sf)) = 0 /\
  missing (summary (verifyContract c sf)) = 0.
Proof.
  intros Hfind Hmeth Htr.
  assert (Hcount : countStatus MISSING (results (verifyContract c sf)) = 0).
  { unfold countStatus.
    assert (Hall : forall r, In r (results (verifyContract c sf)) -> status r <> MISSING).
    { intros r Hr. apply verifyContract_made in Hr. destruct Hr as (a & _ & _ & N).
      now apply (N classDecl). }
    induction (results (verifyContract c sf)) as [|r rs IH]; [reflexivity|].
    cbn [filter]. destruct (status r) eqn:E; cbn [status_eqb];
      try (apply IH; intros r' Hr'; apply Hall; now right).
    exfalso. apply (Hall r); [now left | exact E]. }
  split; [exact Hcount|].
  assert (E : summary (verifyContract c sf) =
              summary (buildReport c (results (verifyContract c sf))))
    by (f_equal; apply verifyContract_is_report).
  rewrite E, buildReport_summary. exact Hcount.
Qed.

(* ================================================================== *)
(** ** Methods that are missing or have no body *)
(* ================================================================== *)

(** X9. For a method that the class does not declare, the access spec, the
    preconditions, the postconditions and the calls specs each get one
    MISSING result; the state transitions and the temporal specs of the
    method get none. *)
Theorem X9_undeclared_method_results (c : ContractSpecs) (allMethods : JsMap.t Node)
    (stored : JsSet.t) (entry : string * MethodSpecs) :
  JsMap.get (fst entry) allMethods = None ->
  let rs := verifyMethodSpecs c allMethods stored entry in
  (forall r, In r rs -> status r = MISSING) /\
  List.length rs + List.length (stateTransitions (snd entry)) +
    List.length (temporal (snd entry)) = methodSpecCount (snd entry).
Proof.
  intros Hget. cbn zeta. unfold verifyMethodSpecs. rewrite Hget.
  unfold missingMethodResults, methodSpecCount. split.
  - intros r. rewrite !in_app_iff, !in_map_iff.
    intros [H|[(p & <- & _)|[(p & <- & _)|(p & <- & _)]]]; try reflexivity.
    destruct (access (snd entry)); [|contradiction]. now destruct H as [<-|[]].
  - rewrite !length_app, !length_map. destruct (access (snd entry)); cbn [List.length]; lia.
Qed.

Lemma bodiless_text (method : Node) : body method = None -> getMethodBodyText method = "".
Proof. intros H. unfold getMethodBodyText. now rewrite H. Qed.

(** X10. On a method without a body (an abstract method or an overload
    signature) every CEI spec is VERIFIED, every calls spec is VIOLATED,
    every precondition is VIOLATED, and an access spec of level
    deployer-only or owner-only is VIOLATED. *)
Theorem X10_method_without_body (method : Node) :
  body method = None ->
  (forall spec stored, status (verifyCEI spec method stored) = VERIFIED) /\
  (forall callSpec, status (verifyCalls callSpec method) = VIOLATED) /\
  (forall preSpec, status (verifyPrecondition preSpec method) = VIOLATED) /\
  (forall accessSpec,
     toLowerCase (level accessSpec) = "deployer-only" \/
     toLowerCase (level accessSpec) = "owner-only" ->
     status (verifyAccess accessSpec method) = VIOLATED).
Proof.
  intros Hbody. pose proof (bodiless_text method Hbody) as Htext.
  split; [|split; [|split]].
  - intros spec stored. unfold verifyCEI, findBlockchainCalls. rewrite Hbody. reflexivity.
  - intros callSpec. unfold verifyCalls, findBlockchainCalls. rewrite Hbody. reflexivity.
  - intros preSpec. unfold verifyPrecondition, findGuardChecks, statusHelper.
    rewrite Hbody, Htext. cbn [find].
    replace (find (fun helper => includes "" helper) guardHelpers) with (@None string)
      by reflexivity.
    replace (includes "" "ensureOwner" || includes "" "onlyDeployer") with false by reflexivity.
    replace (includes "" "ensureActive") with false by reflexivity.
    replace (includes "" "Revert") with false by reflexivity.
    rewrite andb_false_r.
    repeat match goal with
           | |- context [if ?b then _ else _] => destruct b
           end; reflexivity.
  - intros accessSpec [H|H]; unfold verifyAccess; rewrite H, Htext; reflexivity.
Qed.

(* ================================================================== *)
(** ** State writes and stored fields *)
(* ================================================================== *)

(** X11. Every state write that findStateWrites reports is on a field of
    the stored-field set it was given, and sits at the start offset of a
    node of the method body. *)
Theorem X11_state_writes_are_stored (method : Node) (storedFields : JsSet.t)
    (w : StateWrite) :
  In w (findStateWrites method storedFields) ->
  JsSet.has (write_field w) storedFields = true /\
  exists b node, body method = Some b /\ In node (walkTree b) /\ getStart node = write_pos w.
Proof.
  unfold findStateWrites. destruct (body method) as [b|]; [|intros []].
  intros H. apply in_flat_map in H. destruct H as (node & Hnode & H).
  assert (Hw : JsSet.has (write_field w) storedFields = true /\ getStart node = write_pos w).
  { destruct node as [p t e args|p t l op r|p t e th el|p t e|p t ss|p t n hd ms
                      |p t n hd bd|p t n hd ty ini|p t cs]; try contradiction.
    - destruct (includes (getText e) "this." && endsWith (getText e) ".set"); [|contradiction].
      destruct (exec setFieldRe (getText e)) as [m|]; [|contradiction].
      destruct (JsSet.has (group 1 m) storedFields) eqn:E; [|contradiction].
      destruct H as [<-|[]]. split; [exact E | reflexivity].
    - destruct op; [|contradiction].
      destruct (endsWith (getText l) ".value"); [|contradiction].
      destruct (exec valueFieldRe (getText l)) as [m|]; [|contradiction].
      destruct (JsSet.has (group 1 m) storedFields) eqn:E; [|contradiction].
      destruct H as [<-|[]]. split; [exact E | reflexivity]. }
  split; [apply Hw|]. exists b, node. repeat split; [exact Hnode | apply Hw].
Qed.

(* ================================================================== *)
(** ** The method map and the stored-field map *)
(* ================================================================== *)

Lemma get_set_same {V : Type} (k : string) (v : V) (m : JsMap.t V) :
  JsMap.get k (JsMap.set k v m) = Some v.
Proof.
  induction m as [|[k' v'] m IH]; cbn [JsMap.set JsMap.get].
  - now rewrite String.eqb_refl.
  - destruct (String.eqb k' k) eqn:E; cbn [JsMap.get].
    + now rewrite String.eqb_refl.
    + now rewrite E.
Qed.

Lemma get_set_other {V : Type} (k k0 : string) (v : V) (m : JsMap.t V) :
  k <> k0 -> JsMap.get k0 (JsMap.set k v m) = JsMap.get k0 m.
Proof.
  intros Hne. induction m as [|[k' v'] m IH]; cbn [JsMap.set JsMap.get].
  - apply String.eqb_neq in Hne. now rewrite Hne.
  - destruct (String.eqb k' k) eqn:E; cbn [JsMap.get].
    + apply String.eqb_eq in E. subst k'. apply String.eqb_neq in Hne. now rewrite Hne.
    + destruct (String.eqb k' k0); [reflexivity | exact IH].
Qed.

Lemma get_set (k k0 : string) {V : Type} (v : V) (m : JsMap.t V) :
  JsMap.get k0 (JsMap.set k v m) = if String.eqb k k0 then Some v else JsMap.get k0 m.
Proof.
  destruct (String.eqb_spec k k0) as [->|Hne];
    [apply get_set_same | now apply get_set_other].
Qed.

Lemma keys_set {V : Type} (k k0 : string) (v : V) (m : JsMap.t V) :
  In k0 (JsMap.keys (JsMap.set k v m)) <-> k0 = k \/ In k0 (JsMap.keys m).
Proof.
  unfold JsMap.keys. induction m as [|[k' v'] m IH]; cbn [JsMap.set map fst In].
  - intuition.
  - destruct (String.eqb_spec k' k) as [->|Hne]; cbn [map fst In]; [intuition|].
    rewrite IH. intuition.
Qed.

Lemma keys_set_nodup {V : Type} (k : string) (v : V) (m : JsMap.t V) :
  NoDup (JsMap.keys m) -> NoDup (JsMap.keys (JsMap.set k v m)).
Proof.
  unfold JsMap.keys. induction m as [|[k' v'] m IH]; cbn [JsMap.set map fst]; intros H.
  - constructor; [intros [] | constructor].
  - destruct (String.eqb_spec k' k) as [->|Hne]; cbn [map fst]; [exact H|].
    inversion H as [|? ? Hnotin Hnd]; subst. constructor; [|now apply IH].
    intros Hin. apply (keys_set k k' v m) in Hin. destruct Hin as [->|Hin]; [now apply Hne|].
    now apply Hnotin.
Qed.

Lemma find_snoc {A : Type} (f : A -> bool) (l : list A) (x : A) :
  find f (l ++ [x]) =
  match find f l with Some y => Some y | None => if f x then Some x else None end.
Proof.
  induction l as [|y l IH]; cbn [app find]; [reflexivity|].
  destruct (f y); [reflexivity | exact IH].
Qed.

Lemma fold_set_get (n : string) (l : list Node) : forall acc : JsMap.t Node,
  JsMap.get n (fold_left (fun m method => JsMap.set (getMethodName method) method m) l acc) =
  match find (fun m => String.eqb (getMethodName m) n) (rev l) with
  | Some m => Some m
  | None => JsMap.get n acc
  end.
Proof.
  induction l as [|x l IH]; intros acc; [reflexivity|].
  cbn [fold_left rev]. rewrite IH, find_snoc, get_set.
  destruct (find _ (rev l)); [reflexivity|].
  destruct (String.eqb (getMethodName x) n); reflexivity.
Qed.

Lemma fold_set_nodup (l : list Node) : forall acc : JsMap.t Node,
  NoDup (JsMap.keys acc) ->
  NoDup (JsMap.keys
           (fold_left (fun m method => JsMap.set (getMethodName method) method m) l acc)).
Proof.
  induction l as [|x l IH]; intros acc H; [exact H|].
  cbn [fold_left]. apply IH. now apply keys_set_nodup.
Qed.

(** X12. The method map of a class has one entry per method name, and the
    entry of a name is the last method of the class with that name: of two
    declarations of the same name, the specs are checked against the later
    one. *)
Theorem X12_method_map_last_wins (classDecl : Node) (n : string) :
  JsMap.get n (buildMethodMap classDecl) =
    find (fun m => String.eqb (getMethodName m) n) (rev (getClassMethods classDecl)) /\
  NoDup (JsMap.keys (buildMethodMap classDecl)).
Proof.
  unfold buildMethodMap. split.
  - rewrite fold_set_get. now destruct (find _ _).
  - apply fold_set_nodup. constructor.
Qed.


(** X13. A name is a key of the stored-field map exactly when the class has
    a property declaration of that name whose type text contains, or whose
    initializer constructs, one of the stored types; the map has one entry
    per name. *)
Theorem X13_detectStoredFields_keys (classDecl : Node) (name : string) :
  (In name (JsMap.keys (detectStoredFields classDecl)) <->
   exists p t hd ty ini,
     In (PropertyDeclaration p t name hd ty ini) (members classDecl) /\
     storedTypeOf ty ini <> None) /\
  NoDup (JsMap.keys (detectStoredFields classDecl)).
Proof.
  unfold detectStoredFields.
  match goal with |- context [fold_left ?f _ _] => set (step := f) end.
  assert (Hkeys : forall ms acc,
            In name (JsMap.keys (fold_left step ms acc)) <->
            In name (JsMap.keys acc) \/
            exists p t hd ty ini,
              In (PropertyDeclaration p t name hd ty ini) ms /\ storedTypeOf ty ini <> None).
  { induction ms as [|m ms IH]; intros acc; cbn [fold_left].
    - split; [now left | intros [H|(p & t & hd & ty & ini & [] & _)]; exact H].
    - rewrite IH. split.
      + intros [H|(p & t & hd & ty & ini & Hin & Hst)].
        * destruct m as [| | | | | | |p t n hd ty ini|]; try (now left).
          unfold step in H. fold (storedTypeOf ty ini) in H.
          destruct (storedTypeOf ty ini) as [st|] eqn:E; [|now left].
          apply keys_set in H. destruct H as [->|H]; [|now left].
          right. exists p, t, hd, ty, ini. split; [now left | rewrite E; discriminate].
        * right. exists p, t, hd, ty, ini. split; [now right | exact Hst].
      + intros [H|(p & t & hd & ty & ini & [Hin|Hin] & Hst)].
        * left. destruct m as [| | | | | | |p t n hd ty ini|]; try exact H.
          unfold step. fold (storedTypeOf ty ini).
          destruct (storedTypeOf ty ini); [|exact H]. apply keys_set. now right.
        * left. subst m. unfold step. fold (storedTypeOf ty ini).
          destruct (storedTypeOf ty ini); [|contradiction]. apply keys_set. now left.
        * right. exists p, t, hd, ty, ini. now split. }
  assert (Hnodup : forall ms acc,
            NoDup (JsMap.keys acc) -> NoDup (JsMap.keys (fold_left step ms acc))).
  { induction ms as [|m ms IH]; intros acc H; [exact H|].
    cbn [fold_left]. apply IH.
    destruct m as [| | | | | | |p t n hd ty ini|]; try exact H.
    unfold step. destruct (find _ storedTypes); [now apply keys_set_nodup | exact H]. }
  split.
  - rewrite Hkeys. split; [intros [[]|H]; exact H | now right].
  - apply Hnodup. constructor.
Qed.

(* ================================================================== *)
(** ** Field references *)
(* ================================================================== *)

Lemma arrayIncludes_In (l : list string) (x : string) :
  arrayIncludes l x = true <-> In x l.
Proof.
  unfold arrayIncludes. rewrite existsb_exists. split.
  - intros (y & Hy & E). apply String.eqb_eq in E. now subst.
  - intros H. exists x. split; [exact H | apply String.eqb_refl].
Qed.

Lemma uniqueFrom_spec (l : list string) : forall seen x,
  In x (uniqueFrom seen l) <-> In x l /\ ~ In x seen.
Proof.
  induction l as [|y l IH]; intros seen x; cbn [uniqueFrom].
  - intuition.
  - destruct (arrayIncludes seen y) eqn:E.
    + apply arrayIncludes_In in E. rewrite IH. cbn [In]. intuition; subst; contradiction.
    + assert (Hy : ~ In y seen).
      { intros H. apply arrayIncludes_In in H. congruence. }
      cbn [In]. rewrite IH. cbn [In].
      destruct (String.eqb_spec y x) as [->|Hne]; intuition.
Qed.

Lemma uniqueFrom_nodup (l : list string) : forall seen, NoDup (uniqueFrom seen l).
Proof.
  induction l as [|y l IH]; intros seen; cbn [uniqueFrom]; [constructor|].
  destruct (arrayIncludes seen y); [apply IH|].
  constructor; [|apply IH]. intros H. apply uniqueFrom_spec in H. destruct H as [_ H].
  apply H. now left.
Qed.

(** X14. extractFieldReferences returns every field name once: the result
    has no duplicates and holds exactly the names that the pattern
    this.NAME.value captures in the expression. *)
Theorem X14_extractFieldReferences_deduplicates (expr : string) :
  NoDup (extractFieldReferences expr) /\
  (forall x, In x (extractFieldReferences expr) <->
             In x (map (group 1) (execAll valueFieldRe expr))).
Proof.
  unfold extractFieldReferences, unique. split; [apply uniqueFrom_nodup|].
  intros x. rewrite uniqueFrom_spec. intuition.
Qed.

(* ================================================================== *)
(** ** The spec bundle of a method *)
(* ================================================================== *)

Lemma lastOf_cons {A : Type} (x : A) (l : list A) :
  lastOf (x :: l) = match lastOf l with Some y => Some y | None => Some x end.
Proof.
  unfold lastOf. cbn [rev]. destruct (rev l); reflexivity.
Qed.

Lemma fold_addAnnotation_fields (methodName : string) (annotations : list SpecAnnotation) :
  forall specs,
  let built := fold_left (addAnnotation methodName) annotations specs in
  Types.methodName built = Types.methodName specs /\
  List.length (preconditions built) =
    List.length (preconditions specs) +
    List.length (tagged Pre annotations) + List.length (tagged Requires annotations) /\
  List.length (postconditions built) =
    List.length (postconditions specs) +
    List.length (tagged Post annotations) + List.length (tagged Ensures annotations) /\
  List.length (calls built) =
    List.length (calls specs) + List.length (tagged Calls annotations) /\
  List.length (stateTransitions built) =
    List.length (stateTransitions specs) + List.length (tagged State annotations) /\
  List.length (temporal built) =
    List.length (temporal specs) + List.length (tagged Temporal annotations) /\
  access built =
    match lastOf (tagged Access annotations) with
    | Some a => Some (mkAccess (withTag a Access) (trim (expression a)) methodName)
    | None => access specs
    end.
Proof.
  induction annotations as [|ann rest IH]; intros specs; cbn zeta.
  - cbn. repeat split; lia.
  - cbn [fold_left]. specialize (IH (addAnnotation methodName specs ann)). cbn zeta in IH.
    destruct IH as (H0 & H1 & H2 & H3 & H4 & H5 & H6).
    rewrite H0, H1, H2, H3, H4, H5, H6. clear.
    unfold tagged. cbn [filter]. unfold addAnnotation.
    destruct (tag ann) eqn:E; cbn [tag_eqb List.length];
      cbn [Types.methodName preconditions postconditions calls stateTransitions temporal
           access];
      rewrite ?length_app; cbn [List.length];
      repeat split; try lia;
      try (fold (tagged Access rest); rewrite ?lastOf_cons;
           destruct (lastOf (tagged Access rest)); reflexivity).
Qed.

(** X15. buildMethodSpecs keeps one spec per annotation tagged pre,
    requires, post, ensures, calls, state or temporal; of several access
    annotations only the last one is kept; annotations tagged invariant or
    opnet are dropped. *)
Theorem X15_buildMethodSpecs_shape (methodName : string)
    (annotations : list SpecAnnotation) :
  let built := buildMethodSpecs methodName annotations in
  Types.methodName built = methodName /\
  List.length (preconditions built) =
    List.length (tagged Pre annotations) + List.length (tagged Requires annotations) /\
  List.length (postconditions built) =
    List.length (tagged Post annotations) + List.length (tagged Ensures annotations) /\
  List.length (calls built) = List.length (tagged Calls annotations) /\
  List.length (stateTransitions built) = List.length (tagged State annotations) /\
  List.length (temporal built) = List.length (tagged Temporal annotations) /\
  access built =
    option_map (fun a => mkAccess (withTag a Access) (trim (expression a)) methodName)
      (lastOf (tagged Access annotations)).
Proof.
  cbn zeta. unfold buildMethodSpecs.
  destruct (fold_addAnnotation_fields methodName annotations (emptyMethodSpecs methodName))
    as (H0 & H1 & H2 & H3 & H4 & H5 & H6).
  rewrite H0, H1, H2, H3, H4, H5, H6. cbn.
  repeat split.
Qed.

(* ================================================================== *)
(** ** Checks-Effects-Interactions without stored fields *)
(* ================================================================== *)

Lemma findStateWrites_stored (method : Node) (storedFields : JsSet.t) (w : StateWrite) :
  In w (findStateWrites method storedFields) ->
  JsSet.has (write_field w) storedFields = true.
Proof.
  unfold findStateWrites. destruct (body method) as [b|]; [|intros []].
  intros H. apply in_flat_map in H. destruct H as (node & Hnode & H).
  destruct node as [p t e args|p t l op r|p t e th el|p t e|p t ss|p t n hd ms
                    |p t n hd bd|p t n hd ty ini|p t cs]; try contradiction.
  - destruct (includes (getText e) "this." && endsWith (getText e) ".set"); [|contradiction].
    destruct (exec setFieldRe (getText e)) as [m|]; [|contradiction].
    destruct (JsSet.has (group 1 m) storedFields) eqn:E; [|contradiction].
    now destruct H as [<-|[]].
  - destruct op; [|contradiction].
    destruct (endsWith (getText l) ".value"); [|contradiction].
    destruct (exec valueFieldRe (getText l)) as [m|]; [|contradiction].
    destruct (JsSet.has (group 1 m) storedFields) eqn:E; [|contradiction].
    now destruct H as [<-|[]].
Qed.

(** X16. In a class without any stored field, a CEI postcondition is
    VERIFIED on every method, whatever the method writes and calls. *)
Theorem X16_cei_without_stored_fields (classDecl : Node) (spec : PostconditionSpec)
    (method : Node) :
  detectStoredFields classDecl = [] -> isCEI spec = true ->
  status (verifyPostcondition spec method (JsMap.keys (detectStoredFields classDecl))) =
  VERIFIED.
Proof.
  intros Hstored Hcei. unfold verifyPostcondition. rewrite Hcei, Hstored.
  unfold verifyCEI. cbn [JsMap.keys map].
  destruct (findStateWrites method []) as [|w ws] eqn:E.
  - cbn [List.length Nat.eqb]. now destruct (List.length (findBlockchainCalls method) =? 0).
  - assert (H : In w (findStateWrites method [])) by (rewrite E; now left).
    apply findStateWrites_stored in H. discriminate.
Qed.

(* ================================================================== *)
(** ** Coverage *)
(* ================================================================== *)

Lemma fold_coverMethod (contract : ContractSpecs) (ms : list Node) : forall cov : CoverageInfo,
  let cov' := fold_left (coverMethod contract) ms cov in
  totalMethods cov' = totalMethods cov + List.length (filter counted ms) /\
  specifiedMethods cov' =
    specifiedMethods cov +
    List.length
      (filter (fun m => counted m &&
                        match JsMap.get (getMethodName m) (methods contract) with
                        | Some _ => true
                        | None => false
                        end) ms) /\
  map name (coverage_methods cov') =
    (map name (coverage_methods cov) ++ map getMethodName (filter counted ms))%list /\
  totalFields cov' = totalFields cov /\
  invariantCoveredFields cov' = invariantCoveredFields cov.
Proof.
  induction ms as [|m ms IH]; intros cov; cbn zeta.
  - cbn. rewrite app_nil_r. repeat split; lia.
  - cbn [fold_left filter]. specialize (IH (coverMethod contract cov m)). cbn zeta in IH.
    destruct IH as (H1 & H2 & H3 & H4 & H5). rewrite H1, H2, H3, H4, H5. clear.
    unfold coverMethod, counted.
    destruct (String.eqb (getMethodName m) "constructor" ||
              String.eqb (getMethodName m) "execute"); cbn [negb andb].
    + repeat split; reflexivity.
    + cbn [totalMethods specifiedMethods coverage_methods totalFields invariantCoveredFields].
      rewrite map_app, <- app_assoc. unfold methodCoverage.
      destruct (JsMap.get (getMethodName m) (methods contract));
        cbn [List.length map name app]; repeat split; lia.
Qed.

(** X17. When the class is found, computeCoverage counts every method of
    the class except those named constructor or execute (overloads of one
    name are counted one by one) and lists them in source order; the
    specified methods are those among them with an entry in the contract's
    method map, so their number never exceeds the total. *)
Theorem X17_computeCoverage_counts (contract : ContractSpecs) (sourceFile : SourceFile)
    (classDecl : Node) :
  find (fun c => String.eqb (getClassName c) (className contract))
    (findClassDeclarations sourceFile) = Some classDecl ->
  let cov := computeCoverage contract sourceFile in
  totalMethods cov = List.length (filter counted (getClassMethods classDecl)) /\
  map name (coverage_methods cov) =
    map getMethodName (filter counted (getClassMethods classDecl)) /\
  specifiedMethods cov =
    List.length
      (filter (fun m => counted m &&
                        match JsMap.get (getMethodName m) (methods contract) with
                        | Some _ => true
                        | None => false
                        end) (getClassMethods classDecl)) /\
  specifiedMethods cov <= totalMethods cov /\
  totalFields cov = List.length (detectStoredFields classDecl) /\
  invariantCoveredFields cov = List.length (coveredFields contract).
Proof.
  intros Hfind. cbn zeta. unfold computeCoverage. rewrite Hfind.
  match goal with
  | |- context [fold_left _ _ ?c] =>
      destruct (fold_coverMethod contract (getClassMethods classDecl) c)
        as (H1 & H2 & H3 & H4 & H5)
  end.
  rewrite H1, H2, H3, H4, H5. cbn. repeat split.
  clear. induction (getClassMethods classDecl) as [|m ms IH]; [cbn; lia|].
  cbn [filter]. destruct (counted m); cbn [andb List.length]; [|exact IH].
  destruct (JsMap.get _ _); cbn [List.length]; lia.
Qed.

(* ================================================================== *)
(** ** The exit code of the verify command *)
(* ================================================================== *)

Lemma countStatus_pos (st : VerificationStatus) (rs : list VerificationResult) :
  (0 <? countStatus st rs) = true <-> exists r, In r rs /\ status r = st.
Proof.
  unfold countStatus. rewrite length_pos_iff_in. split.
  - intros (r & Hr). apply filter_In in Hr. destruct Hr as [Hin E]. exists r. split; [exact Hin|].
    destruct (status r), st; (reflexivity || discriminate).
  - intros (r & Hin & E). exists r. apply filter_In. split; [exact Hin|].
    rewrite E. now destruct st.
Qed.

Lemma verifyContract_violated (c : ContractSpecs) (sf : SourceFile) :
  violated (summary (verifyContract c sf)) =
  countStatus VIOLATED (results (verifyContract c sf)).
Proof.
  assert (E : summary (verifyContract c sf) =
              summary (buildReport c (results (verifyContract c sf))))
    by (f_equal; apply verifyContract_is_report).
  rewrite E, buildReport_summary. reflexivity.
Qed.

Lemma verifyAll_some (load : string -> option SourceFile) (contracts : list ContractSpecs) :
  (forall c, In c contracts -> load (contract_file c) <> None) ->
  exists reports,
    verifyAll load contracts = Some reports /\
    forall report, In report reports <->
      exists c sf, In c contracts /\ load (contract_file c) = Some sf /\
                   report = verifyContract c sf.
Proof.
  induction contracts as [|c cs IH]; intros Hload; cbn [verifyAll].
  - exists []. split; [reflexivity|]. intros report. split; [intros [] |].
    intros (c & sf & [] & _).
  - destruct (load (contract_file c)) as [sf|] eqn:E.
    2:{ exfalso. apply (Hload c); [now left | exact E]. }
    destruct IH as (reports & Hall & Hin); [intros c' Hc'; apply Hload; now right|].
    rewrite Hall. exists (verifyContract c sf :: reports). split; [reflexivity|].
    intros report. cbn [In]. rewrite Hin. split.
    + intros [<-|(c' & sf' & Hc' & Hl & ->)].
      * exists c, sf. auto.
      * exists c', sf'. auto.
    + intros (c' & sf' & [<-|Hc'] & Hl & ->).
      * left. congruence.
      * right. exists c', sf'. auto.
Qed.

Lemma verifyAll_none (load : string -> option SourceFile) (contracts : list ContractSpecs) :
  verifyAll load contracts = None ->
  exists c, In c contracts /\ load (contract_file c) = None.
Proof.
  induction contracts as [|c cs IH]; cbn [verifyAll]; [discriminate|].
  destruct (load (contract_file c)) as [sf|] eqn:E.
  - destruct (verifyAll load cs) as [reports|]; [discriminate|].
    intros _. destruct (IH eq_refl) as (c' & Hc' & Hl). exists c'. split; [now right | exact Hl].
  - intros _. exists c. split; [now left | exact E].
Qed.

(** X18. The verify command exits with 0 when there is no contract; with 2
    when the file of some contract cannot be loaded; otherwise with 1 when
    some result of some contract is VIOLATED, and with 0 when none is. *)
Theorem X18_verify_exit_code (load : string -> option SourceFile)
    (contracts : list ContractSpecs) :
  let code := verifyExitCode load contracts in
  let violation :=
    exists c sf r, In c contracts /\ load (contract_file c) = Some sf /\
                   In r (results (verifyContract c sf)) /\ status r = VIOLATED in
  (contracts = [] -> code = 0) /\
  ((exists c, In c contracts /\ load (contract_file c) = None) -> code = 2) /\
  ((forall c, In c contracts -> load (contract_file c) <> None) ->
   (code = 1 <-> violation) /\ (~ violation -> code = 0)).
Proof.
  cbn zeta. unfold verifyExitCode. split; [intros ->; reflexivity|]. split.
  - intros (c & Hc & Hl). destruct contracts as [|c0 cs]; [contradiction|].
    cbn [List.length Nat.eqb].
    destruct (verifyAll load (c0 :: cs)) as [reports|] eqn:E; [|reflexivity].
    exfalso. clear -Hc Hl E. revert reports E.
    induction (c0 :: cs) as [|c1 l IH]; [contradiction|]. cbn [verifyAll]. intros reports.
    destruct Hc as [->|Hc].
    + rewrite Hl. discriminate.
    + destruct (load (contract_file c1)); [|discriminate].
      destruct (verifyAll load l) as [reports'|]; [|discriminate].
      intros _. now apply (IH Hc reports').
  - intros Hload. destruct (verifyAll_some load contracts Hload) as (reports & Hall & Hin).
    rewrite Hall.
    assert (Hiff : existsb (fun r => 0 <? violated (summary r)) reports = true <->
                   exists c sf r, In c contracts /\ load (contract_file c) = Some sf /\
                                  In r (results (verifyContract c sf)) /\ status r = VIOLATED).
    { rewrite existsb_exists. split.
      - intros (report & Hrep & Hv). apply Hin in Hrep. destruct Hrep as (c & sf & Hc & Hl & ->).
        rewrite verifyContract_violated in Hv. apply countStatus_pos in Hv.
        destruct Hv as (r & Hr & Hs). exists c, sf, r. auto.
      - intros (c & sf & r & Hc & Hl & Hr & Hs). exists (verifyContract c sf). split.
        + apply Hin. exists c, sf. auto.
        + rewrite verifyContract_violated. apply countStatus_pos. exists r. auto. }
    destruct contracts as [|c0 cs].
    { cbn [List.length Nat.eqb]. split; [split; [discriminate|] | reflexivity].
      intros (c & _ & _ & [] & _). }
    cbn [List.length Nat.eqb].
    destruct (existsb (fun r => 0 <? violated (summary r)) reports) eqn:E.
    + split; [split; [intros _; now apply Hiff | reflexivity]|].
      intros Hn. exfalso. apply Hn. now apply Hiff.
    + split; [|reflexivity]. split; [discriminate|]. intros H. apply Hiff in H. discriminate.
Qed.

(* ================================================================== *)
(** ** Patterns that cannot match *)
(* ================================================================== *)

Section TailClosed.
Variable P : string -> Prop.
Hypothesis P_tail : forall c s, P (String c s) -> P s.

Lemma greedyLoop_ext_on {A : Type}
    (atom : string -> captures -> (string -> captures -> option A) -> option A) :
  (forall s caps k k', P s -> (forall s' caps', P s' -> k s' caps' = k' s' caps') ->
                       atom s caps k = atom s caps k') ->
  forall (k k' : string -> captures -> option A),
  (forall s' caps', P s' -> k s' caps' = k' s' caps') ->
  forall fuel s caps, P s -> greedyLoop atom k fuel s caps = greedyLoop atom k' fuel s caps.
Proof.
  intros Hatom k k' H. induction fuel as [|fuel IH]; intros s caps Hs; cbn [greedyLoop].
  - now apply H.
  - rewrite (H s caps Hs).
    erewrite Hatom; [reflexivity | exact Hs|].
    intros s' caps' Hs'. cbv beta.
    destruct (String.length s' <? String.length s); [now apply IH | reflexivity].
Qed.

Lemma lazyLoop_ext_on {A : Type}
    (atom : string -> captures -> (string -> captures -> option A) -> option A) :
  (forall s caps k k', P s -> (forall s' caps', P s' -> k s' caps' = k' s' caps') ->
                       atom s caps k = atom s caps k') ->
  forall (k k' : string -> captures -> option A),
  (forall s' caps', P s' -> k s' caps' = k' s' caps') ->
  forall fuel s caps, P s -> lazyLoop atom k fuel s caps = lazyLoop atom k' fuel s caps.
Proof.
  intros Hatom k k' H. induction fuel as [|fuel IH]; intros s caps Hs; cbn [lazyLoop].
  - now apply H.
  - rewrite (H s caps Hs). destruct (k' s caps); [reflexivity|].
    apply Hatom; [exact Hs|]. intros s' caps' Hs'.
    destruct (String.length s' <? String.length s); [now apply IH | reflexivity].
Qed.

(** A match calls its continuation on suffixes of its input only: two
    continuations that agree on a tail-closed set of texts give the same
    result on a text of the set. *)
Lemma run_ext_on (r : regex) : forall (A : Type) (len0 : nat) (s : string) (caps : captures)
    (k k' : string -> captures -> option A),
  P s -> (forall s' caps', P s' -> k s' caps' = k' s' caps') ->
  run r len0 s caps k = run r len0 s caps k'.
Proof.
  induction r as [|p|r1 IH1 r2 IH2|r1 IH1 r2 IH2|r IH|r IH|i r IH| | |];
    intros A len0 s caps k k' Hs H; cbn [run].
  - now apply H.
  - destruct s as [|c s]; [reflexivity|]. destruct (p c); [|reflexivity].
    apply H. now apply (P_tail c).
  - apply IH1; [exact Hs|]. intros s1 caps1 H1. now apply IH2.
  - now rewrite (IH1 A len0 s caps k k' Hs H), (IH2 A len0 s caps k k' Hs H).
  - apply greedyLoop_ext_on; [|exact H|exact Hs]. intros. now apply IH.
  - apply lazyLoop_ext_on; [|exact H|exact Hs]. intros. now apply IH.
  - apply IH; [exact Hs|]. intros s' caps' Hs'. now apply H.
  - destruct (String.length s =? len0); [now apply H | reflexivity].
  - destruct s; [now apply H | reflexivity].
  - destruct s as [|c s]; [now apply H|].
    destruct (isLineTerminator c); [now apply H | reflexivity].
Qed.

End TailClosed.

Lemma lacks_tail (hit : ascii -> bool) (c : ascii) (s : string) :
  lacks hit (String c s) = true -> lacks hit s = true.
Proof. cbn [lacks]. intros H. now apply andb_true_iff in H. Qed.

(** A pattern that needs a character of some kind fails on a text without
    any such character, whatever follows the match. *)
Lemma needs_fails (hit : ascii -> bool) (r : regex) :
  Needs hit r ->
  forall (A : Type) (len0 : nat) (s : string) (caps : captures)
         (k : string -> captures -> option A),
  lacks hit s = true -> run r len0 s caps k = None.
Proof.
  induction 1 as [p Hp|r1 r2 _ IH|r1 r2 _ IH|r1 r2 _ IH1 _ IH2|i r _ IH];
    intros A len0 s caps k Hs; cbn [run].
  - destruct s as [|c s]; [reflexivity|]. destruct (p c) eqn:E; [|reflexivity].
    cbn [lacks] in Hs. apply andb_true_iff in Hs. destruct Hs as [Hc _].
    rewrite (Hp c E) in Hc. discriminate.
  - now apply IH.
  - transitivity (run r1 len0 s caps (fun _ _ => @None A)); [|apply run_fails].
    apply (run_ext_on (fun s' => lacks hit s' = true)); [apply lacks_tail | exact Hs|].
    intros s' caps' Hs'. now apply IH.
  - now rewrite IH1, IH2.
  - now apply IH.
Qed.

Lemma search_fails (hit : ascii -> bool) (r : regex) (len0 : nat) :
  Needs hit r -> forall idx s, lacks hit s = true -> search r len0 idx s = None.
Proof.
  intros Hr idx s. revert idx. induction s as [|c s IH]; intros idx Hs; cbn [search];
    unfold matchHere; rewrite (needs_fails hit r Hr) by exact Hs; [reflexivity|].
  apply IH. now apply (lacks_tail hit c).
Qed.

Lemma exec_fails (hit : ascii -> bool) (r : regex) (s : string) :
  Needs hit r -> lacks hit s = true -> exec r s = None.
Proof. intros Hr Hs. unfold exec. now apply (search_fails hit). Qed.

Lemma execAll_fails (hit : ascii -> bool) (r : regex) (s : string) :
  Needs hit r -> lacks hit s = true -> execAll r s = [].
Proof.
  intros Hr Hs. unfold execAll. cbn [execAllFrom]. now rewrite (search_fails hit).
Qed.

Lemma replaceAll_fails (hit : ascii -> bool) (r : regex) (repl s : string) :
  Needs hit r -> lacks hit s = true -> replaceAll r repl s = s.
Proof.
  intros Hr Hs. unfold replaceAll. cbn [replaceAllFrom]. now rewrite (search_fails hit).
Qed.

(** A text that does not contain the one-character text [c] has no
    character [c]. *)
Lemma lacks_of_includes (c : ascii) (s : string) :
  includes s (String c EmptyString) = false -> lacks (Ascii.eqb c) s = true.
Proof.
  induction s as [|d s IH]; [reflexivity|].
  cbn [includes startsWith lacks]. rewrite andb_true_r.
  intros H. apply orb_false_iff in H. destruct H as [H1 H2]. rewrite H1. now apply IH.
Qed.

Lemma needs_lit (hit : ascii -> bool) (c : ascii) (s1 s2 : string) :
  hit c = true -> Needs hit (lit (s1 ++ String c s2)).
Proof.
  intros Hc. induction s1 as [|d s1 IH]; cbn [append lit].
  - apply Needs_seq_l. apply Needs_chr. intros x Hx. apply Ascii.eqb_eq in Hx. now subst.
  - now apply Needs_seq_r.
Qed.

Lemma needs_seqs_here (hit : ascii -> bool) (r : regex) (rs : list regex) :
  Needs hit r -> Needs hit (seqs (r :: rs)).
Proof. intros H. destruct rs; [exact H | now apply Needs_seq_l]. Qed.

Lemma needs_seqs_later (hit : ascii -> bool) (r : regex) (rs : list regex) :
  rs <> [] -> Needs hit (seqs rs) -> Needs hit (seqs (r :: rs)).
Proof. intros Hne H. destruct rs; [contradiction | now apply Needs_seq_r]. Qed.

Ltac needs_tac :=
  repeat first
    [ apply needs_seqs_here;
      solve [ apply (needs_lit _ _ "" _); reflexivity
            | apply (needs_lit _ _ "-" _); reflexivity
            | apply (needs_lit _ _ "/" _); reflexivity
            | apply (needs_lit _ _ "old" _); reflexivity
            | apply (needs_lit _ _ "this" _); reflexivity
            | apply Needs_chr; intros x Hx; apply Ascii.eqb_eq in Hx; subst; reflexivity ]
    | apply needs_seqs_later; [discriminate|] ].

Lemma mainRe_needs_arrow : Needs (Ascii.eqb ">") mainRe.
Proof. unfold mainRe. needs_tac. Qed.

Lemma mainRe_needs_colon : Needs (Ascii.eqb ":") mainRe.
Proof. unfold mainRe. needs_tac. Qed.

Lemma callsRe_needs_arrow : Needs (Ascii.eqb ">") callsRe.
Proof. unfold callsRe. needs_tac. Qed.

Lemma callsRe_needs_colon : Needs (Ascii.eqb ":") callsRe.
Proof. unfold callsRe. needs_tac. Qed.

Lemma lineCommentRe_needs_slash : Needs (Ascii.eqb "/") lineCommentRe.
Proof. unfold lineCommentRe. needs_tac. Qed.

Lemma blockCommentRe_needs_slash : Needs (Ascii.eqb "/") blockCommentRe.
Proof. unfold blockCommentRe. needs_tac. Qed.

Lemma oldRe_needs_paren : Needs (Ascii.eqb "(") oldRe.
Proof. unfold oldRe. needs_tac. Qed.

Lemma valueFieldRe_needs_dot : Needs (Ascii.eqb ".") valueFieldRe.
Proof. unfold valueFieldRe. needs_tac. Qed.

(** X19. A state expression that, trimmed, has no greater-than sign or no
    colon is not rejected: parseStateTransition returns the placeholder
    states, no method, and the trimmed text as the condition. *)
Theorem X19_parseStateTransition_malformed (expr : string) :
  includes (trim expr) ">" = false \/ includes (trim expr) ":" = false ->
  parseStateTransition expr = mkTransition "?" "?" [] (Some (trim expr)).
Proof.
  intros H. unfold parseStateTransition.
  assert (E : exec mainRe (trim expr) = None).
  { destruct H as [H|H]; apply lacks_of_includes in H.
    - now apply (exec_fails (Ascii.eqb ">")); [apply mainRe_needs_arrow|].
    - now apply (exec_fails (Ascii.eqb ":")); [apply mainRe_needs_colon|]. }
  now rewrite E.
Qed.

(** X20. A calls expression that, trimmed, has no colon or no greater-than
    sign is kept whole: the target is the trimmed text, the called method
    and the expectation are empty. *)
Theorem X20_parseCallsSpec_malformed (ann : SpecAnnotation) (methodName : string) :
  includes (trim (expression ann)) ":" = false \/
  includes (trim (expression ann)) ">" = false ->
  let parsed := parseCallsSpec ann methodName in
  target parsed = trim (expression ann) /\ calledMethod parsed = "" /\
  expectation parsed = "" /\ expression parsed = expression ann.
Proof.
  intros H. cbn zeta. unfold parseCallsSpec.
  assert (E : exec callsRe (trim (expression ann)) = None).
  { destruct H as [H|H]; apply lacks_of_includes in H.
    - now apply (exec_fails (Ascii.eqb ":")); [apply callsRe_needs_colon|].
    - now apply (exec_fails (Ascii.eqb ">")); [apply callsRe_needs_arrow|]. }
  rewrite E. repeat split.
Qed.

(** X21. stripComments leaves a text without any slash as it is. *)
Theorem X21_stripComments_without_slash (text : string) :
  includes text "/" = false -> stripComments text = text.
Proof.
  intros H. apply lacks_of_includes in H. unfold stripComments.
  rewrite (replaceAll_fails (Ascii.eqb "/") lineCommentRe) by
    (exact H || apply lineCommentRe_needs_slash).
  now apply (replaceAll_fails (Ascii.eqb "/")); [apply blockCommentRe_needs_slash|].
Qed.

(* ================================================================== *)
(** ** What stripComments removes *)
(* ================================================================== *)

Lemma length_append (a b : string) :
  String.length (a ++ b) = String.length a + String.length b.
Proof. induction a as [|c a IH]; cbn; [reflexivity | now rewrite IH]. Qed.

Lemma take_append (a b : string) : take (String.length a) (a ++ b) = a.
Proof.
  unfold take. induction a as [|c a IH]; cbn.
  - now destruct b.
  - now rewrite IH.
Qed.










Lemma consumed_append (a b : string) : consumed (a ++ b) b = a.
Proof.
  unfold consumed. rewrite length_append.
  replace (String.length a + String.length b - String.length b) with (String.length a) by lia.
  apply take_append.
Qed.

Lemma search_here (r : regex) (len0 idx : nat) (s rest : string) (caps : captures) :
  matchHere r len0 s = Some (rest, caps) ->
  search r len0 idx s = Some (mkMatch idx (consumed s rest) caps rest).
Proof. intros H. destruct s; cbn [search]; now rewrite H. Qed.








(* ================================================================== *)
(** ** stripComments as a scan *)
(* ================================================================== *)

Lemma skipLine_shorter (s : string) : String.length (skipLine s) <= String.length s.
Proof.
  induction s as [|c s IH]; cbn [skipLine]; [lia|].
  destruct (isLineTerminator c); cbn [String.length]; lia.
Qed.

Lemma afterClose_shorter (s rest : string) :
  afterClose s = Some rest -> String.length rest < String.length s.
Proof.
  induction s as [|c s IH]; cbn [afterClose]; [discriminate|].
  destruct (startsWith (String c s) "*/").
  - intros [= <-]. destruct s; cbn; lia.
  - intros H. apply IH in H. cbn [String.length]. lia.
Qed.

(** Where a search finds its match. *)
Lemma search_bounds (r : regex) (len0 : nat) :
  (forall s rest caps, matchHere r len0 s = Some (rest, caps) ->
                       String.length rest < String.length s) ->
  forall s idx m, search r len0 idx s = Some m ->
                  idx <= index m /\ String.length (after m) < String.length s.
Proof.
  intros Hne. induction s as [|c s IH]; intros idx m; cbn [search].
  - destruct (matchHere r len0 "") as [[rest caps]|] eqn:E; [|discriminate].
    apply Hne in E. cbn in E. lia.
  - destruct (matchHere r len0 (String c s)) as [[rest caps]|] eqn:E.
    + intros [= <-]. cbn [index after]. apply Hne in E. split; [lia | exact E].
    + intros H. apply IH in H. cbn [String.length]. lia.
Qed.

(** A character at which the pattern does not match is kept, and the
    replacement goes on behind it. *)
Lemma replaceAllFrom_skip (r : regex) (len0 : nat) (a : ascii) (s : string) :
  (forall s rest caps, matchHere r len0 s = Some (rest, caps) ->
                       String.length rest < String.length s) ->
  matchHere r len0 (String a s) = None ->
  forall fuel idx,
  replaceAllFrom fuel r "" len0 idx (String a s) =
  String a (replaceAllFrom fuel r "" len0 (S idx) s).
Proof.
  intros Hne Hhere [|fuel] idx; [reflexivity|].
  cbn [replaceAllFrom search]. rewrite Hhere.
  destruct (search r len0 (S idx) s) as [m|] eqn:E; [|reflexivity].
  destruct (search_bounds r len0 Hne s (S idx) m E) as [Hidx Hlen].
  unfold before. replace (index m - idx) with (S (index m - S idx)) by lia.
  cbn [String.length]. rewrite (proj2 (Nat.ltb_lt _ _) Hlen).
  rewrite (proj2 (Nat.ltb_lt (String.length (after m)) (S (String.length s)))) by lia.
  reflexivity.
Qed.

(** A match at the head of the text is dropped, and the replacement goes on
    behind it. *)
Lemma replaceAllFrom_here (r : regex) (len0 : nat) (s rest : string) (caps : captures) :
  matchHere r len0 s = Some (rest, caps) -> String.length rest < String.length s ->
  forall fuel idx,
  replaceAllFrom (S fuel) r "" len0 idx s =
  replaceAllFrom fuel r "" len0 (idx + String.length (consumed s rest)) rest.
Proof.
  intros Hhere Hlen fuel idx. cbn [replaceAllFrom].
  rewrite (search_here r len0 idx s rest caps Hhere). cbn [index matched after].
  unfold before. cbn [index]. rewrite Nat.sub_diag.
  rewrite (proj2 (Nat.ltb_lt _ _) Hlen). unfold take. now destruct s.
Qed.

(** The two comment patterns, at one position. *)
Lemma rest_of_line_any (len0 : nat) (caps : captures) (x : string) :
  forall fuel, String.length x <= fuel ->
  greedyLoop (run dot len0)
    (fun s' caps' => run EolM len0 s' caps' (fun s2 caps2 => Some (s2, caps2)))
    fuel x caps = Some (skipLine x, caps).
Proof.
  induction x as [|a x IH]; intros fuel Hfuel.
  - destruct fuel; reflexivity.
  - destruct fuel as [|fuel]; [cbn in Hfuel; lia|].
    cbn [greedyLoop run dot skipLine]. destruct (isLineTerminator a) eqn:Ea; cbn [negb].
    + reflexivity.
    + cbn [String.length]. rewrite (proj2 (Nat.ltb_lt _ _)) by lia.
      rewrite IH by (cbn in Hfuel; lia). reflexivity.
Qed.

Lemma lineComment_match (len0 : nat) (s : string) :
  matchHere lineCommentRe len0 s =
  if startsWith s "//" then Some (skipLine (tail s), []) else None.
Proof.
  unfold matchHere, lineCommentRe. cbn [seqs lit run chr].
  destruct s as [|a s]; [reflexivity|]. cbn [startsWith tail].
  destruct (Ascii.eqb "/" a) eqn:Ea; [|reflexivity]. cbn [andb].
  destruct s as [|b s]; [reflexivity|]. cbn [run startsWith skipLine].
  destruct (Ascii.eqb "/" b) eqn:Eb; [|reflexivity]. cbn [andb].
  apply Ascii.eqb_eq in Eb. subst b. cbn [run].
  replace (isLineTerminator "/") with false by reflexivity.
  now apply rest_of_line_any.
Qed.

Lemma close_here (len0 : nat) (caps : captures) (x : string) :
  run (lit "*/") len0 x caps (fun s2 caps2 => Some (s2, caps2)) =
  if startsWith x "*/" then Some (tail (tail x), caps) else None.
Proof.
  cbn [lit run chr]. destruct x as [|a x]; [reflexivity|]. cbn [startsWith tail].
  destruct (Ascii.eqb "*" a); [|reflexivity]. cbn [andb].
  destruct x as [|b x]; [reflexivity|]. cbn [startsWith tail run].
  destruct (Ascii.eqb "/" b); reflexivity.
Qed.

Lemma inside_of_block_any (len0 : nat) (caps : captures) (x : string) :
  forall fuel, String.length x <= fuel ->
  lazyLoop (run anyChar len0)
    (fun s' caps' => run (lit "*/") len0 s' caps' (fun s2 caps2 => Some (s2, caps2)))
    fuel x caps =
  match afterClose x with Some rest => Some (rest, caps) | None => None end.
Proof.
  induction x as [|a x IH]; intros fuel Hfuel.
  - destruct fuel; reflexivity.
  - destruct fuel as [|fuel]; [cbn in Hfuel; lia|].
    cbn [lazyLoop afterClose]. rewrite close_here.
    destruct (startsWith (String a x) "*/"); [reflexivity|].
    cbn [run anyChar String.length]. rewrite (proj2 (Nat.ltb_lt _ _)) by lia.
    apply IH. cbn in Hfuel. lia.
Qed.

Lemma blockComment_match (len0 : nat) (s : string) :
  matchHere blockCommentRe len0 s =
  if startsWith s "/*"
  then match afterClose (tail (tail s)) with Some rest => Some (rest, []) | None => None end
  else None.
Proof.
  unfold matchHere, blockCommentRe. cbn [seqs lit run chr].
  destruct s as [|a s]; [reflexivity|]. cbn [startsWith tail].
  destruct (Ascii.eqb "/" a) eqn:Ea; [|reflexivity]. cbn [andb].
  destruct s as [|b s]; [reflexivity|]. cbn [run startsWith tail].
  destruct (Ascii.eqb "*" b) eqn:Eb; [|reflexivity]. cbn [andb run].
  now apply inside_of_block_any.
Qed.

Lemma lineComment_consumes (len0 : nat) (s rest : string) (caps : captures) :
  matchHere lineCommentRe len0 s = Some (rest, caps) ->
  String.length rest < String.length s.
Proof.
  rewrite lineComment_match. destruct (startsWith s "//") eqn:E; [|discriminate].
  intros [= <- _]. destruct s as [|a s]; [discriminate E|]. cbn [tail String.length].
  pose proof (skipLine_shorter s). lia.
Qed.

Lemma blockComment_consumes (len0 : nat) (s rest : string) (caps : captures) :
  matchHere blockCommentRe len0 s = Some (rest, caps) ->
  String.length rest < String.length s.
Proof.
  rewrite blockComment_match. destruct (startsWith s "/*"); [|discriminate].
  destruct (afterClose (tail (tail s))) as [y|] eqn:E; [|discriminate].
  intros [= <- _]. apply afterClose_shorter in E.
  destruct s as [|a [|b s]]; cbn [tail String.length] in *; lia.
Qed.

(** The first pass of stripComments is the scan for line comments. *)
Lemma replaceAll_lineComments (fuel : nat) : forall (s : string) (steps len0 idx : nat),
  String.length s <= fuel -> String.length s < steps ->
  replaceAllFrom steps lineCommentRe "" len0 idx s = dropLineComments fuel s.
Proof.
  induction fuel as [|fuel IH]; intros s steps len0 idx Hfuel Hsteps.
  - destruct s; [|cbn in Hfuel; lia]. destruct steps; reflexivity.
  - destruct s as [|a s].
    { destruct steps; reflexivity. }
    cbn [dropLineComments]. cbn [String.length] in Hfuel, Hsteps.
    destruct (startsWith (String a s) "//") eqn:E.
    + destruct steps as [|steps]; [lia|].
      assert (Hhere : matchHere lineCommentRe len0 (String a s) = Some (skipLine s, []))
        by (rewrite lineComment_match, E; reflexivity).
      pose proof (lineComment_consumes _ _ _ _ Hhere) as Hlen. cbn [String.length] in Hlen.
      rewrite (replaceAllFrom_here _ _ _ _ _ Hhere Hlen).
      apply IH; lia.
    + rewrite replaceAllFrom_skip.
      * f_equal. apply IH; lia.
      * apply lineComment_consumes.
      * rewrite lineComment_match, E. reflexivity.
Qed.

(** The second pass is the scan for block comments. *)
Lemma replaceAll_blockComments (fuel : nat) : forall (s : string) (steps len0 idx : nat),
  String.length s <= fuel -> String.length s < steps ->
  replaceAllFrom steps blockCommentRe "" len0 idx s = dropBlockComments fuel s.
Proof.
  induction fuel as [|fuel IH]; intros s steps len0 idx Hfuel Hsteps.
  - destruct s; [|cbn in Hfuel; lia]. destruct steps; reflexivity.
  - destruct s as [|a s].
    { destruct steps; reflexivity. }
    cbn [dropBlockComments]. cbn [String.length] in Hfuel, Hsteps.
    pose proof (blockComment_match len0 (String a s)) as Hm. cbn [tail] in Hm.
    destruct (startsWith (String a s) "/*") eqn:E;
      [destruct (afterClose (tail s)) as [rest|] eqn:Ec|].
    + destruct steps as [|steps]; [lia|].
      pose proof (blockComment_consumes _ _ _ _ Hm) as Hlen. cbn [String.length] in Hlen.
      rewrite (replaceAllFrom_here _ _ _ _ _ Hm Hlen).
      apply IH; lia.
    + rewrite replaceAllFrom_skip; [f_equal; apply IH; lia | apply blockComment_consumes | exact Hm].
    + rewrite replaceAllFrom_skip; [f_equal; apply IH; lia | apply blockComment_consumes | exact Hm].
Qed.

(** X27. On every text, stripComments is a scan in two passes: the first
    drops each double slash with what follows it on its line (the line
    terminator stays); the second drops each slash-star with the text up to
    the first star-slash after it, and leaves a slash-star alone that no
    star-slash follows. *)
Theorem X27_stripComments_scan (text : string) :
  stripComments text = withoutBlockComments (withoutLineComments text).
Proof.
  unfold stripComments, replaceAll, withoutBlockComments, withoutLineComments.
  rewrite (replaceAll_lineComments (String.length text)) by lia.
  apply replaceAll_blockComments; lia.
Qed.

(* ================================================================== *)
(** ** Access control *)
(* ================================================================== *)






(* ================================================================== *)
(** ** The spec tree of a class *)
(* ================================================================== *)

Lemma in_set {V : Type} (k : string) (v : V) (m : JsMap.t V) (e : string * V) :
  In e (JsMap.set k v m) -> e = (k, v) \/ In e m.
Proof.
  induction m as [|[k' v'] m IH]; cbn [JsMap.set In].
  - intuition.
  - destruct (String.eqb k' k); cbn [In]; intuition.
Qed.

Lemma set_nonempty {V : Type} (k : string) (v : V) (m : JsMap.t V) :
  JsMap.set k v m <> [].
Proof. destruct m as [|[k' v'] m]; cbn [JsMap.set]; [|destruct (String.eqb k' k)]; discriminate. Qed.

Section TreeFacts.
Variable getFullStart : Node -> nat.
Variable leadingTrivia : Node -> string.
Variable getLineAndCharacterOfPosition : nat -> nat * nat.

Lemma addClassAnnotation_methods (anns : list SpecAnnotation) : forall c,
  methods (fold_left addClassAnnotation anns c) = methods c /\
  className (fold_left addClassAnnotation anns c) = className c.
Proof.
  induction anns as [|a anns IH]; intros c; [split; reflexivity|].
  cbn [fold_left]. destruct (IH (addClassAnnotation c a)) as [H1 H2]. rewrite H1, H2.
  unfold addClassAnnotation. destruct (tag a); split; reflexivity.
Qed.

(** What the loop over the members keeps: the promoted transitions stay,
    every bundle of the map has its transitions promoted, and every key of
    the map is the name of a method member seen so far. *)
Lemma addMember_invariant (fileName : string) (ms : list Node) :
  forall (state : ContractSpecs * nat) (seen : list Node),
  (forall entry st, In entry (methods (fst state)) -> In st (stateTransitions (snd entry)) ->
                    In st (contract_stateTransitions (fst state))) ->
  (forall entry, In entry (methods (fst state)) ->
                 exists m, In m seen /\ isMethodDeclaration m = true /\
                           getMethodName m = fst entry) ->
  let final := fold_left ((addMember getFullStart leadingTrivia getLineAndCharacterOfPosition) fileName) ms state in
  className (fst final) = className (fst state) /\
  (forall entry st, In entry (methods (fst final)) -> In st (stateTransitions (snd entry)) ->
                    In st (contract_stateTransitions (fst final))) /\
  (forall entry, In entry (methods (fst final)) ->
                 exists m, In m (seen ++ ms) /\ isMethodDeclaration m = true /\
                           getMethodName m = fst entry).
Proof.
  induction ms as [|member ms IH]; intros state seen Hprom Hkeys; cbn zeta.
  - cbn [fold_left]. rewrite app_nil_r. auto.
  - cbn [fold_left].
    specialize (IH ((addMember getFullStart leadingTrivia getLineAndCharacterOfPosition) fileName state member) (seen ++ [member])%list).
    cbn zeta in IH. rewrite <- app_assoc in IH. cbn [app] in IH.
    assert (Hname : className (fst ((addMember getFullStart leadingTrivia getLineAndCharacterOfPosition) fileName state member)) =
                    className (fst state)).
    { unfold addMember. destruct member; try reflexivity.
      destruct (0 <? _); reflexivity. }
    rewrite <- Hname. apply IH.
    + unfold addMember. destruct member as [| | | | | |p t n hd bd| |]; try exact Hprom.
      destruct (0 <? _); [|exact Hprom]. cbn [fst methods contract_stateTransitions].
      intros entry st Hentry Hst. apply in_app_iff. apply in_set in Hentry.
      destruct Hentry as [->|Hentry]; [now right|]. left. now apply (Hprom entry).
    + unfold addMember. destruct member as [| | | | | |p t n hd bd| |];
        try (intros entry Hentry; destruct (Hkeys entry Hentry) as (m & Hm & H);
             exists m; split; [apply in_app_iff; now left | exact H]).
      destruct (0 <? _); cbn [fst methods];
        intros entry Hentry.
      * apply in_set in Hentry. destruct Hentry as [->|Hentry].
        -- exists (MethodDeclaration p t n hd bd).
           split; [apply in_app_iff; right; now left | split; reflexivity].
        -- destruct (Hkeys entry Hentry) as (m & Hm & H).
           exists m. split; [apply in_app_iff; now left | exact H].
      * destruct (Hkeys entry Hentry) as (m & Hm & H).
        exists m. split; [apply in_app_iff; now left | exact H].
Qed.

Lemma parseClassSpecs_facts (classDecl : Node) (fileName : string) (next next' : nat)
    (c : ContractSpecs) :
  (parseClassSpecs getFullStart leadingTrivia getLineAndCharacterOfPosition) classDecl fileName next = (Some c, next') ->
  className c = getClassName classDecl /\
  (forall entry st, In entry (methods c) -> In st (stateTransitions (snd entry)) ->
                    In st (contract_stateTransitions c)) /\
  (forall entry, In entry (methods c) ->
                 exists m, In m (getClassMethods classDecl) /\ getMethodName m = fst entry).
Proof.
  unfold parseClassSpecs.
  set (parsed := (parseAnnotationsFromNode getFullStart leadingTrivia getLineAndCharacterOfPosition) classDecl fileName next).
  set (c0 := fold_left addClassAnnotation (fst parsed) _).
  destruct (addClassAnnotation_methods (fst parsed)
              (mkContract (getClassName classDecl) fileName [] [] [] JsMap.empty)) as [Hm Hn].
  fold c0 in Hm, Hn. cbn [methods className] in Hm, Hn.
  destruct (addMember_invariant fileName (members classDecl) (c0, snd parsed) [])
    as (H1 & H2 & H3).
  { cbn [fst]. rewrite Hm. intros entry st []. }
  { cbn [fst]. rewrite Hm. intros entry []. }
  cbn [fst] in H1. rewrite Hn in H1.
  destruct (_ || _); [|discriminate]. intros [= <- _].
  split; [exact H1|]. split; [exact H2|].
  intros entry Hentry. destruct (H3 entry Hentry) as (m & Hin & Hmeth & Hname).
  exists m. split; [|exact Hname]. unfold getClassMethods. apply filter_In. now split.
Qed.

(** X22. In the contract that parseClassSpecs builds, every state
    transition of a method bundle is also, as the same object, in the
    contract's own list of state transitions. *)
Theorem X22_state_transitions_promoted (classDecl : Node) (fileName : string)
    (next next' : nat) (c : ContractSpecs) (entry : string * MethodSpecs) (st : StateSpec) :
  (parseClassSpecs getFullStart leadingTrivia getLineAndCharacterOfPosition) classDecl fileName next = (Some c, next') ->
  In entry (methods c) -> In st (stateTransitions (snd entry)) ->
  In st (contract_stateTransitions c).
Proof.
  intros H. destruct (parseClassSpecs_facts _ _ _ _ _ H) as (_ & Hprom & _). apply Hprom.
Qed.


Lemma find_exists {A : Type} (f : A -> bool) (l : list A) (x : A) :
  In x l -> f x = true -> find f l <> None.
Proof.
  intros Hin Hf Hnone. rewrite (find_none f l Hnone x Hin) in Hf. discriminate.
Qed.

Lemma parsed_methods_declared (classDecl : Node) (fileName : string) (next next' : nat)
    (c : ContractSpecs) (entry : string * MethodSpecs) :
  parseClassSpecs getFullStart leadingTrivia getLineAndCharacterOfPosition
    classDecl fileName next = (Some c, next') ->
  In entry (methods c) -> JsMap.get (fst entry) (buildMethodMap classDecl) <> None.
Proof.
  intros H Hentry. destruct (parseClassSpecs_facts _ _ _ _ _ H) as (_ & _ & Hkeys).
  destruct (Hkeys entry Hentry) as (m & Hm & Hname).
  unfold buildMethodMap. rewrite fold_set_get. cbn [JsMap.get JsMap.empty].
  destruct (find _ (rev (getClassMethods classDecl))) eqn:E; [discriminate|].
  exfalso. apply (find_exists _ _ m) in E; [exact E | now apply in_rev in Hm|].
  rewrite Hname. apply String.eqb_refl.
Qed.

(** X23. When a contract that parseClassSpecs built from a class is
    verified against a file in which that class is the one found by name,
    every method with specs is found: a MISSING result can only report on
    a contract-level state transition. *)
Theorem X23_parsed_contract_missing_results (classDecl : Node) (fileName : string)
    (next next' : nat) (c : ContractSpecs) (sf : SourceFile) (r : VerificationResult) :
  parseClassSpecs getFullStart leadingTrivia getLineAndCharacterOfPosition
    classDecl fileName next = (Some c, next') ->
  find (fun cls => String.eqb (getClassName cls) (className c))
    (findClassDeclarations sf) = Some classDecl ->
  In r (results (verifyContract c sf)) -> status r = MISSING ->
  exists st, In st (contract_stateTransitions c) /\ spec r = st.
Proof.
  intros Hparse Hfind Hr Hmissing. unfold verifyContract in Hr. rewrite Hfind in Hr.
  cbn [results buildReport] in Hr.
  apply fold_verifyContractTransition_made in Hr. destruct Hr as [Hr|(st & Hst & Hon & _)].
  - exfalso. rewrite !in_app_iff in Hr. destruct Hr as [Hr|[Hr|Hr]].
    + apply in_flat_map in Hr. destruct Hr as (i & _ & Hr).
      apply verifyInvariant_made in Hr. now destruct Hr as [_ N].
    + apply in_map_iff in Hr. destruct Hr as (o & <- & _).
      now destruct (verifyOpnetConstraint_made o classDecl) as [_ N].
    + apply in_flat_map in Hr. destruct Hr as (entry & Hentry & Hr).
      apply verifyMethodSpecs_made in Hr. destruct Hr as (a & _ & _ & N).
      apply N; [|exact Hmissing]. now apply (parsed_methods_declared _ _ _ _ _ _ Hparse).
  - exists st. split; [exact Hst | apply Hon].
Qed.

End TreeFacts.

Section TreeFacts2.
#[local] Open Scope list_scope.
Variable getFullStart : Node -> nat.
Variable leadingTrivia : Node -> string.
Variable getLineAndCharacterOfPosition : nat -> nat * nat.

(** The annotations of a node do not depend on the identities that are
    handed out, except for their own. *)
Lemma scanLine_content (fileName : string) (lines : list string) :
  forall (offset n1 n2 : nat) (acc1 acc2 : list SpecAnnotation),
  map (Identity.annotation (fun _ => 0)) acc1 = map (Identity.annotation (fun _ => 0)) acc2 ->
  map (Identity.annotation (fun _ => 0))
    (snd (fold_left (scanLine getLineAndCharacterOfPosition fileName) lines
            (offset, n1, acc1))) =
  map (Identity.annotation (fun _ => 0))
    (snd (fold_left (scanLine getLineAndCharacterOfPosition fileName) lines
            (offset, n2, acc2))).
Proof.
  induction lines as [|l lines IH]; intros offset n1 n2 acc1 acc2 H; [exact H|].
  cbn [fold_left]. unfold scanLine at 2 4. cbn [fst snd].
  destruct (parseLine l) as [[[t e] cm]|]; apply IH; [|exact H].
  rewrite !map_app, H. reflexivity.
Qed.

Lemma annotations_content (node : Node) (fileName : string) (n1 n2 : nat) :
  map (Identity.annotation (fun _ => 0))
    (fst (parseAnnotationsFromNode getFullStart leadingTrivia getLineAndCharacterOfPosition
            node fileName n1)) =
  map (Identity.annotation (fun _ => 0))
    (fst (parseAnnotationsFromNode getFullStart leadingTrivia getLineAndCharacterOfPosition
            node fileName n2)).
Proof.
  unfold parseAnnotationsFromNode. cbn [fst]. now apply scanLine_content.
Qed.

(** What the class-level annotations contribute. *)
Lemma fold_addClassAnnotation (anns : list SpecAnnotation) : forall c,
  let c' := fold_left addClassAnnotation anns c in
  invariants c' =
    invariants c ++
    map (fun a => mkInvariant (withTag a Invariant) (extractFieldReferences (expression a)))
      (tagged Invariant anns) /\
  opnetConstraints c' =
    opnetConstraints c ++
    map (fun a => mkOpnet (withTag a Opnet) (trim (expression a))) (tagged Opnet anns) /\
  contract_stateTransitions c' =
    contract_stateTransitions c ++
    map (fun a => mkStateSpec (withTag a State) (parseStateTransition (expression a)))
      (tagged State anns).
Proof.
  induction anns as [|a anns IH]; intros c; cbn zeta.
  - cbn. rewrite !app_nil_r. auto.
  - cbn [fold_left]. destruct (IH (addClassAnnotation c a)) as (H1 & H2 & H3).
    rewrite H1, H2, H3. clear. unfold addClassAnnotation, tagged. cbn [filter].
    destruct (tag a); cbn [tag_eqb map invariants opnetConstraints contract_stateTransitions];
      rewrite <- ?app_assoc; auto.
Qed.

Lemma fold_addMember_untouched (fileName : string) (ms : list Node) :
  forall state : ContractSpecs * nat,
  let final :=
    fold_left (addMember getFullStart leadingTrivia getLineAndCharacterOfPosition fileName)
      ms state in
  invariants (fst final) = invariants (fst state) /\
  opnetConstraints (fst final) = opnetConstraints (fst state) /\
  contract_file (fst final) = contract_file (fst state).
Proof.
  induction ms as [|m ms IH]; intros state; cbn zeta; [auto|].
  cbn [fold_left]. destruct (IH (addMember getFullStart leadingTrivia
                                  getLineAndCharacterOfPosition fileName state m))
    as (H1 & H2 & H3).
  rewrite H1, H2, H3. unfold addMember. destruct m; auto. destruct (0 <? _); auto.
Qed.

Lemma parseClassSpecs_invariants (classDecl : Node) (fileName : string) (next next' : nat)
    (c : ContractSpecs) :
  parseClassSpecs getFullStart leadingTrivia getLineAndCharacterOfPosition
    classDecl fileName next = (Some c, next') ->
  let anns := fst (parseAnnotationsFromNode getFullStart leadingTrivia
                     getLineAndCharacterOfPosition classDecl fileName next) in
  invariants c =
    map (fun a => mkInvariant (withTag a Invariant) (extractFieldReferences (expression a)))
      (tagged Invariant anns) /\
  opnetConstraints c =
    map (fun a => mkOpnet (withTag a Opnet) (trim (expression a))) (tagged Opnet anns).
Proof.
  unfold parseClassSpecs. cbn zeta.
  match goal with
  | |- context [fold_left (addMember _ _ _ _) _ ?st] =>
      destruct (fold_addMember_untouched fileName (members classDecl) st) as (H1 & H2 & _)
  end.
  cbn [fst] in H1, H2.
  match type of H1 with
  | _ = invariants (fold_left addClassAnnotation ?anns ?c0) =>
      destruct (fold_addClassAnnotation anns c0) as (G1 & G2 & _)
  end.
  rewrite G1 in H1. rewrite G2 in H2. cbn [invariants opnetConstraints app] in H1, H2.
  destruct (_ || _); [|discriminate]. intros [= <- _]. auto.
Qed.

(** The first contract of the list stays the first one. *)
Lemma fold_addStatement_head (fileName : string) (stmts : list Node) :
  forall (c : ContractSpecs) (cs : list ContractSpecs) (n : nat),
  exists others,
    fst (fold_left (addStatement getFullStart leadingTrivia getLineAndCharacterOfPosition
                      fileName) stmts (c :: cs, n)) = c :: others.
Proof.
  induction stmts as [|s stmts IH]; intros c cs n; cbn [fold_left].
  - now exists cs.
  - unfold addStatement at 2. cbn [fst snd].
    destruct (isClassDeclaration s); [|apply IH].
    destruct (fst (parseClassSpecs _ _ _ s fileName n)); apply IH.
Qed.

Lemma fold_attachFileLevel (anns : list SpecAnnotation) :
  forall (first : ContractSpecs) (rest : list ContractSpecs) (un : list SpecAnnotation),
  exists first',
    fold_left attachFileLevel anns (mkSpecTree (first :: rest) un) =
      mkSpecTree (first' :: rest) un /\
    invariants first' =
      invariants first ++
      map (fun a => mkInvariant (withTag a Invariant) (extractFieldReferences (expression a)))
        (tagged Invariant anns) /\
    opnetConstraints first' =
      opnetConstraints first ++
      map (fun a => mkOpnet (withTag a Opnet) (trim (expression a))) (tagged Opnet anns).
Proof.
  induction anns as [|a anns IH]; intros first rest un; cbn [fold_left].
  - exists first. cbn. rewrite !app_nil_r. auto.
  - unfold attachFileLevel at 2. unfold tagged. cbn [filter contracts unassociated].
    destruct (tag a) eqn:E; cbn [tag_eqb]; try apply IH.
    + match goal with
      | |- context [mkSpecTree (?f :: rest) un] => destruct (IH f rest un) as (f' & H0 & H1 & H2)
      end.
      exists f'. split; [exact H0|]. rewrite H1, H2. cbn [invariants opnetConstraints map].
      rewrite <- app_assoc. auto.
    + match goal with
      | |- context [mkSpecTree (?f :: rest) un] => destruct (IH f rest un) as (f' & H0 & H1 & H2)
      end.
      exists f'. split; [exact H0|]. rewrite H1, H2. cbn [invariants opnetConstraints map].
      rewrite <- app_assoc. auto.
Qed.

Lemma tagged_content (t : SpecTag) (l1 l2 : list SpecAnnotation) :
  map (Identity.annotation (fun _ => 0)) l1 = map (Identity.annotation (fun _ => 0)) l2 ->
  map expression (tagged t l1) = map expression (tagged t l2).
Proof.
  revert l2. induction l1 as [|a l1 IH]; intros [|b l2] H; try discriminate; [reflexivity|].
  cbn [map] in H. injection H as Ht He _ _ _ _ Hl. unfold tagged. cbn [filter].
  rewrite Ht. destruct (tag_eqb (tag b) t); cbn [map]; [rewrite He; f_equal|]; now apply IH.
Qed.

(** X24. When the first statement of a file is a class that has specs,
    parseSource reads the comment block of that class a second time as
    file-level annotations: every invariant and every opnet constraint of
    the class is on its contract twice, in the same order. *)
Theorem X24_first_class_registered_twice (classDecl : Node) (rest : list Node)
    (fileName : string) (next next' : nat) (c : ContractSpecs) :
  isClassDeclaration classDecl = true ->
  parseClassSpecs getFullStart leadingTrivia getLineAndCharacterOfPosition
    classDecl fileName next = (Some c, next') ->
  let tree := fst (parseSource getFullStart leadingTrivia getLineAndCharacterOfPosition
                     (classDecl :: rest) fileName next) in
  exists first others,
    contracts tree = first :: others /\ className first = className c /\
    map (fun i : InvariantSpec => expression i) (invariants first) =
      map (fun i : InvariantSpec => expression i) (invariants c) ++
      map (fun i : InvariantSpec => expression i) (invariants c) /\
    map constraint (opnetConstraints first) =
      map constraint (opnetConstraints c) ++ map constraint (opnetConstraints c).
Proof.
  intros Hclass Hparse. cbn zeta. unfold parseSource. cbn [fold_left].
  assert (Hstep : addStatement getFullStart leadingTrivia getLineAndCharacterOfPosition
                    fileName ([], next) classDecl = ([c], next')).
  { unfold addStatement. rewrite Hclass. cbn [fst snd]. now rewrite Hparse. }
  rewrite Hstep.
  destruct (fold_addStatement_head fileName rest c [] next') as (others & Hhead).
  destruct (fold_left _ rest ([c], next')) as [cs n2]. cbn [fst snd] in *. subst cs.
  destruct (fold_attachFileLevel
              (fst (parseAnnotationsFromNode getFullStart leadingTrivia
                      getLineAndCharacterOfPosition classDecl fileName n2)) c others [])
    as (first & Htree & Hinv & Hop).
  rewrite Htree. cbn [fst contracts]. exists first, others. split; [reflexivity|].
  destruct (parseClassSpecs_invariants _ _ _ _ _ Hparse) as [Ginv Gop]. cbn zeta in Ginv, Gop.
  pose proof (annotations_content classDecl fileName n2 next) as Hcontent.
  split.
  { clear -Htree. revert Htree.
    generalize (fst (parseAnnotationsFromNode getFullStart leadingTrivia
                       getLineAndCharacterOfPosition classDecl fileName n2)).
    intros anns. revert c. induction anns as [|a anns IH]; intros c; cbn [fold_left].
    - now intros [= ->].
    - unfold attachFileLevel at 2. cbn [contracts unassociated].
      destruct (tag a); try apply IH; intros H; apply IH in H; exact H. }
  split.
  - rewrite Hinv, map_app. f_equal. rewrite Ginv, !map_map. cbn [inv_ann withTag expression].
    apply (tagged_content Invariant), Hcontent.
  - rewrite Hop, map_app. f_equal. rewrite Gop, !map_map. cbn [constraint].
    rewrite <- !(map_map expression trim). f_equal.
    apply (tagged_content Opnet), Hcontent.
Qed.

(** X25. parseSource leaves an annotation unassociated only when the file
    has no contract at all; the unassociated annotations are tagged
    invariant or opnet. *)
Theorem X25_unassociated_only_without_contract (statements : list Node) (fileName : string)
    (next : nat) :
  let tree := fst (parseSource getFullStart leadingTrivia getLineAndCharacterOfPosition
                     statements fileName next) in
  (unassociated tree <> [] -> contracts tree = []) /\
  (forall a, In a (unassociated tree) -> tag a = Invariant \/ tag a = Opnet).
Proof.
  cbn zeta. unfold parseSource.
  destruct (fold_left _ statements ([], next)) as [cs n1]. cbn [fst snd].
  destruct statements as [|first rest]; cbn [fst contracts unassociated].
  { split; [intros H; now contradiction H | intros a []]. }
  generalize (fst (parseAnnotationsFromNode getFullStart leadingTrivia
                     getLineAndCharacterOfPosition first fileName n1)).
  intros anns.
  assert (H : forall tree,
            (unassociated tree <> [] -> contracts tree = []) ->
            (forall a, In a (unassociated tree) -> tag a = Invariant \/ tag a = Opnet) ->
            (unassociated (fold_left attachFileLevel anns tree) <> [] ->
             contracts (fold_left attachFileLevel anns tree) = []) /\
            (forall a, In a (unassociated (fold_left attachFileLevel anns tree)) ->
                       tag a = Invariant \/ tag a = Opnet)).
  { induction anns as [|a anns IH]; intros tree H1 H2; cbn [fold_left]; [auto|].
    apply IH; unfold attachFileLevel.
    - destruct (tag a); try exact H1;
        (destruct (contracts tree) as [|c0 cs0] eqn:E; cbn [contracts unassociated];
         [reflexivity | intros Hun; specialize (H1 Hun); discriminate]).
    - destruct (tag a) eqn:Et; try exact H2;
        (destruct (contracts tree) as [|c0 cs0] eqn:E; cbn [contracts unassociated];
         [|exact H2]; intros b Hb; apply in_app_iff in Hb;
         destruct Hb as [Hb|[<-|[]]]; [now apply H2 | rewrite Et; auto]). }
  apply H; cbn [contracts unassociated]; [intros Hn; now contradiction Hn | intros a []].
Qed.

End TreeFacts2.

Section TreeFacts3.
#[local] Open Scope list_scope.
Variable getFullStart : Node -> nat.
Variable leadingTrivia : Node -> string.
Variable getLineAndCharacterOfPosition : nat -> nat * nat.

Lemma annotations_empty (node : Node) (fileName : string) (n1 n2 : nat) :
  fst (parseAnnotationsFromNode getFullStart leadingTrivia getLineAndCharacterOfPosition
         node fileName n1) = [] ->
  fst (parseAnnotationsFromNode getFullStart leadingTrivia getLineAndCharacterOfPosition
         node fileName n2) = [].
Proof.
  intros H.
  pose proof (annotations_content getFullStart leadingTrivia getLineAndCharacterOfPosition
                node fileName n1 n2) as E.
  rewrite H in E. cbn [map] in E. symmetry in E. now apply map_eq_nil in E.
Qed.

Lemma fold_addMember_methods (fileName : string) (ms : list Node) :
  forall state : ContractSpecs * nat,
  let final :=
    fold_left (addMember getFullStart leadingTrivia getLineAndCharacterOfPosition fileName)
      ms state in
  (methods (fst final) = [] <->
   methods (fst state) = [] /\
   forall m, In m ms -> isMethodDeclaration m = true ->
             fst (parseAnnotationsFromNode getFullStart leadingTrivia
                    getLineAndCharacterOfPosition m fileName 0) = []) /\
  (methods (fst final) = [] ->
   contract_stateTransitions (fst final) = contract_stateTransitions (fst state)).
Proof.
  induction ms as [|m ms IH]; intros state; cbn zeta; cbn [fold_left].
  - split; [|reflexivity]. split; [intros H; split; [exact H | intros m []] | tauto].
  - destruct (IH (addMember getFullStart leadingTrivia getLineAndCharacterOfPosition
                    fileName state m)) as [Hiff Htr].
    set (step := addMember getFullStart leadingTrivia getLineAndCharacterOfPosition
                   fileName state m) in *.
    assert (Hstep :
              (methods (fst step) = [] <->
               methods (fst state) = [] /\
               (isMethodDeclaration m = true ->
                fst (parseAnnotationsFromNode getFullStart leadingTrivia
                       getLineAndCharacterOfPosition m fileName 0) = [])) /\
              (methods (fst step) = [] ->
               contract_stateTransitions (fst step) = contract_stateTransitions (fst state))).
    { unfold step, addMember.
      destruct m as [| | | | | |p t n hd bd| |];
        try (split; [split; [intros H; split; [exact H | discriminate] | tauto]
                    | reflexivity]).
      set (method := MethodDeclaration p t n hd bd).
      destruct (fst (parseAnnotationsFromNode getFullStart leadingTrivia
                       getLineAndCharacterOfPosition method fileName (snd state)))
        as [|a anns] eqn:E; cbn [List.length Nat.ltb Nat.leb fst methods
                                 contract_stateTransitions].
      - split; [|reflexivity]. split; [intros H; split; [exact H|] | tauto].
        intros _. now apply (annotations_empty method fileName (snd state)).
      - split.
        + split; [intros H; now apply set_nonempty in H|].
          intros [_ H]. specialize (H eq_refl).
          apply (annotations_empty method fileName 0 (snd state)) in H.
          rewrite E in H. discriminate.
        + intros H. now apply set_nonempty in H. }
    destruct Hstep as [Siff Str]. split.
    + rewrite Hiff, Siff. split.
      * intros [[H1 H2] H3]. split; [exact H1|]. intros m' [<-|Hin]; [exact H2 | now apply H3].
      * intros [H1 H2]. split; [split; [exact H1|] |].
        -- apply H2. now left.
        -- intros m' Hin. apply H2. now right.
    + intros H. rewrite (Htr H). apply Str. now apply Hiff in H.
Qed.

(** X26. parseClassSpecs returns no contract exactly when the comment block
    of the class has no annotation tagged invariant, state or opnet and no
    method of the class has an annotation in its comment block.  So a
    method whose only annotation is, say, tagged invariant still makes a
    contract, with an empty bundle for that method. *)
Theorem X26_contract_materialized (classDecl : Node) (fileName : string) (next : nat) :
  let anns := fst (parseAnnotationsFromNode getFullStart leadingTrivia
                     getLineAndCharacterOfPosition classDecl fileName next) in
  fst (parseClassSpecs getFullStart leadingTrivia getLineAndCharacterOfPosition
         classDecl fileName next) = None <->
  tagged Invariant anns = [] /\ tagged State anns = [] /\ tagged Opnet anns = [] /\
  forall m, In m (getClassMethods classDecl) ->
            fst (parseAnnotationsFromNode getFullStart leadingTrivia
                   getLineAndCharacterOfPosition m fileName 0) = [].
Proof.
  cbn zeta. unfold parseClassSpecs. cbn zeta. cbn [fst].
  set (parsed := parseAnnotationsFromNode getFullStart leadingTrivia
                   getLineAndCharacterOfPosition classDecl fileName next).
  set (c0 := fold_left addClassAnnotation (fst parsed) _).
  destruct (fold_addClassAnnotation (fst parsed)
              (mkContract (getClassName classDecl) fileName [] [] [] JsMap.empty))
    as (G1 & G2 & G3).
  fold c0 in G1, G2, G3. cbn [invariants opnetConstraints contract_stateTransitions app]
    in G1, G2, G3.
  destruct (addClassAnnotation_methods (fst parsed)
              (mkContract (getClassName classDecl) fileName [] [] [] JsMap.empty)) as [Gm _].
  fold c0 in Gm. cbn [methods] in Gm.
  destruct (fold_addMember_untouched getFullStart leadingTrivia getLineAndCharacterOfPosition
              fileName (members classDecl) (c0, snd parsed)) as (U1 & U2 & _).
  destruct (fold_addMember_methods fileName (members classDecl) (c0, snd parsed))
    as [Miff Mtr].
  set (final := fold_left _ (members classDecl) (c0, snd parsed)) in *.
  cbn [fst] in U1, U2, Miff, Mtr. rewrite G1 in U1. rewrite G2 in U2. rewrite G3 in Mtr.
  assert (Hmeth : (forall m, In m (members classDecl) -> isMethodDeclaration m = true ->
                             fst (parseAnnotationsFromNode getFullStart leadingTrivia
                                    getLineAndCharacterOfPosition m fileName 0) = []) <->
                  (forall m, In m (getClassMethods classDecl) ->
                             fst (parseAnnotationsFromNode getFullStart leadingTrivia
                                    getLineAndCharacterOfPosition m fileName 0) = [])).
  { unfold getClassMethods. split.
    - intros H m Hm. apply filter_In in Hm. now apply H.
    - intros H m Hm Hd. apply H. apply filter_In. now split. }
  rewrite <- Hmeth. split.
  - destruct (_ || _) eqn:E; [discriminate|]. intros _.
    apply orb_false_iff in E. destruct E as [E E4].
    apply orb_false_iff in E. destruct E as [E E3].
    apply orb_false_iff in E. destruct E as [E1 E2].
    apply length_pos_false_iff_nil in E1, E2, E3, E4.
    rewrite U1 in E1. rewrite U2 in E3. rewrite (Mtr E4) in E2.
    apply map_eq_nil in E1, E2, E3. apply Miff in E4. tauto.
  - intros (H1 & H2 & H3 & H4).
    assert (E4 : methods (fst final) = []) by (apply Miff; split; [exact Gm | exact H4]).
    rewrite U1, U2, (Mtr E4), E4, H1, H2, H3. reflexivity.
Qed.

End TreeFacts3.

(* ================================================================== *)
(** ** The further properties on the samples *)
(* ================================================================== *)

Lemma X2_witness :
  status (verifyAccess (MoreSamples.anyone "deposit") deposit) = VERIFIED /\
  status (verifyAccess (MoreSamples.anyone "mint") mint) = VIOLATED.
Proof.
  split.
  - exact (X2_verifyAccess_anyone (MoreSamples.anyone "deposit") deposit eq_refl).
  - exact (X2_verifyAccess_anyone (MoreSamples.anyone "mint") mint eq_refl).
Defined.

Lemma X7_witness :
  let r := hd (makeResult noApprove MISSING "-" None)
              (results (verifyContract vaultContract sourceFile)) in
  In r (results (verifyContract vaultContract sourceFile)) /\
  In (spec r) (contractAnnotations vaultContract) /\
  result_file r = file (spec r) /\ result_line r = line (spec r).
Proof.
  cbn zeta.
  assert (H : In (hd (makeResult noApprove MISSING "-" None)
                    (results (verifyContract vaultContract sourceFile)))
                 (results (verifyContract vaultContract sourceFile))).
  { vm_compute. left. reflexivity. }
  split; [exact H|]. exact (X7_results_report_on_contract_specs _ _ _ H).
Defined.

Lemma X8_witness :
  countStatus MISSING (results (verifyContract vaultContract sourceFile)) = 0 /\
  missing (summary (verifyContract vaultContract sourceFile)) = 0.
Proof.
  apply (X8_no_missing_when_declared vaultContract sourceFile vaultClass).
  - reflexivity.
  - intros entry [<-|[]]. vm_compute. discriminate.
  - intros st n [].
Defined.

Lemma X9_witness :
  JsMap.get "burn" (buildMethodMap vaultClass) = None /\
  Forall (fun r => status r = MISSING)
    (verifyMethodSpecs vaultContract (buildMethodMap vaultClass) ["balance"]
       ("burn", MoreSamples.burnSpecs)) /\
  List.length (verifyMethodSpecs vaultContract (buildMethodMap vaultClass) ["balance"]
                 ("burn", MoreSamples.burnSpecs)) + 1 + 0 = 3.
Proof.
  assert (H : JsMap.get "burn" (buildMethodMap vaultClass) = None) by reflexivity.
  split; [exact H|].
  destruct (X9_undeclared_method_results vaultContract (buildMethodMap vaultClass)
              ["balance"] ("burn", MoreSamples.burnSpecs) H) as [Hall Hlen].
  split; [apply Forall_forall; exact Hall | exact Hlen].
Defined.

Lemma X10_witness :
  status (verifyCEI (ceiSpec "settle" 3) MoreSamples.settle ["balance"]) = VERIFIED /\
  status (verifyPrecondition amountPositive MoreSamples.settle) = VIOLATED /\
  status (verifyAccess (deployerOnly "settle") MoreSamples.settle) = VIOLATED.
Proof.
  destruct (X10_method_without_body MoreSamples.settle eq_refl) as (H1 & _ & H3 & H4).
  split; [apply H1|]. split; [apply H3|]. apply H4. left. reflexivity.
Defined.

Lemma X11_witness :
  JsSet.has "balance" ["balance"] = true /\
  exists b node, body withdraw = Some b /\ In node (walkTree b) /\ getStart node = 169.
Proof.
  apply (X11_state_writes_are_stored withdraw ["balance"]
           (mkStateWrite 169 "balance" "this.balance.value")).
  vm_compute. left. reflexivity.
Defined.

Lemma X16_witness :
  status (verifyPostcondition (ceiSpec "withdraw" 3) withdraw
            (JsMap.keys (detectStoredFields MoreSamples.relayClass))) = VERIFIED.
Proof.
  apply (X16_cei_without_stored_fields MoreSamples.relayClass (ceiSpec "withdraw" 3) withdraw);
    reflexivity.
Defined.

Lemma X17_witness :
  let cov := computeCoverage vaultContract sourceFile in
  totalMethods cov = 3 /\ map name (coverage_methods cov) = ["withdraw"; "deposit"; "mint"] /\
  specifiedMethods cov = 1 /\ specifiedMethods cov <= totalMethods cov /\ totalFields cov = 1 /\
  invariantCoveredFields cov = 1.
Proof.
  exact (X17_computeCoverage_counts vaultContract sourceFile vaultClass eq_refl).
Defined.

Lemma X19_witness :
  parseStateTransition "ACTIVE to GRADUATED" =
  mkTransition "?" "?" [] (Some "ACTIVE to GRADUATED").
Proof.
  apply (X19_parseStateTransition_malformed "ACTIVE to GRADUATED"). left. reflexivity.
Defined.

Lemma X20_witness :
  let parsed := parseCallsSpec MoreSamples.malformedCall "deposit" in
  target parsed = "this.token.value transfer" /\ calledMethod parsed = "" /\
  expectation parsed = "" /\ expression parsed = "this.token.value transfer".
Proof.
  apply (X20_parseCallsSpec_malformed MoreSamples.malformedCall "deposit"). left. reflexivity.
Defined.

Lemma X21_witness : stripComments "let total = a + b;" = "let total = a + b;".
Proof. apply (X21_stripComments_without_slash "let total = a + b;"). reflexivity. Defined.

Lemma pool_parsed :
  parseClassSpecs Annotated.getFullStart Annotated.leadingTrivia
    Annotated.getLineAndCharacterOfPosition Annotated.poolClass "pool.ts" 0 =
  (Some Annotated.poolContract, 5).
Proof. vm_compute. reflexivity. Defined.

Lemma X22_witness :
  In Annotated.closeTransition (contract_stateTransitions Annotated.poolContract).
Proof.
  apply (X22_state_transitions_promoted Annotated.getFullStart Annotated.leadingTrivia
           Annotated.getLineAndCharacterOfPosition Annotated.poolClass "pool.ts" 0 5
           Annotated.poolContract ("close", Annotated.closeSpecs) Annotated.closeTransition).
  - exact pool_parsed.
  - left. reflexivity.
  - left. reflexivity.
Defined.

Lemma X23_witness :
  let r := makeResult Annotated.shutdownTransition MISSING
             "State transition method shutdown() not found" None in
  In r (results (verifyContract Annotated.poolContract Annotated.sourceFile)) /\
  exists st, In st (contract_stateTransitions Annotated.poolContract) /\ spec r = st.
Proof.
  cbn zeta.
  assert (H : In (makeResult Annotated.shutdownTransition MISSING
                    "State transition method shutdown() not found" None)
                 (results (verifyContract Annotated.poolContract Annotated.sourceFile))).
  { vm_compute. do 4 right. left. reflexivity. }
  split; [exact H|].
  apply (X23_parsed_contract_missing_results Annotated.getFullStart Annotated.leadingTrivia
           Annotated.getLineAndCharacterOfPosition Annotated.poolClass "pool.ts" 0 5
           Annotated.poolContract Annotated.sourceFile _ pool_parsed eq_refl H eq_refl).
Defined.

Lemma X24_witness :
  let tree := fst (parseSource Annotated.getFullStart Annotated.leadingTrivia
                     Annotated.getLineAndCharacterOfPosition [Annotated.poolClass]
                     "pool.ts" 0) in
  exists first others,
    contracts tree = first :: others /\ className first = "Pool" /\
    map (fun i : InvariantSpec => expression i) (invariants first) =
      ["this.total.value >= 0"; "this.total.value >= 0"] /\
    map constraint (opnetConstraints first) = ["no-approve"; "no-approve"].
Proof.
  exact (X24_first_class_registered_twice Annotated.getFullStart Annotated.leadingTrivia
           Annotated.getLineAndCharacterOfPosition Annotated.poolClass [] "pool.ts" 0 5
           Annotated.poolContract eq_refl pool_parsed).
Defined.

Lemma X5_witness :
  status (verifyCalls MoreSamples.transferCall mint) = VIOLATED /\
  status (verifyCalls MoreSamples.transferCall deposit) <> VERIFIED.
Proof.
  destruct (X5_verifyCalls_status MoreSamples.transferCall mint) as [Hnone _].
  destruct (X5_verifyCalls_status MoreSamples.transferCall deposit) as [_ Hiff].
  split; [apply Hnone; reflexivity|].
  intros H. apply Hiff in H. destruct H as (_ & _ & _ & [H|H]).
  - apply H. reflexivity.
  - discriminate H.
Defined.

Lemma X18_witness :
  verifyExitCode MoreSamples.load [] = 0 /\
  verifyExitCode MoreSamples.load [vaultContract] = 1 /\
  verifyExitCode MoreSamples.load
    [vaultContract; mkContract "Vault" "missing.ts" [] [] [] JsMap.empty] = 2.
Proof.
  split; [|split].
  - apply (proj1 (X18_verify_exit_code MoreSamples.load [])). reflexivity.
  - apply (proj2 (proj2 (X18_verify_exit_code MoreSamples.load [vaultContract]))).
    + intros c [<-|[]]. discriminate.
    + exists vaultContract, sourceFile,
        (hd (makeResult noApprove MISSING "-" None)
            (filter (fun r => status_eqb (status r) VIOLATED)
               (results (verifyContract vaultContract sourceFile)))).
      split; [now left|]. split; [reflexivity|]. split.
      * vm_compute. do 4 right. left. reflexivity.
      * reflexivity.
  - apply (proj1 (proj2 (X18_verify_exit_code MoreSamples.load
                           [vaultContract; mkContract "Vault" "missing.ts" [] [] [] JsMap.empty]))).
    exists (mkContract "Vault" "missing.ts" [] [] [] JsMap.empty).
    split; [right; now left | reflexivity].
Defined.



Lemma X28_witness :
  Reporter.jsonReport
    (verifyContract (Identity.contract (fun n => n + 100) Annotated.poolContract)
       Annotated.sourceFile) =
  Reporter.jsonReport (verifyContract Annotated.poolContract Annotated.sourceFile).
Proof.
  apply (X28_report_identity_independent (fun n => n + 100) Annotated.poolContract
           Annotated.sourceFile).
  intros a b H. lia.
Defined.
